(** * PiCrust skill installer: a shallow embedding and its properties

    The development embeds the skill-installer extension
    (src/PiCrust/AgentFiles/extensions/discord-reactions.ts, second
    document, lines 243-485): the reference scanner [findReferencedFiles],
    the sandbox guard [isSafePath], the resource fetcher [fetchText] and
    the tools [install_skill] and [uninstall_skill].

    JavaScript strings are modelled as [string], one [ascii] per code unit
    (code units 0..255).  Node's [path] module is modelled for POSIX
    ([path.sep] is the slash), Node's [fs] as a finite map from absolute
    segment lists to nodes, and the network as an oracle. *)

From Stdlib Require Import Ascii String ZArith Bool Lia.
From Stdlib Require Import Numbers.DecimalString.
From stdpp Require Import base option list strings gmap fin_maps.

Set Default Proof Using "Type".

(** ** Characters and character classes *)

Module Chars.

Definition code (c : ascii) : nat := nat_of_ascii c.

Definition in_range (lo hi : nat) (c : ascii) : bool :=
  (lo <=? code c)%nat && (code c <=? hi)%nat.

(** The class [\w] of a JavaScript regular expression. *)
Definition is_word (c : ascii) : bool :=
  in_range 48 57 c || in_range 65 90 c || in_range 97 122 c
  || Ascii.eqb c "_".

(** The class [\s], and the characters removed by [trim]: the WhiteSpace
    and LineTerminator code points below 256. *)
Definition is_space (c : ascii) : bool :=
  in_range 9 13 c || Ascii.eqb c " " || (code c =? 160)%nat.

Definition only (a : ascii) (c : ascii) : bool := Ascii.eqb c a.
Definition except (a : ascii) (c : ascii) : bool := negb (Ascii.eqb c a).

End Chars.

(** ** The string methods the extension calls *)

Module JsString.

(** [s.startsWith(p)]. *)
Fixpoint startsWith (s p : string) : bool :=
  match p, s with
  | EmptyString, _ => true
  | String a p', String b s' => Ascii.eqb a b && startsWith s' p'
  | String _ _, EmptyString => false
  end.

(** [s.includes(p)]. *)
Fixpoint includes (s p : string) : bool :=
  startsWith s p ||
  match s with
  | EmptyString => false
  | String _ s' => includes s' p
  end.

(** [s.indexOf(p)], with -1 when [p] does not occur. *)
Fixpoint indexOf_from (i : Z) (s p : string) : Z :=
  if startsWith s p then i
  else match s with
       | EmptyString => (-1)%Z
       | String _ s' => indexOf_from (i + 1)%Z s' p
       end.
Definition indexOf (s p : string) : Z := indexOf_from 0 s p.

(** [s.lastIndexOf(p)], with -1 when [p] does not occur. *)
Fixpoint lastIndexOf_from (i : Z) (s p : string) : Z :=
  match s with
  | EmptyString => if startsWith s p then i else (-1)%Z
  | String _ s' =>
      let later := lastIndexOf_from (i + 1)%Z s' p in
      if (0 <=? later)%Z then later
      else if startsWith s p then i else (-1)%Z
  end.
Definition lastIndexOf (s p : string) : Z := lastIndexOf_from 0 s p.

(** [s.slice(0, n)] and [s.substring(0, n)] for [0 <= n]. *)
Fixpoint take (n : nat) (s : string) : string :=
  match n, s with
  | S n', String c s' => String c (take n' s')
  | _, _ => EmptyString
  end.

(** [s.split(sep)] for a one-character separator: never the empty list. *)
Fixpoint split (sep : ascii) (s : string) : list string :=
  match s with
  | EmptyString => [EmptyString]
  | String c s' =>
      if Ascii.eqb c sep then EmptyString :: split sep s'
      else match split sep s' with
           | seg :: segs => String c seg :: segs
           | [] => [String c EmptyString]
           end
  end.

(** [parts.join(sep)]. *)
Fixpoint join (sep : string) (parts : list string) : string :=
  match parts with
  | [] => EmptyString
  | [p] => p
  | p :: ps => p +:+ sep +:+ join sep ps
  end.

(** [arr.pop()] on a fresh array: the last element, if any. *)
Definition pop (l : list string) : option string := last l.

Fixpoint trimStart (s : string) : string :=
  match s with
  | String c s' => if Chars.is_space c then trimStart s' else s
  | EmptyString => EmptyString
  end.

Fixpoint trimEnd (s : string) : string :=
  match s with
  | EmptyString => EmptyString
  | String c s' =>
      match trimEnd s' with
      | EmptyString => if Chars.is_space c then EmptyString
                       else String c EmptyString
      | t => String c t
      end
  end.

(** [s.trim()]. *)
Definition trim (s : string) : string := trimEnd (trimStart s).

(** A string is falsy exactly when it is empty. *)
Definition truthy (s : string) : bool :=
  match s with EmptyString => false | _ => true end.

(** [a || b] on strings. *)
Definition or_else (a b : string) : string := if truthy a then a else b.

(** [a || b] where [a] may be [undefined]. *)
Definition or_default (o : option string) (d : string) : string :=
  match o with
  | Some s => or_else s d
  | None => d
  end.

(** Template-literal rendering of a non-negative integer. *)
Definition of_N (n : N) : string := NilZero.string_of_uint (N.to_uint n).

Fixpoint all_chars (p : ascii -> bool) (s : string) : bool :=
  match s with
  | EmptyString => true
  | String c s' => p c && all_chars p s'
  end.

End JsString.

(** ** Regular expressions

    A backtracking matcher for the fragment of JavaScript regular
    expressions that the extension uses: character classes, greedy bounded
    repetition of a class, sequencing, numbered capture groups and the
    anchors.  Alternatives are explored in the order of the ECMAScript
    semantics: a greedy repetition first takes as many characters as it
    can and gives them back one at a time. *)

Module Regex.

Inductive regex : Type :=
| Class (p : ascii -> bool)
| Rep (p : ascii -> bool) (lo : nat) (hi : option nat)
| Seq (r1 r2 : regex)
| Group (n : nat) (r : regex)
| Bol
| Eol.

Definition Lit (a : ascii) : regex := Class (Chars.only a).
Definition Star (p : ascii -> bool) : regex := Rep p 0 None.
Definition Plus (p : ascii -> bool) : regex := Rep p 1 None.

Definition captures := list (nat * string).

Fixpoint capture (n : nat) (caps : captures) : string :=
  match caps with
  | [] => EmptyString
  | (m, s) :: rest => if (m =? n)%nat then s else capture n rest
  end.

Definition may_take (hi : option nat) : bool :=
  match hi with Some 0 => false | _ => true end.

Definition taken (hi : option nat) : option nat :=
  match hi with Some n => Some (pred n) | None => None end.

Section Matcher.
Context {A : Type}.

Fixpoint rep (p : ascii -> bool) (lo : nat) (hi : option nat)
    (pos : nat) (s : string) (k : nat -> string -> option A) : option A :=
  match s with
  | String c s' =>
      if p c && may_take hi then
        match rep p (pred lo) (taken hi) (S pos) s' k with
        | Some r => Some r
        | None => if (lo =? 0)%nat then k pos s else None
        end
      else if (lo =? 0)%nat then k pos s else None
  | EmptyString => if (lo =? 0)%nat then k pos s else None
  end.

Fixpoint run (r : regex) (pos : nat) (s : string) (caps : captures)
    (k : nat -> string -> captures -> option A) : option A :=
  match r with
  | Class p =>
      match s with
      | String c s' => if p c then k (S pos) s' caps else None
      | EmptyString => None
      end
  | Rep p lo hi => rep p lo hi pos s (fun pos' s' => k pos' s' caps)
  | Seq r1 r2 =>
      run r1 pos s caps (fun pos1 s1 caps1 => run r2 pos1 s1 caps1 k)
  | Group n r1 =>
      run r1 pos s caps (fun pos1 s1 caps1 =>
        k pos1 s1 ((n, JsString.take (pos1 - pos) s) :: caps1))
  | Bol => if (pos =? 0)%nat then k pos s caps else None
  | Eol =>
      match s with
      | EmptyString => k pos s caps
      | String _ _ => None
      end
  end.
End Matcher.

(** A match that starts at index [pos], where [s] is the input from
    [pos] on: the end index, the rest of the input and the captures. *)
Definition match_here (r : regex) (pos : nat) (s : string)
    : option (nat * string * captures) :=
  run r pos s [] (fun pos' s' caps => Some (pos', s', caps)).

(** [while ((match = re.exec(s)) !== null)] for a regular expression with
    the [g] flag: the captures of the successive matches, each search
    starting where the previous match ended.  [skip] counts the
    characters of the previous match still to be passed over.  (The
    patterns of the extension never match the empty string.) *)
Fixpoint exec_loop (r : regex) (pos : nat) (s : string) (skip : nat)
    : list captures :=
  match s with
  | EmptyString => []
  | String _ s' =>
      match skip with
      | S n => exec_loop r (S pos) s' n
      | O =>
          match match_here r pos s with
          | Some (pos', _, caps) =>
              caps :: exec_loop r (S pos) s' (pos' - pos - 1)
          | None => exec_loop r (S pos) s' 0
          end
      end
  end.

Definition exec_all (r : regex) (s : string) : list captures :=
  exec_loop r 0 s 0.

(** [re.test(s)] without the [g] flag: some index has a match. *)
Fixpoint test_from (r : regex) (pos : nat) (s : string) : bool :=
  match match_here r pos s with
  | Some _ => true
  | None =>
      match s with
      | EmptyString => false
      | String _ s' => test_from r (S pos) s'
      end
  end.
Definition test (r : regex) (s : string) : bool := test_from r 0 s.

(** [s.replace(re, repl)] without the [g] flag: the leftmost match. *)
Fixpoint replace_from (r : regex) (repl : string) (pos : nat) (s : string)
    : string :=
  match match_here r pos s with
  | Some (_, rest, _) => repl +:+ rest
  | None =>
      match s with
      | EmptyString => EmptyString
      | String c s' => String c (replace_from r repl (S pos) s')
      end
  end.
Definition replace (r : regex) (repl : string) (s : string) : string :=
  replace_from r repl 0 s.

(** [s.replace(re, repl)] with the [g] flag, for patterns that consume
    at least one character. *)
Fixpoint replace_loop (r : regex) (repl : string) (pos : nat) (s : string)
    (skip : nat) : string :=
  match s with
  | EmptyString => EmptyString
  | String c s' =>
      match skip with
      | S n => replace_loop r repl (S pos) s' n
      | O =>
          match match_here r pos s with
          | Some (pos', _, _) =>
              repl +:+ replace_loop r repl (S pos) s' (pos' - pos - 1)
          | None => String c (replace_loop r repl (S pos) s' 0)
          end
      end
  end.
Definition replaceAll (r : regex) (repl : string) (s : string) : string :=
  replace_loop r repl 0 s 0.

End Regex.

Declare Scope regex_scope.
Delimit Scope regex_scope with re.
Infix ">>" := Regex.Seq (at level 60, right associativity) : regex_scope.

(** ** Naming and the reference scanner *)

Module Scanner.
Import Regex.

(** getBaseUrl, line 269. *)
Definition getBaseUrl (url : string) : string :=
  let lastSlash := JsString.lastIndexOf url "/" in
  if (JsString.indexOf url "://" + 2 <? lastSlash)%Z
  then JsString.take (Z.to_nat lastSlash) url
  else url.

(** The pattern of line 276: a dot and one or more word characters, up
    to the end of the input. *)
Definition extensionRegex : regex :=
  (Lit "." >> Plus Chars.is_word >> Eol)%re.

(** getSkillName, line 274. *)
Definition getSkillName (url : string) : string :=
  let filename := JsString.or_default (JsString.pop (JsString.split "/" url)) "skill" in
  replace extensionRegex EmptyString filename.

(** The pattern of line 356: one character that is neither a word
    character nor a hyphen. *)
Definition is_name_char (c : ascii) : bool :=
  Chars.is_word c || Ascii.eqb c "-".
Definition unsafeNameRegex : regex := Class (fun c => negb (is_name_char c)).

Definition sanitize (name : string) : string :=
  replaceAll unsafeNameRegex "-" name.

(** linkRegex, line 285: an opening bracket, group 1 (any number of
    characters other than a closing bracket), a closing bracket, an
    opening parenthesis, group 2 (one or more characters other than a
    closing parenthesis), a closing parenthesis. *)
Definition linkRegex : regex :=
  (Lit "[" >> Group 1 (Star (Chars.except "]")) >> Lit "]" >>
   Lit "(" >> Group 2 (Plus (Chars.except ")")) >> Lit ")")%re.

(** backtickRegex, line 294: a backtick, group 1 (one or more characters
    that are neither a backtick nor white space, a dot, one to ten word
    characters), a backtick. *)
Definition is_token_char (c : ascii) : bool :=
  negb (Ascii.eqb c "`" || Chars.is_space c).
Definition backtickRegex : regex :=
  (Lit "`" >>
   Group 1 (Plus is_token_char >> Lit "." >> Rep Chars.is_word 1 (Some 10)) >>
   Lit "`")%re.

(** The test of line 297: from start to end, one or more word
    characters, hyphens, slashes or dots. *)
Definition is_path_char (c : ascii) : bool :=
  Chars.is_word c || Ascii.eqb c "-" || Ascii.eqb c "/" || Ascii.eqb c ".".
Definition plainPathRegex : regex := (Bol >> Plus is_path_char >> Eol)%re.

(** [refs.add(x)] on a [Set] kept in insertion order. *)
Definition set_add (refs : list string) (x : string) : list string :=
  if existsb (String.eqb x) refs then refs else refs ++ [x].

Definition keeps_link (href : string) : bool :=
  negb (JsString.startsWith href "http")
  && negb (JsString.startsWith href "#")
  && negb (JsString.startsWith href "mailto:").

Definition keeps_backtick (ref : string) : bool :=
  test plainPathRegex ref
  && negb (JsString.startsWith ref ".")
  && negb (JsString.includes ref "..").

(** The targets of the markdown links, in order of occurrence. *)
Definition link_targets (content : string) : list string :=
  map (capture 2) (exec_all linkRegex content).

(** The backtick-delimited tokens that look like file names. *)
Definition backtick_tokens (content : string) : list string :=
  map (capture 1) (exec_all backtickRegex content).

Definition add_if (keep : string -> bool) (refs : list string) (x : string)
    : list string :=
  if keep x then set_add refs x else refs.

(** The references after the first loop, lines 286-291. *)
Definition link_refs (content : string) : list string :=
  fold_left (add_if keeps_link) (link_targets content) [].

(** findReferencedFiles, line 280. *)
Definition findReferencedFiles (content : string) : list string :=
  fold_left (add_if keeps_backtick) (backtick_tokens content)
    (link_refs content).

End Scanner.

(** ** Node's [path] module, POSIX flavour *)

Module Path.

Definition sep : string := "/".

(** One segment of [normalizeString]: empty and single-dot segments are
    dropped, a double-dot segment removes the previous segment, or is
    kept when there is none to remove and [allowAboveRoot] holds.  The
    segments kept so far are held last first. *)
Definition norm_step (allowAboveRoot : bool) (kept : list string)
    (seg : string) : list string :=
  if String.eqb seg EmptyString then kept
  else if String.eqb seg "." then kept
  else if String.eqb seg ".." then
    match kept with
    | top :: below =>
        if String.eqb top ".."
        then (if allowAboveRoot then seg :: kept else kept)
        else below
    | [] => if allowAboveRoot then [seg] else []
    end
  else seg :: kept.

Definition normalize_segments (allowAboveRoot : bool) (p : string)
    : list string :=
  rev (fold_left (norm_step allowAboveRoot) (JsString.split "/" p) []).

Definition normalizeString (allowAboveRoot : bool) (p : string) : string :=
  JsString.join sep (normalize_segments allowAboveRoot p).

(** The loop of [path.resolve]: arguments are taken from the last one
    back, each put in front of the path built so far, until one is
    absolute; the working directory comes after the first argument. *)
Fixpoint resolve_loop (cwd : string) (args_rev : list string)
    (acc : string) : string * bool :=
  match args_rev with
  | [] =>
      if JsString.truthy cwd
      then (cwd +:+ "/" +:+ acc, JsString.startsWith cwd "/")
      else (acc, false)
  | p :: rest =>
      if JsString.truthy p then
        if JsString.startsWith p "/" then (p +:+ "/" +:+ acc, true)
        else resolve_loop cwd rest (p +:+ "/" +:+ acc)
      else resolve_loop cwd rest acc
  end.

(** [path.resolve(...args)] in a process whose working directory is
    [cwd]. *)
Definition resolve (cwd : string) (args : list string) : string :=
  let '(p, absolute) := resolve_loop cwd (rev args) EmptyString in
  let n := normalizeString (negb absolute) p in
  if absolute then "/" +:+ n
  else if JsString.truthy n then n else ".".

Definition ends_with_sep (p : string) : bool :=
  match JsString.pop (JsString.split "/" p) with
  | Some EmptyString => JsString.truthy p
  | _ => false
  end.

(** [path.normalize(p)]. *)
Definition normalize (p : string) : string :=
  if negb (JsString.truthy p) then "."
  else
    let absolute := JsString.startsWith p "/" in
    let trailing := ends_with_sep p in
    let n := normalizeString (negb absolute) p in
    if negb (JsString.truthy n) then
      (if absolute then "/" else if trailing then "./" else ".")
    else
      let n' := if trailing then n +:+ "/" else n in
      if absolute then "/" +:+ n' else n'.

(** [path.join(...args)]: the non-empty arguments joined by the
    separator, then normalized. *)
Definition join (args : list string) : string :=
  match filter (fun a => JsString.truthy a = true) args with
  | [] => "."
  | parts => normalize (JsString.join "/" parts)
  end.

(** A segment of a normalized path: not empty, neither of the two dot
    segments, and free of separators. *)
Definition is_normal_segment (seg : string) : bool :=
  negb (String.eqb seg EmptyString)
  && negb (String.eqb seg ".")
  && negb (String.eqb seg "..")
  && JsString.all_chars (Chars.except "/") seg.

(** The absolute path with the given segments. *)
Definition absolute_of (segs : list string) : string :=
  "/" +:+ JsString.join sep segs.

(** The segments left when [candidate] is resolved against the directory
    with segments [root]: an absolute candidate starts from the top, a
    relative one from [root]. *)
Definition resolved_segments (root : list string) (candidate : string)
    : list string :=
  rev (fold_left (norm_step false) (JsString.split "/" candidate)
         (if JsString.startsWith candidate "/" then [] else rev root)).

Fixpoint drop_while (p : ascii -> bool) (l : list ascii) : list ascii :=
  match l with
  | c :: l' => if p c then drop_while p l' else l
  | [] => []
  end.

(** [path.dirname(p)]: the scan runs from the end of the path down to
    index 1, over the trailing separators and then over the last
    segment. *)
Definition dirname (p : string) : string :=
  match p with
  | EmptyString => "."
  | String c0 body =>
      let hasRoot := Ascii.eqb c0 "/" in
      let none := if hasRoot then "/" else "." in
      let r1 := drop_while (Chars.only "/")
                  (rev (list_ascii_of_string body)) in
      match r1, drop_while (Chars.except "/") r1 with
      | [], _ => none
      | _, [] => none
      | _, _ :: r3 =>
          match r3 with
          | [] => if hasRoot then "//"
                  else String c0 EmptyString
          | _ => String c0 (string_of_list_ascii (rev r3))
          end
      end
  end.

End Path.

(** ** The world: file system, effect trace and failures *)

Inductive node : Type :=
| File (content : string)
| Dir.

(** The calls with an effect outside the process, in the order made. *)
Inductive event : Type :=
| EvFetch (url : string)
| EvMkdir (path : string)
| EvWrite (path : string) (data : string)
| EvRm (path : string).

(** A thrown JavaScript error; [message] may be missing. *)
Record js_error : Type := JsError { message : option string }.

Record world : Type := World {
  w_fs : gmap (list string) node;
  w_trace : list event
}.

Inductive outcome (A : Type) : Type :=
| Ok (a : A) (w : world)
| Throw (e : js_error) (w : world).
Arguments Ok {A} a w.
Arguments Throw {A} e w.

Definition M (A : Type) : Type := world -> outcome A.

Definition ret {A} (a : A) : M A := fun w => Ok a w.

Definition bind {A B} (m : M A) (f : A -> M B) : M B :=
  fun w =>
    match m w with
    | Ok a w' => f a w'
    | Throw e w' => Throw e w'
    end.

Definition throw {A} (e : js_error) : M A := fun w => Throw e w.

(** [try { m } catch (err) { h(err) }]. *)
Definition try_catch {A} (m : M A) (h : js_error -> M A) : M A :=
  fun w =>
    match m w with
    | Ok a w' => Ok a w'
    | Throw e w' => h e w'
    end.

Definition log (e : event) : M unit :=
  fun w => Ok tt {| w_fs := w_fs w; w_trace := w_trace w ++ [e] |}.

Definition get_fs : M (gmap (list string) node) := fun w => Ok (w_fs w) w.

Definition put_fs (fs : gmap (list string) node) : M unit :=
  fun w => Ok tt {| w_fs := fs; w_trace := w_trace w |}.

Definition when {A} (b : bool) (m : M A) (d : A) : M A :=
  if b then m else ret d.

Declare Scope monad_scope.
Delimit Scope monad_scope with monad.
Notation "x <- m ;; k" := (bind m (fun x => k))
  (at level 100, m at next level, right associativity) : monad_scope.
Notation "m ;;; k" := (bind m (fun _ => k))
  (at level 100, right associativity) : monad_scope.

(** ** Node's [fs] module

    A node is addressed by the segments of its normalized absolute path;
    the root directory, the empty list, always exists. *)

Module Fs.

Definition error (code : string) : js_error := JsError (Some code).

Section WithCwd.
Variable cwd : string.

(** The node a path names, for an absolute working directory. *)
Definition key (p : string) : list string :=
  Path.normalize_segments false
    (fst (Path.resolve_loop cwd [p] EmptyString)).

Definition node_at (fs : gmap (list string) node) (k : list string)
    : option node :=
  match k with
  | [] => Some Dir
  | _ => fs !! k
  end.

(** A path with a trailing separator names directories only. *)
Definition lookup_path (fs : gmap (list string) node) (p : string)
    : option node :=
  match node_at fs (key p) with
  | Some (File c) => if Path.ends_with_sep p then None else Some (File c)
  | o => o
  end.

(** [fs.existsSync(p)]: true for files and directories alike. *)
Definition existsSync (p : string) : M bool :=
  (fs <- get_fs ;;
   ret (match lookup_path fs p with Some _ => true | None => false end)
  )%monad.

(** The directories of [mkdirSync] with [recursive: true], from the
    root down: a missing one is created, an existing directory is
    entered, a file in the way is an error. *)
Fixpoint mkdir_from (fs : gmap (list string) node) (above : list string)
    (todo : list string) : option (gmap (list string) node) :=
  match todo with
  | [] => Some fs
  | seg :: rest =>
      let k := above ++ [seg] in
      match fs !! k with
      | Some (File _) => None
      | Some Dir => mkdir_from fs k rest
      | None => mkdir_from (<[k := Dir]> fs) k rest
      end
  end.

(** [fs.mkdirSync(p, { recursive: true })]. *)
Definition mkdirSync (p : string) : M unit :=
  (log (EvMkdir p) ;;;
   fs <- get_fs ;;
   match mkdir_from fs [] (key p) with
   | Some fs' => put_fs fs'
   | None => throw (error "ENOTDIR")
   end)%monad.

(** [fs.writeFileSync(p, data, "utf-8")]: the parent must be a
    directory and the target must not be one. *)
Definition writeFileSync (p : string) (data : string) : M unit :=
  (log (EvWrite p data) ;;;
   fs <- get_fs ;;
   let k := key p in
   if Path.ends_with_sep p then throw (error "EISDIR")
   else
     match k, node_at fs (removelast k), node_at fs k with
     | [], _, _ => throw (error "EISDIR")
     | _, Some Dir, Some Dir => throw (error "EISDIR")
     | _, Some Dir, _ => put_fs (<[k := File data]> fs)
     | _, Some (File _), _ => throw (error "ENOTDIR")
     | _, None, _ => throw (error "ENOENT")
     end)%monad.

(** The node [k] and everything below it. *)
Definition under (k : list string) (k' : list string) : Prop :=
  k `prefix_of` k'.

(** [fs.rmSync(p, { recursive: true, force: true })]: the node and
    all it contains are removed; a missing node is not an error. *)
Definition rmSync (p : string) : M unit :=
  (log (EvRm p) ;;;
   fs <- get_fs ;;
   match lookup_path fs p with
   | Some _ => put_fs (filter (fun kv => ¬ under (key p) kv.1) fs)
   | None => ret tt
   end)%monad.

End WithCwd.

End Fs.

(** ** The network *)

Inductive body_result : Type :=
| BodyText (t : string)
| BodyFails (e : js_error).

(** What the transport does with one request: a response with its [ok]
    flag, status and body, or a rejection. *)
Inductive transport : Type :=
| Responds (ok : bool) (status : N) (body : body_result)
| Rejects (e : js_error).

Record response : Type := Response {
  r_ok : bool;
  r_status : N;
  r_body : body_result
}.

Record fetch_result : Type := FetchResult {
  ok : bool;
  text : string;
  status : N
}.

(** ** Tool results *)

Inductive details : Type :=
| Failure
| Installed (skillName : string) (fetched failed : list string)
| Removed (name : string).

Definition success (d : details) : bool :=
  match d with
  | Failure => false
  | Installed _ _ _ => true
  | Removed _ => true
  end.

Definition fetched_of (d : details) : list string :=
  match d with
  | Installed _ fetched _ => fetched
  | _ => []
  end.

Record tool_result : Type := ToolResult {
  content : string;
  result_details : details
}.

Record install_params : Type := InstallParams {
  p_url : option string;
  p_name : option string
}.

Definition quote : string := String (ascii_of_nat 34) EmptyString.
Definition newline : string := String (ascii_of_nat 10) EmptyString.

(** ** The extension *)

Module Installer.
Import Scanner.

Section Extension.
(** The working directory of the process and the network it talks
    to; the answer to a request may depend on what happened so far. *)
Variable cwd : string.
Variable net : list event -> string -> transport.

Local Open Scope monad_scope.

(** Line 261. *)
Definition skillsDir : string := Path.resolve cwd ["skills"].

(** ensureSkillsDir, line 263. *)
Definition ensureSkillsDir : M unit :=
  present <- Fs.existsSync cwd skillsDir ;;
  when (negb present) (Fs.mkdirSync cwd skillsDir) tt.

(** isSafePath, line 306. *)
Definition isSafePath (skillDir relativePath : string) : bool :=
  let resolved := Path.resolve cwd [skillDir; relativePath] in
  JsString.startsWith resolved (skillDir +:+ Path.sep)
  || String.eqb resolved skillDir.

(** The global [fetch]: it resolves with a response or rejects. *)
Definition fetch (url : string) : M response :=
  fun w =>
    match log (EvFetch url) w with
    | Ok _ w' =>
        match net (w_trace w) url with
        | Responds o st b => Ok (Response o st b) w'
        | Rejects e => Throw e w'
        end
    | Throw e w' => Throw e w'
    end.

(** [response.text()]. *)
Definition response_text (r : response) : M string :=
  match r_body r with
  | BodyText t => ret t
  | BodyFails e => throw e
  end.

(** fetchText, line 311. *)
Definition fetchText (url : string) : M fetch_result :=
  try_catch
    (response <- fetch url ;;
     text <- response_text response ;;
     ret (FetchResult (r_ok response) text (r_status response)))
    (fun err =>
       ret (FetchResult false
              (JsString.or_default (message err) "Fetch failed") 0)).

(** The loop of lines 383-403 over the references still to visit. *)
Fixpoint install_refs (baseUrl skillDir : string) (refs : list string)
    (fetched failed : list string) : M (list string * list string) :=
  match refs with
  | [] => ret (fetched, failed)
  | ref :: rest =>
      if negb (isSafePath skillDir ref) then
        install_refs baseUrl skillDir rest fetched
          (failed ++ [ref +:+ " (blocked: path traversal)"])
      else
        let refUrl := baseUrl +:+ "/" +:+ ref in
        refResult <- fetchText refUrl ;;
        if ok refResult then
          let destPath := Path.join [skillDir; ref] in
          let destDir := Path.dirname destPath in
          present <- Fs.existsSync cwd destDir ;;
          when (negb present) (Fs.mkdirSync cwd destDir) tt ;;;
          Fs.writeFileSync cwd destPath (text refResult) ;;;
          install_refs baseUrl skillDir rest (fetched ++ [ref]) failed
        else
          install_refs baseUrl skillDir rest fetched
            (failed ++ [ref +:+ " (HTTP "
                        +:+ JsString.of_N (status refResult) +:+ ")"])
  end.

Definition bullet (f : string) : string := "  - " +:+ f.

Definition install_summary (skillName : string)
    (fetched failed : list string) : string :=
  let summary :=
    "Installed skill " +:+ quote +:+ skillName +:+ quote
    +:+ " to skills/" +:+ skillName +:+ "/" +:+ newline +:+ newline
    +:+ "Files fetched:" +:+ newline
    +:+ JsString.join newline (map bullet fetched) in
  if (0 <? length failed)%nat then
    summary +:+ newline +:+ newline +:+ "Could not fetch:" +:+ newline
    +:+ JsString.join newline (map bullet failed)
  else summary.

(** The name under which the primary document is saved, line 375. *)
Definition mainFilename (url : string) : string :=
  JsString.or_default (JsString.pop (JsString.split "/" url)) "skill.md".

(** The name of the skill, line 356. *)
Definition skillName (name : option string) (url : string) : string :=
  sanitize (JsString.or_default (JsString.trim <$> name) (getSkillName url)).

Definition fetch_failure (url : string) (r : fetch_result) : string :=
  "Failed to fetch " +:+ url +:+ " (HTTP " +:+ JsString.of_N (status r)
  +:+ "): " +:+ JsString.take 200 (text r).

(** install_skill, lines 338-414. *)
Definition install_skill (params : install_params) : M tool_result :=
  let url := JsString.or_default (JsString.trim <$> p_url params) EmptyString in
  if negb (JsString.truthy url) then
    ret (ToolResult
           "Usage: install_skill(url: 'https://example.com/skill.md')"
           Failure)
  else if negb (JsString.startsWith url "http://")
          && negb (JsString.startsWith url "https://") then
    ret (ToolResult "URL must start with http:// or https://" Failure)
  else
    ensureSkillsDir ;;;
    let skillName := skillName (p_name params) url in
    let baseUrl := getBaseUrl url in
    let skillDir := Path.join [skillsDir; skillName] in
    mainResult <- fetchText url ;;
    if negb (ok mainResult) then
      ret (ToolResult (fetch_failure url mainResult) Failure)
    else
      present <- Fs.existsSync cwd skillDir ;;
      when (negb present) (Fs.mkdirSync cwd skillDir) tt ;;;
      let mainFilename := mainFilename url in
      Fs.writeFileSync cwd (Path.join [skillDir; mainFilename])
        (text mainResult) ;;;
      let refs := findReferencedFiles (text mainResult) in
      lists <- install_refs baseUrl skillDir refs [mainFilename] [] ;;
      let fetched := lists.1 in
      let failed := lists.2 in
      ret (ToolResult (install_summary skillName fetched failed)
             (Installed skillName fetched failed)).

(** uninstall_skill, lines 427-450. *)
Definition uninstall_skill (param_name : option string) : M tool_result :=
  let name := JsString.or_default (JsString.trim <$> param_name) EmptyString in
  if negb (JsString.truthy name) then
    ret (ToolResult "Usage: uninstall_skill(name: 'skill-name')" Failure)
  else
    let skillDir := Path.join [skillsDir; name] in
    present <- Fs.existsSync cwd skillDir ;;
    if negb present then
      ret (ToolResult
             ("Skill " +:+ quote +:+ name +:+ quote
              +:+ " not found in skills/")
             Failure)
    else
      Fs.rmSync cwd skillDir ;;;
      ret (ToolResult ("Removed skill " +:+ quote +:+ name +:+ quote)
             (Removed name)).

End Extension.

End Installer.

(** ** Observing a run *)

(** The world a computation stops in, whether it returns or throws. *)
Definition world_of {A} (o : outcome A) : world :=
  match o with
  | Ok _ w => w
  | Throw _ w => w
  end.

(** Every call the computation adds to the trace satisfies [P]. *)
Definition emits {A} (m : M A) (P : event -> Prop) : Prop :=
  forall w, exists evs,
    w_trace (world_of (m w)) = w_trace w ++ evs /\ Forall P evs.

(** The calls that the loop of [install_skill] makes for the reference
    [ref]: its request, the creation of its directory, its write. *)
Definition from_reference (baseUrl skillDir ref : string) (e : event) : Prop :=
  e = EvFetch (baseUrl +:+ "/" +:+ ref)
  \/ e = EvMkdir (Path.dirname (Path.join [skillDir; ref]))
  \/ exists data, e = EvWrite (Path.join [skillDir; ref]) data.

(** The transport answers with a readable body and the ok flag set. *)
Definition answers_ok (t : transport) : bool :=
  match t with
  | Responds o _ (BodyText _) => o
  | _ => false
  end.

(** ** The documents and URLs of the scenarios *)

Definition scenario_A : string :=
  "See [guide](guide.md) and [ext link](https://x.com/a)".

Definition scenario_B : string :=
  "Settings live in `config.json`; never read `../secret`.".

Definition dot_file_url : string := "https://x.com/.md".

(** An agent in /home/agent with no sets root yet, and two networks: one
    that answers every request with a 404, one that serves the text of
    scenario B at the URL of the skill and a small file elsewhere. *)

Definition agent_cwd : string := "/home/agent".

Definition agent_fs : gmap (list string) node :=
  <[ ["home"; "agent"] := Dir ]> (<[ ["home"] := Dir ]> ∅).

Definition agent_world : world := World agent_fs [].

Definition skill_url : string := "https://example.com/skills/my-skill.md".

Definition net_404 : list event -> string -> transport :=
  fun _ _ => Responds false 404 (BodyText "Not Found").

Definition net_B : list event -> string -> transport :=
  fun _ url =>
    if String.eqb url skill_url
    then Responds true 200 (BodyText scenario_B)
    else Responds true 200 (BodyText "{}").

(** Three more worlds: one whose sets root holds a regular file named
    foo, one where the skill foo is installed with two files, one with a
    directory /home/agent/data next to the sets root. *)

Definition file_world : world :=
  World (<[ ["home"; "agent"; "skills"; "foo"] := File "notes" ]>
           (<[ ["home"; "agent"; "skills"] := Dir ]> agent_fs)) [].

Definition skill_world : world :=
  World (<[ ["home"; "agent"; "skills"; "foo"; "docs"; "guide.md"]
              := File "guide" ]>
           (<[ ["home"; "agent"; "skills"; "foo"; "docs"] := Dir ]>
              (<[ ["home"; "agent"; "skills"; "foo"; "foo.md"] := File "foo" ]>
                 (<[ ["home"; "agent"; "skills"; "foo"] := Dir ]>
                    (<[ ["home"; "agent"; "skills"] := Dir ]> agent_fs))))) [].

Definition data_world : world :=
  World (<[ ["home"; "agent"; "data"; "notes.txt"] := File "notes" ]>
           (<[ ["home"; "agent"; "data"] := Dir ]>
              (<[ ["home"; "agent"; "skills"] := Dir ]> agent_fs))) [].

(** The segments left when [rel] is joined to the directory with segments
    [dir]: [path.join], unlike [path.resolve], continues from [dir] even
    when [rel] starts with a separator. *)
Definition joined_segments (dir : list string) (rel : string) : list string :=
  rev (fold_left (Path.norm_step false) (JsString.split "/" rel) (rev dir)).

(** A network that serves the same small file at every URL except the
    URL of the skill, where it serves a document with one link whose
    target is absolute and starts by going up. *)
Definition escaping_document : string :=
  "See [x](/../home/agent/skills/my-skill/x.md)".

Definition net_escape : list event -> string -> transport :=
  fun _ url =>
    if String.eqb url skill_url
    then Responds true 200 (BodyText escaping_document)
    else Responds true 200 (BodyText "{}").

(** ** Comparing file systems *)

(** A regular file is stored at [k]. *)
Definition is_file (fs : gmap (list string) node) (k : list string) : Prop :=
  exists c, fs !! k = Some (File c).

(** Every node of [fs] is in [fs'] with the same kind: directories stay
    directories, regular files stay regular files. *)
Definition grows (fs fs' : gmap (list string) node) : Prop :=
  forall k,
    (fs !! k = Some Dir -> fs' !! k = Some Dir)
    /\ (is_file fs k -> is_file fs' k).

(** ** Reading a pattern *)

(** The characters a match of the pattern may consume, the least number
    of them, and whether the pattern is anchored at either end. *)
Fixpoint alphabet (r : Regex.regex) (c : ascii) : bool :=
  match r with
  | Regex.Class p => p c
  | Regex.Rep p _ _ => p c
  | Regex.Seq r1 r2 => alphabet r1 c || alphabet r2 c
  | Regex.Group _ r1 => alphabet r1 c
  | Regex.Bol => false
  | Regex.Eol => false
  end.

Fixpoint min_length (r : Regex.regex) : nat :=
  match r with
  | Regex.Class _ => 1
  | Regex.Rep _ lo _ => lo
  | Regex.Seq r1 r2 => min_length r1 + min_length r2
  | Regex.Group _ r1 => min_length r1
  | Regex.Bol => 0
  | Regex.Eol => 0
  end.

Fixpoint starts_at_bol (r : Regex.regex) : bool :=
  match r with
  | Regex.Bol => true
  | Regex.Seq r1 _ => starts_at_bol r1
  | Regex.Group _ r1 => starts_at_bol r1
  | _ => false
  end.

Fixpoint ends_at_eol (r : Regex.regex) : bool :=
  match r with
  | Regex.Eol => true
  | Regex.Seq _ r2 => ends_at_eol r2
  | Regex.Group _ r1 => ends_at_eol r1
  | _ => false
  end.

(** ** The package manager extension

    The first document of the same file after the reactions extension
    (lines 96-241): four commands that run the [pi] executable through
    the host's bash tool, and the validation of a package source. *)

Module Packages.
Import Regex.

(** Patterns with optional parts and alternatives, over the regular
    expressions above.  An optional part is greedy: it is tried first and
    skipped when the rest cannot match.  [test] does not look at
    captures, so the groups of these patterns are not recorded. *)
Inductive pattern : Type :=
| PRe (r : regex)
| PSeq (p q : pattern)
| POpt (p : pattern)
| PAlt (p q : pattern).

Fixpoint prun {A} (p : pattern) (pos : nat) (s : string) (caps : captures)
    (k : nat -> string -> captures -> option A) : option A :=
  match p with
  | PRe r => run r pos s caps k
  | PSeq p1 p2 =>
      prun p1 pos s caps (fun pos1 s1 caps1 => prun p2 pos1 s1 caps1 k)
  | POpt p1 =>
      match prun p1 pos s caps k with
      | Some x => Some x
      | None => k pos s caps
      end
  | PAlt p1 p2 =>
      match prun p1 pos s caps k with
      | Some x => Some x
      | None => prun p2 pos s caps k
      end
  end.

Definition pmatch_here (p : pattern) (pos : nat) (s : string) : option unit :=
  prun p pos s [] (fun _ _ _ => Some tt).

(** [re.test(s)] without the [g] flag. *)
Fixpoint ptest_from (p : pattern) (pos : nat) (s : string) : bool :=
  match pmatch_here p pos s with
  | Some _ => true
  | None =>
      match s with
      | EmptyString => false
      | String _ s' => ptest_from p (S pos) s'
      end
  end.
Definition ptest (p : pattern) (s : string) : bool := ptest_from p 0 s.

(** The classes [\w\-\.], [\w\-\.\^~>=<*] and [\w\-\.\/]. *)
Definition is_pkg_char (c : ascii) : bool :=
  Chars.is_word c || Ascii.eqb c "-" || Ascii.eqb c ".".

Definition is_version_char (c : ascii) : bool :=
  is_pkg_char c || Ascii.eqb c "^" || Ascii.eqb c "~" || Ascii.eqb c ">"
  || Ascii.eqb c "=" || Ascii.eqb c "<" || Ascii.eqb c "*".

Definition is_ref_char (c : ascii) : bool :=
  is_pkg_char c || Ascii.eqb c "/".

(** Line 234: npm, a colon, an optional scope (an at sign, a name, a
    slash), a name, an optional version (an at sign, version characters),
    from start to end. *)
Definition npmPattern : pattern :=
  PSeq (PRe (Bol >> Lit "n" >> Lit "p" >> Lit "m" >> Lit ":")%re)
    (PSeq (POpt (PRe (Lit "@" >> Plus is_pkg_char >> Lit "/")%re))
       (PSeq (PRe (Plus is_pkg_char))
          (PSeq (POpt (PRe (Lit "@" >> Plus is_version_char)%re))
             (PRe Eol)))).

(** Line 236: git, a colon, three names separated by slashes, an
    optional reference (an at sign or a hash sign, reference characters),
    from start to end. *)
Definition gitPattern : pattern :=
  PSeq (PRe (Bol >> Lit "g" >> Lit "i" >> Lit "t" >> Lit ":" >>
             Plus is_pkg_char >> Lit "/" >> Plus is_pkg_char >> Lit "/" >>
             Plus is_pkg_char)%re)
    (PSeq (POpt (PSeq (PAlt (PRe (Lit "@")) (PRe (Lit "#")))
                   (PRe (Plus is_ref_char))))
       (PRe Eol)).

(** Line 238: http, an optional s, a colon and two slashes, three names
    separated by slashes, an optional .git, from the start; the end is
    not anchored. *)
Definition httpsPattern : pattern :=
  PSeq (PRe (Bol >> Lit "h" >> Lit "t" >> Lit "t" >> Lit "p")%re)
    (PSeq (POpt (PRe (Lit "s")))
       (PSeq (PRe (Lit ":" >> Lit "/" >> Lit "/" >>
                   Plus is_pkg_char >> Lit "/" >> Plus is_pkg_char >>
                   Lit "/" >> Plus is_pkg_char)%re)
          (POpt (PRe (Lit "." >> Lit "g" >> Lit "i" >> Lit "t")%re)))).

(** isValidSource, line 232. *)
Definition isValidSource (input : string) : bool :=
  if ptest npmPattern input then true
  else if ptest gitPattern input then true
  else if ptest httpsPattern input then true
  else false.

(** [s.toLowerCase()] on code units below 256: the capital letters of
    ASCII and of Latin-1 move up by 32. *)
Definition lower (c : ascii) : ascii :=
  if Chars.in_range 65 90 c
     || (Chars.in_range 192 222 c && negb (Chars.code c =? 215)%nat)
  then ascii_of_nat (Chars.code c + 32)
  else c.

Fixpoint toLowerCase (s : string) : string :=
  match s with
  | EmptyString => EmptyString
  | String c s' => String (lower c) (toLowerCase s')
  end.

(** What the host shows and runs for a command. *)
Inductive ui_event : Type :=
| Notify (message : string) (level : string)
| CallTool (tool : string) (command : string).

(** What [pi.callTool] does: it returns a result whose first content
    item may have a text, or it throws a value with a rendering as a
    string. *)
Inductive tool_outcome : Type :=
| ToolReturns (text : option string)
| ToolThrows (error : string).

Section Commands.
(** The bash tool of the host. *)
Variable bash : string -> tool_outcome.

(** The shared shape of lines 135-149, 165-179 and 214-225: run the
    command, then report by its output.  (The dash of the three failure
    texts is U+2014, written here as in the source.) *)
Definition run_and_report (command : string) (failed : string)
    (failure_prefix : string) (done_text : string) : list ui_event :=
  CallTool "bash" command ::
  match bash command with
  | ToolReturns text =>
      let output := JsString.or_default text EmptyString in
      if JsString.includes (toLowerCase output) "error"
      then [Notify failed "error"]
      else [Notify done_text "success"]
  | ToolThrows error => [Notify (failure_prefix +:+ error) "error"]
  end.

(** The handler of /install, lines 121-150. *)
Definition install_command (args : string) : list ui_event :=
  let source := JsString.trim args in
  if negb (JsString.truthy source) then
    [Notify "Usage: /install <source>  (npm:pkg, git:repo, or https URL)"
       "warning"]
  else if negb (isValidSource source) then
    [Notify
       "Invalid source. Use npm:pkg, git:github.com/user/repo, or an https URL."
       "error"]
  else
    Notify ("Installing " +:+ source +:+ "...") "info" ::
    run_and_report ("pi install " +:+ source +:+ " 2>&1")
      "Install failed — check logs" "Install failed: "
      ("Installed " +:+ source).

(** The handler of /uninstall, lines 156-181. *)
Definition uninstall_command (args : string) : list ui_event :=
  let source := JsString.trim args in
  if negb (JsString.truthy source) then
    [Notify "Usage: /uninstall <source>" "warning"]
  else
    Notify ("Removing " +:+ source +:+ "...") "info" ::
    run_and_report ("pi remove " +:+ source +:+ " 2>&1")
      "Remove failed — check logs" "Remove failed: "
      ("Removed " +:+ source).

(** The handler of /packages, lines 186-203. *)
Definition packages_command (args : string) : list ui_event :=
  CallTool "bash" "pi list 2>&1" ::
  match bash "pi list 2>&1" with
  | ToolReturns text =>
      let output := JsString.or_default text EmptyString in
      if negb (JsString.truthy (JsString.trim output))
      then [Notify "No packages installed yet." "info"]
      else [Notify (JsString.trim output) "info"]
  | ToolThrows error =>
      [Notify ("Failed to list packages: " +:+ error) "error"]
  end.

(** The handler of /update, lines 208-227. *)
Definition update_command (args : string) : list ui_event :=
  let source := JsString.trim args in
  let cmd :=
    if JsString.truthy source then "pi update " +:+ source +:+ " 2>&1"
    else "pi update 2>&1" in
  Notify "Updating packages..." "info" ::
  run_and_report cmd "Update failed — check logs" "Update failed: "
    "Packages updated".

End Commands.

End Packages.

(** The characters a match of a pattern may consume, and its anchors. *)
Fixpoint palphabet (p : Packages.pattern) (c : ascii) : bool :=
  match p with
  | Packages.PRe r => alphabet r c
  | Packages.PSeq p1 p2 => palphabet p1 c || palphabet p2 c
  | Packages.POpt p1 => palphabet p1 c
  | Packages.PAlt p1 p2 => palphabet p1 c || palphabet p2 c
  end.

Fixpoint pstarts_at_bol (p : Packages.pattern) : bool :=
  match p with
  | Packages.PRe r => starts_at_bol r
  | Packages.PSeq p1 _ => pstarts_at_bol p1
  | _ => false
  end.

Fixpoint pends_at_eol (p : Packages.pattern) : bool :=
  match p with
  | Packages.PRe r => ends_at_eol r
  | Packages.PSeq _ p2 => pends_at_eol p2
  | _ => false
  end.

(** The characters of a package source in npm or git form: those of a
    version, the at sign, the slash, the colon and the hash sign. *)
Definition is_source_char (c : ascii) : bool :=
  Packages.is_version_char c || Ascii.eqb c "@" || Ascii.eqb c "/"
  || Ascii.eqb c ":" || Ascii.eqb c "#".

(** A name of a package source: one character or more of the class of
    names. *)
Definition is_name (s : string) : Prop :=
  s <> EmptyString /\ JsString.all_chars Packages.is_pkg_char s = true.

(** The tool calls among the events of a command, in order. *)
Definition tool_calls (events : list Packages.ui_event)
    : list (string * string) :=
  omap (fun e =>
          match e with
          | Packages.CallTool tool command => Some (tool, command)
          | Packages.Notify _ _ => None
          end) events.

(** The notification a command ends with. *)
Definition last_event (events : list Packages.ui_event)
    : option Packages.ui_event :=
  last events.

(** ** Listing the skills *)

(** The result of list_skills: its text and, for each skill, its name
    and the names of its files. *)
Record list_result : Type := ListResult {
  l_text : string;
  l_skills : list (string * list string)
}.

Module Listing.

(** An entry of a directory read with [withFileTypes]. *)
Record dirent : Type := Dirent {
  d_name : string;
  isDirectory : bool
}.

(** The name of the node [k'] when it lies directly in the directory
    [k]. *)
Fixpoint child_name (k k' : list string) : option string :=
  match k, k' with
  | [], [n] => Some n
  | s :: k1, s' :: k1' => if String.eqb s s' then child_name k1 k1' else None
  | _, _ => None
  end.

Section WithCwd.
Variable cwd : string.
(** The order in which the system hands out the entries of a directory,
    which Node leaves open. *)
Variable arrange : list string -> list string -> list string.

Definition entries (fs : gmap (list string) node) (k : list string)
    : list string :=
  arrange k (omap (fun kv => child_name k kv.1) (map_to_list fs)).

(** [fs.readdirSync(p)]: the names of the entries of a directory. *)
Definition readdirSync (p : string) : M (list string) :=
  (fs <- get_fs ;;
   match Fs.node_at fs (Fs.key cwd p) with
   | Some Dir => ret (entries fs (Fs.key cwd p))
   | Some (File _) => throw (Fs.error "ENOTDIR")
   | None => throw (Fs.error "ENOENT")
   end)%monad.

(** [fs.readdirSync(p, { withFileTypes: true })]. *)
Definition readdirSync_types (p : string) : M (list dirent) :=
  (names <- readdirSync p ;;
   fs <- get_fs ;;
   ret (map (fun n =>
               Dirent n (match fs !! (Fs.key cwd p ++ [n]) with
                         | Some Dir => true
                         | _ => false
                         end))
          names))%monad.

(** The callback of [map] at line 465, over the directories in order. *)
Fixpoint describe (dirs : list dirent) : M (list (string * list string)) :=
  match dirs with
  | [] => ret []
  | e :: rest =>
      (files <- readdirSync (Path.join [Installer.skillsDir cwd; d_name e]) ;;
       more <- describe rest ;;
       ret ((d_name e, files) :: more))%monad
  end.

Definition line (s : string * list string) : string :=
  "- " +:+ s.1 +:+ "/ (" +:+ JsString.join ", " s.2 +:+ ")".

Definition report (skills : list (string * list string)) : list_result :=
  if (length skills =? 0)%nat then ListResult "No skills installed." []
  else
    ListResult
      ("Installed skills:" +:+ newline
       +:+ JsString.join newline (map line skills))
      skills.

(** list_skills, lines 459-484. *)
Definition list_skills : M list_result :=
  (Installer.ensureSkillsDir cwd ;;;
   found <- readdirSync_types (Installer.skillsDir cwd) ;;
   skills <- describe (List.filter isDirectory found) ;;
   ret (report skills))%monad.

End WithCwd.

End Listing.

(** Every node of the file system has a path of normalized segments. *)
Definition well_named (fs : gmap (list string) node) : bool :=
  forallb (fun kv => forallb Path.is_normal_segment kv.1) (map_to_list fs).

(** The entries in the order of the map. *)
Definition in_map_order : list string -> list string -> list string :=
  fun _ names => names.

(** ** Resolution as the specification words it

    The segments left when a candidate is resolved against a root:
    those of the root, then those of the candidate, where an empty
    segment and a dot are passed over and a double dot takes away the
    segment before it, if there is one; a candidate that starts with the
    separator starts again from the top.  [collapse] keeps the segments
    so far in reverse. *)
Fixpoint collapse (kept_rev segs : list string) : list string :=
  match segs with
  | [] => rev kept_rev
  | seg :: rest =>
      if String.eqb seg EmptyString || String.eqb seg "."
      then collapse kept_rev rest
      else if String.eqb seg ".." then collapse (tail kept_rev) rest
      else collapse (seg :: kept_rev) rest
  end.

Definition spec_resolved (root : list string) (candidate : string)
    : list string :=
  collapse (if JsString.startsWith candidate "/" then [] else rev root)
    (JsString.split "/" candidate).

(** A document with the two backtick tokens of scenario B and, after
    them, a markdown link whose target goes up and into secret; and a
    network that serves it at the URL of the skill and a small file
    elsewhere. *)
Definition secret_link_document : string :=
  "Settings live in `config.json`; never read `../secret`. See [s](../secret)".

Definition net_secret : list event -> string -> transport :=
  fun _ url =>
    if String.eqb url skill_url
    then Responds true 200 (BodyText secret_link_document)
    else Responds true 200 (BodyText "{}").

(** The entries of a report that were not saved. *)
Definition failed_of (d : details) : list string :=
  match d with
  | Installed _ _ failed => failed
  | _ => []
  end.

(** * Properties *)

(** ** The model on concrete inputs *)

Example resolve_relative :
  Path.resolve "/home/agent" ["skills"] = "/home/agent/skills".
Proof. reflexivity. Qed.

Example resolve_collapses :
  Path.resolve "/home/agent" ["/home/agent/skills/s"; "a/../b/./c//d/"]
  = "/home/agent/skills/s/b/c/d".
Proof. reflexivity. Qed.

Example resolve_absolute_override :
  Path.resolve "/home/agent" ["/home/agent/skills/s"; "/etc/passwd"]
  = "/etc/passwd".
Proof. reflexivity. Qed.

Example resolve_above_top : Path.resolve "/" ["../../x"] = "/x".
Proof. reflexivity. Qed.

Example join_keeps_trailing_separator :
  Path.join ["/home/agent/skills"; "../x/"] = "/home/agent/x/".
Proof. reflexivity. Qed.

Example join_relative_above : Path.join ["a"; "../../b/"] = "../b/".
Proof. reflexivity. Qed.

Example join_skips_empty :
  Path.join ["/home/agent/skills"; EmptyString] = "/home/agent/skills".
Proof. reflexivity. Qed.

Example dirname_file : Path.dirname "/a/b/c.txt" = "/a/b".
Proof. reflexivity. Qed.

Example dirname_trailing : Path.dirname "/a/b/" = "/a".
Proof. reflexivity. Qed.

Example dirname_double_root : Path.dirname "//a" = "//".
Proof. reflexivity. Qed.

Example scanner_mixed :
  Scanner.findReferencedFiles
    "[a](#b) [c](mailto:x) [d](../up.md) `a.b.c` `x y.z` [e] (f) [g](h)(i) `long.abcdefghijk` `./rel.md` `guide.md` [z]()"
  = ["../up.md"; "h"; "a.b.c"; "guide.md"].
Proof. reflexivity. Qed.

Example scanner_collapses_duplicates :
  Scanner.findReferencedFiles "[a](x.md) `x.md` [b](x.md)" = ["x.md"].
Proof. reflexivity. Qed.

Example skill_name_plain :
  Installer.skillName None "https://example.com/a/cool-skill.md" = "cool-skill".
Proof. reflexivity. Qed.

Example skill_name_override :
  Installer.skillName (Some " my skill!.v2 ") "https://example.com/a.md"
  = "my-skill--v2".
Proof. reflexivity. Qed.

Example base_url_plain :
  Scanner.getBaseUrl "https://example.com/a/cool-skill.md"
  = "https://example.com/a".
Proof. reflexivity. Qed.

Example base_url_bare_host :
  Scanner.getBaseUrl "https://example.com" = "https://example.com".
Proof. reflexivity. Qed.

Example install_scenario_B :
  exists w',
    Installer.install_skill agent_cwd net_B
      (InstallParams (Some skill_url) None) agent_world
    = Ok (ToolResult
            (Installer.install_summary "my-skill"
               ["my-skill.md"; "config.json"] [])
            (Installed "my-skill" ["my-skill.md"; "config.json"] [])) w'
    /\ w_trace w'
       = [EvMkdir "/home/agent/skills";
          EvFetch "https://example.com/skills/my-skill.md";
          EvMkdir "/home/agent/skills/my-skill";
          EvWrite "/home/agent/skills/my-skill/my-skill.md" scenario_B;
          EvFetch "https://example.com/skills/config.json";
          EvWrite "/home/agent/skills/my-skill/config.json" "{}"]
    /\ w_fs w' !! ["home"; "agent"; "skills"; "my-skill"; "config.json"]
       = Some (File "{}").
Proof. eexists. split; [vm_compute; reflexivity|]. by vm_compute. Qed.

(** ** Strings *)

Section StringFacts.

Lemma app_cons (c : ascii) (s t : string) :
  String c s +:+ t = String c (s +:+ t).
Proof. reflexivity. Qed.

Lemma app_empty_r (s : string) : s +:+ EmptyString = s.
Proof. induction s as [|c s IH]; [done|]. by rewrite app_cons, IH. Qed.

Lemma app_assoc_str (a b c : string) : (a +:+ b) +:+ c = a +:+ (b +:+ c).
Proof. induction a as [|x a IH]; [done|]. by rewrite !app_cons, IH. Qed.

Lemma length_app_str (a b : string) :
  String.length (a +:+ b) = String.length a + String.length b.
Proof. induction a as [|x a IH]; [done|]. rewrite app_cons. simpl. lia. Qed.

Lemma startsWith_app (p rest : string) :
  JsString.startsWith (p +:+ rest) p = true.
Proof.
  induction p as [|c p IH]; [by destruct rest|].
  rewrite app_cons. simpl. by rewrite Ascii.eqb_refl, IH.
Qed.

Lemma startsWith_inv (s p : string) :
  JsString.startsWith s p = true -> exists rest, s = p +:+ rest.
Proof.
  revert s. induction p as [|c p IH]; intros s H.
  - by exists s.
  - destruct s as [|d s]; [done|]. simpl in H.
    apply andb_true_iff in H as [Hc Hp]. apply Ascii.eqb_eq in Hc as ->.
    destruct (IH _ Hp) as [rest ->]. by exists rest.
Qed.

Lemma startsWith_iff (s p : string) :
  JsString.startsWith s p = true <-> exists rest, s = p +:+ rest.
Proof.
  split; [apply startsWith_inv|]. intros [rest ->]. apply startsWith_app.
Qed.

Lemma length_take (n : nat) (s : string) :
  String.length (JsString.take n s) = n `min` String.length s.
Proof.
  revert s. induction n as [|n IH]; intros [|c s]; simpl; try done.
  by rewrite IH.
Qed.

Lemma truthy_or_default (o : option string) (d : string) :
  JsString.truthy d = true -> JsString.truthy (JsString.or_default o d) = true.
Proof.
  intros Hd. destruct o as [s|]; [|done]. unfold JsString.or_default.
  unfold JsString.or_else. by destruct (JsString.truthy s) eqn:E.
Qed.

Lemma split_nonempty (sep : ascii) (s : string) :
  exists seg segs, JsString.split sep s = seg :: segs.
Proof.
  destruct s as [|c s]; simpl; [by eexists _, _|].
  destruct (Ascii.eqb c sep); [by eexists _, _|].
  destruct (JsString.split sep s); by eexists _, _.
Qed.

(** Splitting distributes over a separator between two strings. *)
Lemma split_app_sep (sep : ascii) (u v : string) :
  JsString.split sep (u +:+ String sep v)
  = JsString.split sep u ++ JsString.split sep v.
Proof.
  induction u as [|c u IH].
  - change (EmptyString +:+ String sep v) with (String sep v).
    simpl. by rewrite Ascii.eqb_refl.
  - rewrite app_cons. simpl. rewrite IH.
    destruct (Ascii.eqb c sep); [done|].
    by destruct (split_nonempty sep u) as (seg & segs & ->).
Qed.

Lemma truthy_length (s : string) :
  JsString.truthy s = true <-> 0 < String.length s.
Proof. destruct s; simpl; split; (done || lia). Qed.

End StringFacts.

(** ** The reference scanner and the naming rules *)

Section ScannerFacts.
Import Scanner.

Lemma elem_of_set_add (refs : list string) (x y : string) :
  x ∈ set_add refs y <-> x ∈ refs \/ x = y.
Proof.
  unfold set_add. destruct (existsb (String.eqb y) refs) eqn:E.
  - split; [auto|]. intros [H| ->]; [done|].
    apply existsb_exists in E as (z & Hz & Heq).
    apply String.eqb_eq in Heq as ->. by apply list_elem_of_In.
  - rewrite elem_of_app, list_elem_of_singleton. tauto.
Qed.

Lemma elem_of_fold_add_if (keep : string -> bool) (l acc : list string)
    (x : string) :
  x ∈ fold_left (add_if keep) l acc <-> x ∈ acc \/ (x ∈ l /\ keep x = true).
Proof.
  revert acc. induction l as [|y l IH]; intros acc; simpl.
  - rewrite elem_of_nil. tauto.
  - rewrite IH, elem_of_cons. unfold add_if.
    destruct (keep y) eqn:Ky.
    + rewrite elem_of_set_add. split.
      * intros [[H| ->]|[H K]]; auto.
      * intros [H|[[->|H] K]]; auto.
    + split.
      * intros [H|[H K]]; auto.
      * intros [H|[[->|H] K]]; auto. congruence.
Qed.

(** The link rule: a target is yielded exactly when it is the target of
    some link and starts with none of the three excluded prefixes. *)
Lemma link_refs_spec (content x : string) :
  x ∈ link_refs content <-> x ∈ link_targets content /\ keeps_link x = true.
Proof.
  unfold link_refs. rewrite elem_of_fold_add_if, elem_of_nil. tauto.
Qed.

Lemma link_refs_kept (content x : string) :
  x ∈ link_refs content -> x ∈ findReferencedFiles content.
Proof.
  intros H. unfold findReferencedFiles. apply elem_of_fold_add_if. by left.
Qed.

Lemma keeps_link_spec (x : string) :
  keeps_link x = true <->
  JsString.startsWith x "http" = false
  /\ JsString.startsWith x "#" = false
  /\ JsString.startsWith x "mailto:" = false.
Proof.
  unfold keeps_link. rewrite !andb_true_iff, !negb_true_iff. tauto.
Qed.

(** Sanitizing maps every character outside the class of word
    characters and hyphens to a hyphen, and keeps the others. *)
Lemma sanitize_loop (pos : nat) (s : string) :
  Regex.replace_loop unsafeNameRegex "-" pos s 0
  = match s with
    | EmptyString => EmptyString
    | String c s' =>
        String (if is_name_char c then c else "-"%char)
               (Regex.replace_loop unsafeNameRegex "-" (S pos) s' 0)
    end.
Proof.
  destruct s as [|c s]; [done|]. simpl.
  unfold Regex.match_here. simpl. destruct (is_name_char c); simpl; [done|].
  by replace (S pos - pos - 1) with 0 by lia.
Qed.

Lemma sanitize_loop_chars (pos : nat) (name : string) :
  JsString.all_chars is_name_char
    (Regex.replace_loop unsafeNameRegex "-" pos name 0) = true.
Proof.
  revert pos. induction name as [|c s IH]; intros pos; [done|].
  rewrite sanitize_loop. simpl. rewrite IH, andb_true_r.
  by destruct (is_name_char c) eqn:E.
Qed.

Lemma sanitize_chars (name : string) :
  JsString.all_chars is_name_char (sanitize name) = true.
Proof. apply sanitize_loop_chars. Qed.

Lemma sanitize_loop_length (pos : nat) (name : string) :
  String.length (Regex.replace_loop unsafeNameRegex "-" pos name 0)
  = String.length name.
Proof.
  revert pos. induction name as [|c s IH]; intros pos; [done|].
  rewrite sanitize_loop. simpl. by rewrite IH.
Qed.

Lemma sanitize_length (name : string) :
  String.length (sanitize name) = String.length name.
Proof. apply sanitize_loop_length. Qed.

Lemma last_split_trailing (u : string) :
  JsString.pop (JsString.split "/" (u +:+ "/")) = Some EmptyString.
Proof.
  unfold JsString.pop.
  change (u +:+ "/") with (u +:+ String "/" EmptyString).
  rewrite split_app_sep. simpl. by rewrite last_snoc.
Qed.

(** A URL that ends with a slash gets the default names. *)
Lemma trailing_slash_defaults (u : string) :
  Installer.skillName None (u +:+ "/") = "skill"
  /\ Installer.mainFilename (u +:+ "/") = "skill.md".
Proof.
  unfold Installer.skillName, Installer.mainFilename, getSkillName.
  by rewrite last_split_trailing.
Qed.

(** The name of the saved primary document is never empty. *)
Lemma mainFilename_nonempty (url : string) :
  JsString.truthy (Installer.mainFilename url) = true.
Proof. by apply truthy_or_default. Qed.

Lemma skillName_chars (name : option string) (url : string) :
  JsString.all_chars is_name_char (Installer.skillName name url) = true.
Proof. apply sanitize_chars. Qed.

End ScannerFacts.

(** C6. On the text of scenario A the reference scanner returns exactly
    the one reference guide.md: the two link targets are guide.md and the
    https URL, the link rule keeps the first and drops the second, and in
    every document a link target is yielded by the link rule exactly when
    it starts with none of http, the hash sign and mailto:, and what the
    link rule yields is part of the result. *)
Theorem scanner_scenario_A :
  Scanner.findReferencedFiles scenario_A = ["guide.md"]
  /\ Scanner.link_targets scenario_A = ["guide.md"; "https://x.com/a"]
  /\ Scanner.keeps_link "guide.md" = true
  /\ Scanner.keeps_link "https://x.com/a" = false
  /\ (forall content x,
        x ∈ Scanner.link_refs content <->
        x ∈ Scanner.link_targets content
        /\ JsString.startsWith x "http" = false
        /\ JsString.startsWith x "#" = false
        /\ JsString.startsWith x "mailto:" = false)
  /\ (forall content,
        Scanner.link_refs content ⊆ Scanner.findReferencedFiles content).
Proof.
  do 4 (split; [reflexivity|]). split.
  - intros content x. rewrite link_refs_spec, keeps_link_spec. tauto.
  - intros content x. apply link_refs_kept.
Qed.

(** C10. The URL https://x.com/.md is a valid install URL, its last
    segment is the non-empty file name .md, and removing the extension
    leaves nothing: the skill name derived from it is the empty string, so
    the directory of the skill is the sets root itself. *)
Theorem skill_name_of_dot_file :
  JsString.truthy dot_file_url = true
  /\ JsString.startsWith dot_file_url "https://" = true
  /\ Installer.mainFilename dot_file_url = ".md"
  /\ Scanner.getSkillName dot_file_url = EmptyString
  /\ Installer.skillName None dot_file_url = EmptyString
  /\ Path.join [Installer.skillsDir "/home/agent";
                Installer.skillName None dot_file_url]
     = Installer.skillsDir "/home/agent".
Proof. repeat split. Qed.

(** ** The monad *)

Section MonadFacts.
Context {A B : Type}.

Lemma bind_Ok_inv (m : M A) (f : A -> M B) (w w' : world) (b : B) :
  bind m f w = Ok b w' ->
  exists a w1, m w = Ok a w1 /\ f a w1 = Ok b w'.
Proof. unfold bind. destruct (m w) as [a w1|e w1]; [eauto|done]. Qed.

Lemma emits_ret (a : A) (P : event -> Prop) : emits (ret a) P.
Proof. intros w. exists []. by rewrite app_nil_r. Qed.

Lemma emits_throw (e : js_error) (P : event -> Prop) :
  emits (throw e : M A) P.
Proof. intros w. exists []. by rewrite app_nil_r. Qed.

Lemma emits_bind (m : M A) (f : A -> M B) (P : event -> Prop) :
  emits m P -> (forall a, emits (f a) P) -> emits (bind m f) P.
Proof.
  intros Hm Hf w. destruct (Hm w) as (evs & Ht & HP). unfold bind.
  destruct (m w) as [a w1|e w1]; simpl in *.
  - destruct (Hf a w1) as (evs' & Ht' & HP'). exists (evs ++ evs').
    rewrite Ht', Ht, app_assoc. split; [done|]. by apply Forall_app.
  - by exists evs.
Qed.

Lemma emits_try_catch (m : M A) (h : js_error -> M A) (P : event -> Prop) :
  emits m P -> (forall e, emits (h e) P) -> emits (try_catch m h) P.
Proof.
  intros Hm Hh w. destruct (Hm w) as (evs & Ht & HP). unfold try_catch.
  destruct (m w) as [a w1|e w1]; simpl in *.
  - by exists evs.
  - destruct (Hh e w1) as (evs' & Ht' & HP'). exists (evs ++ evs').
    rewrite Ht', Ht, app_assoc. split; [done|]. by apply Forall_app.
Qed.

Lemma emits_weaken (m : M A) (P Q : event -> Prop) :
  (forall e, P e -> Q e) -> emits m P -> emits m Q.
Proof.
  intros HPQ Hm w. destruct (Hm w) as (evs & Ht & HP). exists evs.
  split; [done|]. eapply Forall_impl; eauto.
Qed.

Lemma emits_when (b : bool) (m : M A) (d : A) (P : event -> Prop) :
  emits m P -> emits (when b m d) P.
Proof. destruct b; [done|]. intros _. apply emits_ret. Qed.

End MonadFacts.

Section EffectFacts.
Variable cwd : string.
Variable net : list event -> string -> transport.
Variable P : event -> Prop.

Lemma emits_log (e : event) : P e -> emits (log e) P.
Proof. intros He w. exists [e]. split; [done|]. by apply Forall_singleton. Qed.

Lemma emits_get_fs : emits get_fs P.
Proof. intros w. exists []. by rewrite app_nil_r. Qed.

Lemma emits_put_fs (fs : gmap (list string) node) : emits (put_fs fs) P.
Proof. intros w. exists []. by rewrite app_nil_r. Qed.

Lemma emits_existsSync (p : string) : emits (Fs.existsSync cwd p) P.
Proof.
  apply emits_bind; [apply emits_get_fs|]. intros fs. apply emits_ret.
Qed.

Lemma emits_mkdirSync (p : string) :
  P (EvMkdir p) -> emits (Fs.mkdirSync cwd p) P.
Proof.
  intros Hp. apply emits_bind; [by apply emits_log|]. intros _.
  apply emits_bind; [apply emits_get_fs|]. intros fs.
  destruct (Fs.mkdir_from fs [] (Fs.key cwd p));
    [apply emits_put_fs|apply emits_throw].
Qed.

Lemma emits_writeFileSync (p data : string) :
  P (EvWrite p data) -> emits (Fs.writeFileSync cwd p data) P.
Proof.
  intros Hp. apply emits_bind; [by apply emits_log|]. intros _.
  apply emits_bind; [apply emits_get_fs|]. intros fs.
  destruct (Path.ends_with_sep p); [apply emits_throw|]. cbv zeta.
  destruct (Fs.key cwd p) as [|seg k]; [apply emits_throw|].
  destruct (Fs.node_at fs (removelast (seg :: k))) as [[c|]|];
    try apply emits_throw.
  destruct (Fs.node_at fs (seg :: k)) as [[c|]|];
    (apply emits_throw || apply emits_put_fs).
Qed.

Lemma emits_rmSync (p : string) : P (EvRm p) -> emits (Fs.rmSync cwd p) P.
Proof.
  intros Hp. apply emits_bind; [by apply emits_log|]. intros _.
  apply emits_bind; [apply emits_get_fs|]. intros fs.
  destruct (Fs.lookup_path cwd fs p); [apply emits_put_fs|apply emits_ret].
Qed.

(** What [fetchText] returns for an answer of the transport. *)
Lemma fetchText_run (url : string) (w : world) :
  exists r,
    Installer.fetchText net url w
    = Ok r (World (w_fs w) (w_trace w ++ [EvFetch url]))
    /\ match net (w_trace w) url with
       | Responds o st (BodyText body) => r = FetchResult o body st
       | Responds _ _ (BodyFails e) | Rejects e =>
           r = FetchResult false
                 (JsString.or_default (message e) "Fetch failed") 0
       end.
Proof.
  unfold Installer.fetchText, try_catch, bind, Installer.fetch,
    Installer.response_text, log, ret, throw. simpl.
  destruct (net (w_trace w) url) as [o st [body|e]|e]; simpl; eauto.
Qed.

Lemma emits_fetchText (url : string) :
  P (EvFetch url) -> emits (Installer.fetchText net url) P.
Proof.
  intros Hp w. destruct (fetchText_run url w) as (r & -> & _).
  exists [EvFetch url]. split; [done|]. by apply Forall_singleton.
Qed.

End EffectFacts.

(** C7. The resource fetcher never throws: for every URL, network and
    world it returns a value, having made the one request.  When a
    response arrives and its body can be read, the value carries the body,
    the status and the ok flag of the response; when the request is
    rejected or the body cannot be read, the value has ok false, status 0
    and the message of the error, or Fetch failed when there is none. *)
Theorem fetchText_never_throws
    (net : list event -> string -> transport) (url : string) (w : world) :
  exists r,
    Installer.fetchText net url w
    = Ok r (World (w_fs w) (w_trace w ++ [EvFetch url]))
    /\ match net (w_trace w) url with
       | Responds o st (BodyText body) =>
           ok r = o /\ status r = st /\ text r = body
       | Responds _ _ (BodyFails e) | Rejects e =>
           ok r = false /\ status r = 0%N
           /\ text r = JsString.or_default (message e) "Fetch failed"
       end.
Proof.
  destruct (fetchText_run net url w) as (r & Hrun & Hr). exists r.
  split; [done|].
  destruct (net (w_trace w) url) as [o st [body|e]|e]; by subst r.
Qed.

(** ** The reference loop *)

Section LoopFacts.
Variable cwd : string.
Variable net : list event -> string -> transport.
Variables baseUrl skillDir : string.

Local Abbreviation loop := (Installer.install_refs cwd net baseUrl skillDir).
Local Abbreviation safe := (Installer.isSafePath cwd skillDir).

Lemma loop_blocked (ref : string) (rest fetched failed : list string) :
  safe ref = false ->
  loop (ref :: rest) fetched failed
  = loop rest fetched (failed ++ [ref +:+ " (blocked: path traversal)"]).
Proof. intros H. simpl. by rewrite H. Qed.

(** Every call the loop makes belongs to a reference that passed the
    guard. *)
Lemma loop_emits (refs fetched failed : list string) :
  emits (loop refs fetched failed)
    (fun e => exists ref,
       ref ∈ refs /\ safe ref = true /\ from_reference baseUrl skillDir ref e).
Proof.
  revert fetched failed. induction refs as [|ref rest IH]; intros fetched failed.
  - apply emits_ret.
  - assert (forall f fl, emits (loop rest f fl)
      (fun e => exists r, r ∈ ref :: rest /\ safe r = true
                          /\ from_reference baseUrl skillDir r e)) as IH'.
    { intros f fl. eapply emits_weaken; [|apply IH].
      intros e (r & Hr & Hs & He). exists r. split; [by right|done]. }
    simpl. destruct (safe ref) eqn:Hsafe; simpl; [|apply IH'].
    assert (forall e, from_reference baseUrl skillDir ref e ->
              exists r, r ∈ ref :: rest /\ safe r = true
                        /\ from_reference baseUrl skillDir r e) as Here.
    { intros e He. exists ref. split; [by left|done]. }
    apply emits_bind.
    { apply emits_fetchText, Here. by left. }
    intros refResult. destruct (ok refResult); [|apply IH'].
    apply emits_bind; [apply emits_existsSync|]. intros present.
    apply emits_bind.
    { apply emits_when, emits_mkdirSync, Here. right. by left. }
    intros _. apply emits_bind; [|intros _; apply IH'].
    apply emits_writeFileSync, Here. right. right. by eexists.
Qed.

(** The list of fetched files only grows, and only by references that
    passed the guard. *)
Lemma loop_fetched (refs fetched failed : list string) (w w' : world)
    (lists : list string * list string) :
  loop refs fetched failed w = Ok lists w' ->
  exists extra,
    lists.1 = fetched ++ extra
    /\ Forall (fun x => x ∈ refs /\ safe x = true) extra.
Proof.
  revert fetched failed w.
  induction refs as [|ref rest IH]; intros fetched failed w Hrun.
  - inversion Hrun; subst. exists []. by rewrite app_nil_r.
  - assert (forall f fl w0,
              loop rest f fl w0 = Ok lists w' ->
              exists extra, lists.1 = f ++ extra
                /\ Forall (fun x => x ∈ ref :: rest /\ safe x = true) extra)
      as IH'.
    { intros f fl w0 H0. destruct (IH _ _ _ H0) as (extra & E & F).
      exists extra. split; [done|]. eapply Forall_impl; [apply F|].
      intros x [Hx Hs]. split; [by right|done]. }
    simpl in Hrun. destruct (safe ref) eqn:Hsafe; simpl in Hrun; [|eauto].
    apply bind_Ok_inv in Hrun as (refResult & w1 & _ & Hrun).
    destruct (ok refResult); [|eauto].
    apply bind_Ok_inv in Hrun as (present & w2 & _ & Hrun).
    apply bind_Ok_inv in Hrun as (? & w3 & _ & Hrun).
    apply bind_Ok_inv in Hrun as (? & w4 & _ & Hrun).
    destruct (IH' _ _ _ Hrun) as (extra & E & F).
    exists (ref :: extra). rewrite E, <- app_assoc. split; [done|].
    constructor; [|done]. split; [by left|done].
Qed.

End LoopFacts.

(** C5. Whenever an install succeeds, the name under which the primary
    document was saved is the first entry of the fetched list of its
    report, whatever happens to the references. *)
Theorem primary_file_first
    (cwd : string) (net : list event -> string -> transport)
    (params : install_params) (w w' : world) (r : tool_result) :
  Installer.install_skill cwd net params w = Ok r w' ->
  success (result_details r) = true ->
  exists rest,
    fetched_of (result_details r)
    = Installer.mainFilename
        (JsString.or_default (JsString.trim <$> p_url params) EmptyString)
      :: rest.
Proof.
  intros Hrun Hs. unfold Installer.install_skill in Hrun. cbv zeta in Hrun.
  set (url := JsString.or_default (JsString.trim <$> p_url params) EmptyString)
    in *.
  destruct (negb (JsString.truthy url)).
  { inversion Hrun; subst. done. }
  destruct (negb (JsString.startsWith url "http://")
            && negb (JsString.startsWith url "https://")).
  { inversion Hrun; subst. done. }
  apply bind_Ok_inv in Hrun as (? & w1 & _ & Hrun).
  apply bind_Ok_inv in Hrun as (mainResult & w2 & _ & Hrun).
  destruct (negb (ok mainResult)).
  { inversion Hrun; subst. done. }
  apply bind_Ok_inv in Hrun as (present & w3 & _ & Hrun).
  apply bind_Ok_inv in Hrun as (? & w4 & _ & Hrun).
  apply bind_Ok_inv in Hrun as (? & w5 & _ & Hrun).
  apply bind_Ok_inv in Hrun as (lists & w6 & Hloop & Hrun).
  inversion Hrun; subst. simpl.
  destruct (loop_fetched _ _ _ _ _ _ _ _ _ _ Hloop) as (extra & -> & _).
  by exists extra.
Qed.

Lemma primary_file_first_witness :
  exists rest,
    fetched_of
      (result_details
         (ToolResult
            (Installer.install_summary "my-skill"
               ["my-skill.md"; "config.json"] [])
            (Installed "my-skill" ["my-skill.md"; "config.json"] [])))
    = Installer.mainFilename
        (JsString.or_default
           (JsString.trim <$> p_url (InstallParams (Some skill_url) None))
           EmptyString)
      :: rest.
Proof.
  eapply (primary_file_first agent_cwd net_B
            (InstallParams (Some skill_url) None) agent_world).
  - vm_compute. reflexivity.
  - reflexivity.
Defined.

(** ** Creating the sets root *)

Section MkdirFacts.

(** Creating directories recursively succeeds when no regular file stands
    on the way, and then only adds directories along that way. *)
Lemma mkdir_from_ok (todo above : list string) (fs : gmap (list string) node) :
  (forall k c, k `prefix_of` above ++ todo -> fs !! k ≠ Some (File c)) ->
  exists fs',
    Fs.mkdir_from fs above todo = Some fs'
    /\ forall k,
         fs' !! k = fs !! k
         \/ (fs !! k = None /\ fs' !! k = Some Dir
             /\ k `prefix_of` above ++ todo).
Proof.
  revert above fs. induction todo as [|seg rest IH]; intros above fs Hfree.
  - exists fs. split; [done|]. by left.
  - simpl. assert (above ++ seg :: rest = (above ++ [seg]) ++ rest) as Eq
      by (by rewrite <- app_assoc).
    assert ((above ++ [seg]) `prefix_of` above ++ seg :: rest) as Hpre
      by (rewrite Eq; apply prefix_app_r; done).
    destruct (fs !! (above ++ [seg])) as [[c|]|] eqn:Hk.
    + by destruct (Hfree _ c Hpre).
    + destruct (IH (above ++ [seg]) fs) as (fs' & Hrun & Hfs').
      { intros k c Hkpre. apply Hfree. by rewrite Eq. }
      exists fs'. split; [done|]. intros k. rewrite Eq. apply Hfs'.
    + destruct (IH (above ++ [seg]) (<[above ++ [seg] := Dir]> fs))
        as (fs' & Hrun & Hfs').
      { intros k c Hkpre. rewrite lookup_insert. case_decide; [done|].
        apply Hfree. by rewrite Eq. }
      exists fs'. split; [done|]. intros k. rewrite Eq.
      destruct (Hfs' k) as [Hsame|(Hnone & Hdir & Hkpre)].
      * rewrite lookup_insert in Hsame. case_decide; [|by left].
        subst k. right. repeat split; try done. by apply prefix_app_r.
      * right. rewrite lookup_insert in Hnone. by case_decide.
Qed.

Lemma or_else_empty (s : string) : JsString.or_else s EmptyString = s.
Proof. by destruct s. Qed.

Lemma trimmed_param (s : string) :
  JsString.or_default (JsString.trim <$> Some s) EmptyString = JsString.trim s.
Proof. apply or_else_empty. Qed.

(** ensureSkillsDir returns when no regular file stands on the way to the
    sets root, and creates at most the sets root and its ancestors. *)
Lemma ensureSkillsDir_run (cwd : string) (w : world) :
  (forall k c, k `prefix_of` Fs.key cwd (Installer.skillsDir cwd) ->
               w_fs w !! k ≠ Some (File c)) ->
  exists w1,
    Installer.ensureSkillsDir cwd w = Ok tt w1
    /\ (w_trace w1 = w_trace w
        \/ w_trace w1 = w_trace w ++ [EvMkdir (Installer.skillsDir cwd)])
    /\ forall k,
         w_fs w1 !! k = w_fs w !! k
         \/ (w_fs w !! k = None /\ w_fs w1 !! k = Some Dir
             /\ k `prefix_of` Fs.key cwd (Installer.skillsDir cwd)).
Proof.
  intros Hfree. unfold Installer.ensureSkillsDir, bind, Fs.existsSync, get_fs,
    ret, when. simpl.
  destruct (Fs.lookup_path cwd (w_fs w) (Installer.skillsDir cwd)); simpl.
  - exists w. split; [done|]. split; [by left|]. by left.
  - destruct (mkdir_from_ok (Fs.key cwd (Installer.skillsDir cwd)) [] (w_fs w))
      as (fs' & Hrun & Hfs'); [done|].
    unfold Fs.mkdirSync, bind, log, get_fs, put_fs. simpl. rewrite Hrun.
    eexists. split; [done|]. simpl. split; [by right|done].
Qed.

End MkdirFacts.


(** ** Removing a skill *)

Section RemoveFacts.

Lemma lookup_remove_under (K k : list string) (fs : gmap (list string) node) :
  filter (fun kv => ¬ Fs.under K kv.1) fs !! k
  = if decide (Fs.under K k) then None else fs !! k.
Proof.
  rewrite map_lookup_filter. destruct (fs !! k) as [n|]; simpl.
  - case_guard; case_decide; simpl in *; done.
  - by case_decide.
Qed.

Lemma uninstall_run (cwd name : string) (w : world) :
  JsString.truthy (JsString.trim name) = true ->
  Installer.uninstall_skill cwd (Some name) w
  = let n := JsString.trim name in
    let skillDir := Path.join [Installer.skillsDir cwd; n] in
    match Fs.lookup_path cwd (w_fs w) skillDir with
    | None =>
        Ok (ToolResult
              ("Skill " +:+ quote +:+ n +:+ quote +:+ " not found in skills/")
              Failure) w
    | Some _ =>
        Ok (ToolResult ("Removed skill " +:+ quote +:+ n +:+ quote) (Removed n))
           (World (filter (fun kv => ¬ Fs.under (Fs.key cwd skillDir) kv.1)
                     (w_fs w))
                  (w_trace w ++ [EvRm skillDir]))
    end.
Proof.
  intros Hn. unfold Installer.uninstall_skill. cbv zeta.
  rewrite trimmed_param, Hn. change (negb true) with false. cbv iota.
  unfold bind, Fs.existsSync, Fs.rmSync, bind, get_fs, put_fs, log, ret.
  simpl.
  destruct (Fs.lookup_path cwd (w_fs w)
              (Path.join [Installer.skillsDir cwd; JsString.trim name]))
    eqn:E; simpl; [by rewrite E|by destruct w].
Qed.

End RemoveFacts.

(** C8, as the code has it.  For every name that is not blank: when
    nothing, neither a file nor a directory, exists at the path obtained
    by joining the sets root and the trimmed name, uninstall_skill returns
    the not-found failure and leaves the world as it was; when something
    exists there, it makes one recursive removal of that path, after
    which that node and every node below it are gone and all other nodes
    are as before, and returns success. *)
Theorem uninstall_by_existence (cwd name : string) (w : world) :
  JsString.truthy (JsString.trim name) = true ->
  let n := JsString.trim name in
  let skillDir := Path.join [Installer.skillsDir cwd; n] in
  match Fs.lookup_path cwd (w_fs w) skillDir with
  | None =>
      Installer.uninstall_skill cwd (Some name) w
      = Ok (ToolResult
              ("Skill " +:+ quote +:+ n +:+ quote +:+ " not found in skills/")
              Failure) w
  | Some _ =>
      exists w',
        Installer.uninstall_skill cwd (Some name) w
        = Ok (ToolResult ("Removed skill " +:+ quote +:+ n +:+ quote)
                (Removed n)) w'
        /\ w_trace w' = w_trace w ++ [EvRm skillDir]
        /\ forall k,
             w_fs w' !! k
             = if decide (Fs.under (Fs.key cwd skillDir) k) then None
               else w_fs w !! k
  end.
Proof.
  intros Hn n skillDir. rewrite (uninstall_run cwd name w Hn). cbv zeta.
  fold n. fold skillDir.
  destruct (Fs.lookup_path cwd (w_fs w) skillDir); [|done].
  eexists. split; [done|]. split; [done|]. intros k.
  apply lookup_remove_under.
Qed.

Lemma uninstall_by_existence_witness :
  let n := JsString.trim " foo " in
  let skillDir := Path.join [Installer.skillsDir agent_cwd; n] in
  match Fs.lookup_path agent_cwd (w_fs skill_world) skillDir with
  | None =>
      Installer.uninstall_skill agent_cwd (Some " foo ") skill_world
      = Ok (ToolResult
              ("Skill " +:+ quote +:+ n +:+ quote +:+ " not found in skills/")
              Failure) skill_world
  | Some _ =>
      exists w',
        Installer.uninstall_skill agent_cwd (Some " foo ") skill_world
        = Ok (ToolResult ("Removed skill " +:+ quote +:+ n +:+ quote)
                (Removed n)) w'
        /\ w_trace w' = w_trace skill_world ++ [EvRm skillDir]
        /\ forall k,
             w_fs w' !! k
             = if decide (Fs.under (Fs.key agent_cwd skillDir) k) then None
               else w_fs skill_world !! k
  end.
Proof.
  apply (uninstall_by_existence agent_cwd " foo " skill_world).
  reflexivity.
Defined.

(** C8, as stated, fails: the sets root holds a regular file named foo
    and no directory of that name, yet uninstalling foo does not report
    not found: it removes the file and returns success. *)
Lemma uninstall_removes_plain_file :
  exists w',
    Installer.uninstall_skill agent_cwd (Some "foo") file_world
    = Ok (ToolResult ("Removed skill " +:+ quote +:+ "foo" +:+ quote)
            (Removed "foo")) w'
    /\ success (Removed "foo") = true
    /\ w_fs file_world !! ["home"; "agent"; "skills"; "foo"]
       = Some (File "notes")
    /\ w_fs w' !! ["home"; "agent"; "skills"; "foo"] = None
    /\ w_trace w' = [EvRm "/home/agent/skills/foo"].
Proof.
  eexists. split; [vm_compute; reflexivity|]. by vm_compute.
Qed.

(** C9. The directory that uninstall_skill removes is the join of the
    sets root and the trimmed name, with no check that it stays inside the
    sets root: the only call of the tool is the removal of that path.  So
    for the name ../data the tool removes /home/agent/data, a directory
    outside the sets root /home/agent/skills, with all it holds, and
    reports success. *)
Theorem uninstall_escapes_sets_root :
  (forall cwd name,
      emits (Installer.uninstall_skill cwd (Some name))
        (fun e =>
           e = EvRm (Path.join [Installer.skillsDir cwd; JsString.trim name])))
  /\ exists name w',
      JsString.truthy (JsString.trim name) = true
      /\ Path.join [Installer.skillsDir agent_cwd; JsString.trim name]
         = "/home/agent/data"
      /\ Installer.isSafePath agent_cwd (Installer.skillsDir agent_cwd) name
         = false
      /\ ¬ Fs.under (Fs.key agent_cwd (Installer.skillsDir agent_cwd))
             (Fs.key agent_cwd "/home/agent/data")
      /\ Installer.uninstall_skill agent_cwd (Some name) data_world
         = Ok (ToolResult ("Removed skill " +:+ quote +:+ name +:+ quote)
                 (Removed name)) w'
      /\ w_fs data_world !! ["home"; "agent"; "data"] = Some Dir
      /\ w_fs data_world !! ["home"; "agent"; "data"; "notes.txt"]
         = Some (File "notes")
      /\ w_fs w' !! ["home"; "agent"; "data"] = None
      /\ w_fs w' !! ["home"; "agent"; "data"; "notes.txt"] = None.
Proof.
  split.
  - intros cwd name. unfold Installer.uninstall_skill. cbv zeta.
    destruct (negb _); [apply emits_ret|].
    apply emits_bind; [apply emits_existsSync|]. intros present.
    destruct (negb present); [apply emits_ret|].
    apply emits_bind; [|intros _; apply emits_ret].
    apply emits_rmSync. rewrite trimmed_param. reflexivity.
  - exists "../data". eexists.
    do 3 (split; [reflexivity|]). split.
    { intros [x Hx]. vm_compute in Hx. discriminate Hx. }
    split; [vm_compute; reflexivity|]. by vm_compute.
Qed.

(** ** Paths *)

Section PathFacts.

Local Abbreviation sepfree := (JsString.all_chars (Chars.except "/")).
Local Abbreviation normal := (fun seg => Path.is_normal_segment seg = true).

Lemma split_sepfree_segments (s : string) :
  Forall (fun seg => sepfree seg = true) (JsString.split "/" s).
Proof.
  induction s as [|c s IH]; simpl.
  - by repeat constructor.
  - destruct (Ascii.eqb c "/") eqn:Ec; [by constructor|].
    destruct (JsString.split "/" s) as [|seg segs].
    + repeat constructor. simpl. unfold Chars.except. by rewrite Ec.
    + inversion IH; subst. constructor; [|done].
      simpl. unfold Chars.except at 1. by rewrite Ec.
Qed.

Lemma split_sepfree (s : string) :
  sepfree s = true -> JsString.split "/" s = [s].
Proof.
  induction s as [|c s IH]; [done|]. simpl. intros H.
  apply andb_true_iff in H as [Hc Hs]. unfold Chars.except in Hc.
  apply negb_true_iff in Hc. by rewrite Hc, (IH Hs).
Qed.

Lemma split_join (segs : list string) :
  Forall (fun seg => sepfree seg = true) segs ->
  JsString.split "/" (JsString.join "/" segs)
  = match segs with [] => [EmptyString] | _ => segs end.
Proof.
  induction segs as [|p ps IH]; intros Hfree; [done|].
  inversion Hfree as [|? ? Hp Hps]; subst. destruct ps as [|q ps].
  - simpl. by apply split_sepfree.
  - change (JsString.join "/" (p :: q :: ps))
      with (p +:+ String "/" (JsString.join "/" (q :: ps))).
    by rewrite split_app_sep, (IH Hps), (split_sepfree p Hp).
Qed.

Lemma join_app (A B : list string) :
  A ≠ [] -> B ≠ [] ->
  JsString.join "/" (A ++ B)
  = JsString.join "/" A +:+ "/" +:+ JsString.join "/" B.
Proof.
  intros HA HB. induction A as [|a A IH]; [done|].
  destruct A as [|a' A].
  - destruct B as [|b B]; [done|]. reflexivity.
  - change (JsString.join "/" ((a :: a' :: A) ++ B))
      with (a +:+ "/" +:+ JsString.join "/" ((a' :: A) ++ B)).
    rewrite IH by done.
    change (JsString.join "/" (a :: a' :: A))
      with (a +:+ "/" +:+ JsString.join "/" (a' :: A)).
    by rewrite !app_assoc_str.
Qed.

Lemma normal_sepfree (seg : string) : normal seg -> sepfree seg = true.
Proof.
  unfold Path.is_normal_segment. intros H.
  by apply andb_true_iff in H as [_ H].
Qed.

Lemma norm_step_push (allow : bool) (kept : list string) (seg : string) :
  normal seg -> Path.norm_step allow kept seg = seg :: kept.
Proof.
  unfold Path.is_normal_segment, Path.norm_step. intros H.
  apply andb_true_iff in H as [H _].
  apply andb_true_iff in H as [H H3]. apply andb_true_iff in H as [H1 H2].
  apply negb_true_iff in H1, H2, H3. by rewrite H1, H2, H3.
Qed.

Lemma fold_norm_push (allow : bool) (segs kept : list string) :
  Forall normal segs ->
  fold_left (Path.norm_step allow) segs kept = rev segs ++ kept.
Proof.
  revert kept. induction segs as [|seg segs IH]; intros kept H; [done|].
  inversion H; subst. simpl. rewrite norm_step_push by done.
  rewrite IH by done. by rewrite <- app_assoc.
Qed.

Lemma norm_step_normal (kept : list string) (seg : string) :
  Forall normal kept -> sepfree seg = true ->
  Forall normal (Path.norm_step false kept seg).
Proof.
  intros Hk Hs. unfold Path.norm_step.
  destruct (String.eqb seg EmptyString) eqn:E1; [done|].
  destruct (String.eqb seg ".") eqn:E2; [done|].
  destruct (String.eqb seg "..") eqn:E3.
  - destruct kept as [|top below]; [done|].
    destruct (String.eqb top ".."); [done|]. by inversion Hk.
  - constructor; [|done]. unfold Path.is_normal_segment.
    by rewrite E1, E2, E3, Hs.
Qed.

Lemma fold_norm_normal (segs kept : list string) :
  Forall normal kept -> Forall (fun seg => sepfree seg = true) segs ->
  Forall normal (fold_left (Path.norm_step false) segs kept).
Proof.
  revert kept. induction segs as [|seg segs IH]; intros kept Hk Hs; [done|].
  inversion Hs; subst. simpl. apply IH; [|done]. by apply norm_step_normal.
Qed.

Lemma normalize_segments_normal (p : string) :
  Forall normal (Path.normalize_segments false p).
Proof.
  unfold Path.normalize_segments. apply Forall_rev, fold_norm_normal; [done|].
  apply split_sepfree_segments.
Qed.

Lemma resolved_segments_normal (root : list string) (cand : string) :
  Forall normal root -> Forall normal (Path.resolved_segments root cand).
Proof.
  intros Hroot. unfold Path.resolved_segments.
  apply Forall_rev, fold_norm_normal; [|apply split_sepfree_segments].
  destruct (JsString.startsWith cand "/"); [done|]. by apply Forall_rev.
Qed.

(** Against an absolute first argument the working directory is never
    consulted. *)
Lemma resolve_loop_absolute (cwd root cand : string) :
  JsString.startsWith root "/" = true ->
  Path.resolve_loop cwd [cand; root] EmptyString
  = (if JsString.truthy cand
     then if JsString.startsWith cand "/" then cand +:+ String "/" EmptyString
          else root +:+ String "/" (cand +:+ String "/" EmptyString)
     else root +:+ String "/" EmptyString, true).
Proof.
  intros Hroot. simpl.
  assert (JsString.truthy root = true) as Ht by (by destruct root).
  rewrite Ht, Hroot. destruct (JsString.truthy cand); [|done].
  by destruct (JsString.startsWith cand "/").
Qed.

Lemma fold_norm_empty_last (allow : bool) (segs kept : list string) :
  fold_left (Path.norm_step allow) (segs ++ [EmptyString]) kept
  = fold_left (Path.norm_step allow) segs kept.
Proof. by rewrite fold_left_app. Qed.

Lemma fold_norm_root (S : list string) :
  Forall normal S ->
  fold_left (Path.norm_step false)
    (JsString.split "/" (Path.absolute_of S)) []
  = rev S.
Proof.
  intros HS. unfold Path.absolute_of, Path.sep.
  change ("/" +:+ JsString.join "/" S)
    with (EmptyString +:+ String "/" (JsString.join "/" S)).
  rewrite split_app_sep, split_join.
  2:{ eapply Forall_impl; [apply HS|]. apply normal_sepfree. }
  destruct S as [|seg S]; [reflexivity|].
  change (fold_left (Path.norm_step false)
            (JsString.split "/" EmptyString ++ seg :: S) [])
    with (fold_left (Path.norm_step false) (seg :: S) []).
  rewrite fold_norm_push by done. by rewrite app_nil_r.
Qed.

Lemma absolute_of_absolute (S : list string) :
  JsString.startsWith (Path.absolute_of S) "/" = true.
Proof.
  unfold Path.absolute_of.
  change ("/" +:+ JsString.join Path.sep S)
    with (String "/" (JsString.join Path.sep S)).
  simpl. by destruct (JsString.join Path.sep S).
Qed.

(** Resolving against a normalized absolute directory, segment by
    segment. *)
Lemma resolve_segments (cwd : string) (S : list string) (cand : string) :
  Forall normal S ->
  Path.resolve cwd [Path.absolute_of S; cand]
  = Path.absolute_of (Path.resolved_segments S cand).
Proof.
  intros HS. unfold Path.resolve. simpl rev.
  rewrite resolve_loop_absolute by apply absolute_of_absolute.
  simpl negb. cbv iota.
  unfold Path.absolute_of at 3, Path.normalizeString. f_equal. f_equal.
  unfold Path.normalize_segments, Path.resolved_segments. f_equal.
  destruct (JsString.truthy cand) eqn:Hc.
  - destruct (JsString.startsWith cand "/") eqn:Ha.
    + rewrite split_app_sep. apply fold_norm_empty_last.
    + rewrite !split_app_sep, app_assoc, fold_norm_empty_last.
      by rewrite fold_left_app, fold_norm_root.
  - destruct cand; [|done]. simpl JsString.startsWith. cbv iota.
    rewrite split_app_sep, fold_norm_empty_last. by rewrite fold_norm_root.
Qed.

Lemma absolute_of_inj (S R : list string) :
  Forall normal S -> Forall normal R ->
  Path.absolute_of R = Path.absolute_of S -> R = S.
Proof.
  intros HS HR H. unfold Path.absolute_of in H.
  assert (JsString.join "/" R = JsString.join "/" S) as Hj
    by (by inversion H).
  apply (f_equal (JsString.split "/")) in Hj.
  rewrite !split_join in Hj
    by (eapply Forall_impl; [eassumption|apply normal_sepfree]).
  destruct R as [|r R], S as [|s S]; try done.
  - inversion Hj; subst. by inversion HS.
  - inversion Hj; subst. by inversion HR.
Qed.

Lemma absolute_of_below (S R : list string) :
  S ≠ [] -> Forall normal S -> Forall normal R ->
  JsString.startsWith (Path.absolute_of R) (Path.absolute_of S +:+ Path.sep)
  = true
  <-> exists x rest, R = S ++ x :: rest.
Proof.
  intros Hne HS HR. rewrite startsWith_iff. unfold Path.absolute_of, Path.sep.
  split.
  - intros [rest H]. rewrite !app_assoc_str in H.
    assert (JsString.join "/" R
            = JsString.join "/" S +:+ String "/" rest) as Hj
      by (by inversion H).
    apply (f_equal (JsString.split "/")) in Hj.
    rewrite split_app_sep, !split_join in Hj
      by (eapply Forall_impl; [eassumption|apply normal_sepfree]).
    destruct (split_nonempty "/" rest) as (x & more & Hx). rewrite Hx in Hj.
    destruct S as [|s S]; [done|]. destruct R as [|r R].
    + apply (f_equal length) in Hj. rewrite length_app in Hj. simpl in Hj. lia.
    + by exists x, more.
  - intros (x & rest & ->). exists (JsString.join "/" (x :: rest)).
    rewrite join_app by done. by rewrite !app_assoc_str.
Qed.

(** The guard, read on segments: for a normalized absolute directory
    other than the top, a candidate is accepted exactly when the
    directory's segments begin the resolved segments. *)
Lemma isSafePath_segments (cwd : string) (S : list string) (cand : string) :
  S ≠ [] -> Forall normal S ->
  Installer.isSafePath cwd (Path.absolute_of S) cand = true
  <-> S `prefix_of` Path.resolved_segments S cand.
Proof.
  intros Hne HS. unfold Installer.isSafePath. cbv zeta.
  rewrite resolve_segments by done.
  pose proof (resolved_segments_normal S cand HS) as HR.
  rewrite orb_true_iff, absolute_of_below, String.eqb_eq by done. split.
  - intros [(x & rest & ->)|H].
    + by apply prefix_app_r.
    + by rewrite (absolute_of_inj _ _ HS HR H).
  - intros [[|x rest] ->].
    + right. by rewrite app_nil_r.
    + left. by exists x, rest.
Qed.

End PathFacts.

(** C2, as the code has it.  Take a normalized absolute root other than
    the top directory and a candidate that has a double-dot segment or is
    an absolute path.  The guard rejects it exactly when the segments
    left after resolving it do not begin with the segments of the root,
    that is, when it resolves outside the root; when it resolves to the
    root or below it, it is accepted. *)
Theorem guard_rejects_escapes (cwd : string) (S : list string) (cand : string) :
  S ≠ [] ->
  forallb Path.is_normal_segment S = true ->
  ".." ∈ JsString.split "/" cand \/ JsString.startsWith cand "/" = true ->
  Installer.isSafePath cwd (Path.absolute_of S) cand = false
  <-> ¬ S `prefix_of` Path.resolved_segments S cand.
Proof.
  intros Hne HS _.
  assert (Forall (fun seg => Path.is_normal_segment seg = true) S) as HS'.
  { apply Forall_forall. intros seg Hseg.
    rewrite forallb_forall in HS. apply HS. by apply list_elem_of_In. }
  rewrite <- (isSafePath_segments cwd S cand Hne HS').
  by destruct (Installer.isSafePath cwd (Path.absolute_of S) cand).
Qed.

Lemma guard_rejects_escapes_witness :
  Installer.isSafePath agent_cwd
    (Path.absolute_of ["home"; "agent"; "skills"; "s"]) "../secret" = false
  <-> ¬ ["home"; "agent"; "skills"; "s"]
        `prefix_of` Path.resolved_segments
                      ["home"; "agent"; "skills"; "s"] "../secret".
Proof.
  apply (guard_rejects_escapes agent_cwd
           ["home"; "agent"; "skills"; "s"] "../secret").
  - discriminate.
  - reflexivity.
  - left. vm_compute. apply list_elem_of_here.
Defined.

(** C2, as stated, fails: a candidate with a double-dot segment that
    stays inside the root is accepted, and so is an absolute path that
    lies inside the root. *)
Lemma guard_accepts_inner_dotdot :
  ".." ∈ JsString.split "/" "a/../b"
  /\ Installer.isSafePath agent_cwd "/home/agent/skills/s" "a/../b" = true
  /\ JsString.startsWith "/home/agent/skills/s/x" "/" = true
  /\ Installer.isSafePath agent_cwd "/home/agent/skills/s"
       "/home/agent/skills/s/x" = true.
Proof.
  split; [|by vm_compute].
  vm_compute. apply list_elem_of_further, list_elem_of_here.
Qed.

(** ** The base URL *)

Section BaseUrlFacts.

Local Open Scope Z_scope.

Lemma startsWith_empty (s : string) : JsString.startsWith s EmptyString = true.
Proof. by destruct s. Qed.

Lemma indexOf_from_ge (i : Z) (s p : string) :
  -1 <= i -> -1 <= JsString.indexOf_from i s p.
Proof.
  revert i. induction s as [|c s IH]; intros i Hi;
    cbn [JsString.indexOf_from].
  - destruct (JsString.startsWith EmptyString p); lia.
  - destruct (JsString.startsWith (String c s) p); [lia|]. apply IH. lia.
Qed.

Lemma lastIndexOf_from_bounds (i : Z) (s : string) :
  0 <= i ->
  JsString.lastIndexOf_from i s "/" = -1
  \/ i <= JsString.lastIndexOf_from i s "/" < i + Z.of_nat (String.length s).
Proof.
  revert i. induction s as [|c s IH]; intros i Hi; [by left|].
  cbn [JsString.lastIndexOf_from]. cbv zeta.
  destruct (IH (i + 1) ltac:(lia)) as [-> | Hin].
  - change (0 <=? -1) with false. cbv iota.
    destruct (JsString.startsWith (String c s) "/"); [right|by left].
    cbn [String.length]. lia.
  - destruct (0 <=? JsString.lastIndexOf_from (i + 1) s "/") eqn:E.
    + right. cbn [String.length]. lia.
    + apply Z.leb_gt in E. lia.
Qed.

Lemma lastIndexOf_from_ge (i : Z) (a b : string) :
  0 <= i ->
  i + Z.of_nat (String.length a)
  <= JsString.lastIndexOf_from i (a +:+ String "/" b) "/".
Proof.
  revert i. induction a as [|c a IH]; intros i Hi.
  - change (EmptyString +:+ String "/" b) with (String "/" b).
    cbn [JsString.lastIndexOf_from String.length]. cbv zeta.
    destruct (lastIndexOf_from_bounds (i + 1) b ltac:(lia)) as [-> | Hin].
    + change (0 <=? -1) with false. cbv iota. simpl JsString.startsWith.
      rewrite startsWith_empty. simpl. lia.
    + destruct (0 <=? JsString.lastIndexOf_from (i + 1) b "/") eqn:E.
      * lia.
      * apply Z.leb_gt in E. lia.
  - rewrite app_cons. cbn [JsString.lastIndexOf_from String.length]. cbv zeta.
    specialize (IH (i + 1) ltac:(lia)).
    destruct (0 <=? JsString.lastIndexOf_from (i + 1) (a +:+ String "/" b) "/")
      eqn:E.
    + lia.
    + apply Z.leb_gt in E. lia.
Qed.

(** No URL is its own base URL followed by a further path of two
    segments: the base URL stops at the last slash of the URL. *)
Lemma getBaseUrl_not_parent (url seg : string) :
  url ≠ Scanner.getBaseUrl url +:+ "/" +:+ "../" +:+ seg.
Proof.
  unfold Scanner.getBaseUrl. cbv zeta. unfold JsString.lastIndexOf.
  pose proof (indexOf_from_ge 0 url "://" ltac:(lia)) as Hidx.
  fold (JsString.indexOf url "://") in Hidx.
  destruct (JsString.indexOf url "://" + 2 <? JsString.lastIndexOf_from 0 url "/")
    eqn:E; intros H.
  - apply Z.ltb_lt in E.
    destruct (lastIndexOf_from_bounds 0 url ltac:(lia)) as [Hm|Hb]; [lia|].
    set (n := Z.to_nat (JsString.lastIndexOf_from 0 url "/")) in *.
    assert (String.length (JsString.take n url) = n) as Hlen.
    { rewrite length_take. subst n. lia. }
    assert (url = (JsString.take n url +:+ "/..") +:+ String "/" seg) as H'.
    { rewrite app_assoc_str. exact H. }
    pose proof (lastIndexOf_from_ge 0 (JsString.take n url +:+ "/..") seg
                  ltac:(lia)) as Hge.
    rewrite <- H' in Hge. rewrite length_app_str, Hlen in Hge.
    simpl String.length in Hge. subst n. lia.
  - apply (f_equal String.length) in H. rewrite !length_app_str in H.
    simpl in H. lia.
Qed.

End BaseUrlFacts.

(** ** Scenario B *)

Section ScenarioB.

Lemma emits_bind_with {A B : Type} (Q : A -> Prop) (m : M A) (f : A -> M B)
    (P : event -> Prop) :
  emits m P ->
  (forall w a w', m w = Ok a w' -> Q a) ->
  (forall a, Q a -> emits (f a) P) ->
  emits (bind m f) P.
Proof.
  intros Hm HQ Hf w. destruct (Hm w) as (evs & Ht & HP). unfold bind.
  destruct (m w) as [a w1|e w1] eqn:E; simpl in *.
  - destruct (Hf a (HQ _ _ _ E) w1) as (evs' & Ht' & HP').
    exists (evs ++ evs'). rewrite Ht', Ht, app_assoc. split; [done|].
    by apply Forall_app.
  - by exists evs.
Qed.

Lemma scenario_B_references :
  Scanner.findReferencedFiles scenario_B = ["config.json"].
Proof. reflexivity. Qed.

Lemma last_split_sepfree (s seg : string) :
  JsString.pop (JsString.split "/" s) = Some seg ->
  JsString.all_chars (Chars.except "/") seg = true.
Proof.
  intros H. pose proof (split_sepfree_segments s) as Hall.
  rewrite Forall_forall in Hall. apply Hall.
  unfold JsString.pop in H. apply last_Some in H as [l' ->].
  apply elem_of_app. right. apply list_elem_of_here.
Qed.

(** The name of the saved primary document holds no separator. *)
Lemma mainFilename_sepfree (url : string) :
  JsString.all_chars (Chars.except "/") (Installer.mainFilename url) = true.
Proof.
  unfold Installer.mainFilename, JsString.or_default.
  destruct (JsString.pop (JsString.split "/" url)) as [seg|] eqn:E; [|done].
  unfold JsString.or_else. destruct (JsString.truthy seg); [|done].
  by apply (last_split_sepfree url).
Qed.

End ScenarioB.

(** * Further properties of the installer *)

(** ** The scanner as a set *)

Section ScannerSetFacts.
Import Scanner.

Lemma existsb_eqb_false (x : string) (l : list string) :
  existsb (String.eqb x) l = false -> x ∉ l.
Proof.
  intros E Hin. apply list_elem_of_In in Hin.
  assert (existsb (String.eqb x) l = true) as E'; [|congruence].
  apply existsb_exists. exists x. split; [done|]. apply String.eqb_refl.
Qed.

Lemma NoDup_set_add (refs : list string) (x : string) :
  NoDup refs -> NoDup (set_add refs x).
Proof.
  intros H. unfold set_add. destruct (existsb (String.eqb x) refs) eqn:E; [done|].
  apply NoDup_app. split; [done|]. split; [|apply NoDup_singleton].
  intros y Hy Hy'. apply list_elem_of_singleton in Hy'. subst y.
  by apply (existsb_eqb_false x refs).
Qed.

Lemma NoDup_fold_add_if (keep : string -> bool) (l acc : list string) :
  NoDup acc -> NoDup (fold_left (add_if keep) l acc).
Proof.
  revert acc. induction l as [|y l IH]; intros acc H; [done|].
  simpl. apply IH. unfold add_if. destruct (keep y); [|done].
  by apply NoDup_set_add.
Qed.

End ScannerSetFacts.

(** X1. The scanner returns a set: its result has no duplicates, and a
    string is in it exactly when it is the target of a link that the link
    rule keeps or a backtick token that the backtick rule keeps. *)
Theorem scanner_result_spec (content x : string) :
  NoDup (Scanner.findReferencedFiles content)
  /\ (x ∈ Scanner.findReferencedFiles content <->
      (x ∈ Scanner.link_targets content /\ Scanner.keeps_link x = true)
      \/ (x ∈ Scanner.backtick_tokens content
          /\ Scanner.keeps_backtick x = true)).
Proof.
  split.
  - unfold Scanner.findReferencedFiles, Scanner.link_refs.
    apply NoDup_fold_add_if, NoDup_fold_add_if, NoDup_nil_2.
  - unfold Scanner.findReferencedFiles.
    by rewrite elem_of_fold_add_if, link_refs_spec.
Qed.

(** ** The name of a skill *)

Section NameFacts.
Import Scanner.

Lemma sanitize_loop_clean (pos : nat) (name : string) :
  JsString.all_chars is_name_char name = true ->
  Regex.replace_loop unsafeNameRegex "-" pos name 0 = name.
Proof.
  revert pos. induction name as [|c s IH]; intros pos H; [done|].
  rewrite sanitize_loop. simpl in H. apply andb_true_iff in H as [Hc Hs].
  by rewrite Hc, IH.
Qed.

Lemma sanitize_clean (name : string) :
  JsString.all_chars is_name_char name = true -> sanitize name = name.
Proof. apply sanitize_loop_clean. Qed.

Lemma name_char_not_sep (c : ascii) :
  is_name_char c = true -> Chars.except "/" c = true /\ c ≠ "."%char.
Proof.
  intros H. split.
  - unfold Chars.except. destruct (Ascii.eqb c "/") eqn:E; [|done].
    apply Ascii.eqb_eq in E. subst c. discriminate H.
  - intros ->. discriminate H.
Qed.

(** A non-empty string of word characters and hyphens is a segment of a
    normalized path. *)
Lemma name_chars_normal (s : string) :
  JsString.all_chars is_name_char s = true ->
  JsString.truthy s = true ->
  Path.is_normal_segment s = true.
Proof.
  intros Hall Hne. unfold Path.is_normal_segment.
  assert (JsString.all_chars (Chars.except "/") s = true) as ->.
  { clear Hne. induction s as [|c s IH]; [done|]. simpl in *.
    apply andb_true_iff in Hall as [Hc Hs].
    destruct (name_char_not_sep c Hc) as [-> _]. by apply IH. }
  destruct s as [|c s]; [done|]. simpl in Hall.
  apply andb_true_iff in Hall as [Hc Hs].
  destruct (name_char_not_sep c Hc) as [_ Hdot].
  assert (String.eqb (String c s) "." = false) as ->.
  { apply String.eqb_neq. intros H. inversion H. done. }
  assert (String.eqb (String c s) ".." = false) as ->.
  { apply String.eqb_neq. intros H. inversion H. done. }
  done.
Qed.

End NameFacts.

(** X2. Sanitizing a name yields only word characters and hyphens, keeps
    the length (so only the empty name becomes empty), leaves a name of
    such characters alone and is therefore idempotent; the name of a
    skill, when not empty, is a single segment of a normalized path. *)
Theorem sanitize_spec (name : string) :
  JsString.all_chars Scanner.is_name_char (Scanner.sanitize name) = true
  /\ String.length (Scanner.sanitize name) = String.length name
  /\ (JsString.all_chars Scanner.is_name_char name = true ->
      Scanner.sanitize name = name)
  /\ Scanner.sanitize (Scanner.sanitize name) = Scanner.sanitize name
  /\ (JsString.truthy name = true ->
      Path.is_normal_segment (Scanner.sanitize name) = true).
Proof.
  split; [apply sanitize_chars|]. split; [apply sanitize_length|].
  split; [apply sanitize_clean|]. split.
  - apply sanitize_clean, sanitize_chars.
  - intros Hne. apply name_chars_normal; [apply sanitize_chars|].
    apply truthy_length. rewrite sanitize_length. by apply truthy_length.
Qed.

(** ** The base URL and the primary file name *)

Section BaseUrlSplit.

Local Open Scope Z_scope.
Local Abbreviation sepfree := (JsString.all_chars (Chars.except "/")).

Lemma startsWith_sep (c : ascii) (s : string) :
  JsString.startsWith (String c s) "/" = Ascii.eqb "/" c.
Proof. simpl. by rewrite startsWith_empty, andb_true_r. Qed.

(** The last slash splits a string into what is before it and a tail
    that holds no slash. *)
Lemma lastIndexOf_from_split (i : Z) (s : string) :
  0 <= i ->
  (JsString.lastIndexOf_from i s "/" = -1 /\ sepfree s = true)
  \/ exists a b,
       s = a +:+ String "/" b
       /\ JsString.lastIndexOf_from i s "/" = i + Z.of_nat (String.length a)
       /\ sepfree b = true.
Proof.
  revert i. induction s as [|c s IH]; intros i Hi; [by left|].
  cbn [JsString.lastIndexOf_from]. cbv zeta.
  destruct (IH (i + 1) ltac:(lia)) as [[Hr Hfree]|(a & b & -> & Hr & Hfree)].
  - rewrite Hr. change (0 <=? -1) with false. cbv iota.
    rewrite startsWith_sep. destruct (Ascii.eqb "/" c) eqn:Ec.
    + right. apply Ascii.eqb_eq in Ec. subst c. exists EmptyString, s.
      split; [done|]. split; [simpl; lia|done].
    + left. split; [done|]. simpl. unfold Chars.except.
      rewrite Ascii.eqb_sym, Ec. done.
  - rewrite Hr. right. exists (String c a), b. split; [done|].
    destruct (0 <=? i + 1 + Z.of_nat (String.length a)) eqn:E.
    + split; [cbn [String.length]; lia|done].
    + apply Z.leb_gt in E. lia.
Qed.

Lemma take_app_exact (a b : string) :
  JsString.take (String.length a) (a +:+ b) = a.
Proof.
  induction a as [|c a IH]; [by destruct b|].
  rewrite app_cons. simpl. by rewrite IH.
Qed.

Lemma pop_split_tail (a b : string) :
  sepfree b = true ->
  JsString.pop (JsString.split "/" (a +:+ String "/" b)) = Some b.
Proof.
  intros Hb. unfold JsString.pop.
  rewrite split_app_sep, (split_sepfree b Hb). apply last_snoc.
Qed.

Lemma last_slash_unique (a a' b b' : string) :
  sepfree b = true -> sepfree b' = true ->
  a +:+ String "/" b = a' +:+ String "/" b' ->
  String.length a = String.length a'.
Proof.
  intros Hb Hb' H.
  assert (b = b') as ->.
  { pose proof (pop_split_tail a b Hb) as H1.
    pose proof (pop_split_tail a' b' Hb') as H2.
    rewrite H in H1. congruence. }
  apply (f_equal String.length) in H. rewrite !length_app_str in H.
  simpl in H. lia.
Qed.

End BaseUrlSplit.

(** X3. When the last slash of the URL lies beyond the two slashes of the
    scheme, the base URL is the URL up to that slash: the URL is the base
    URL, a slash and its last segment, so the primary document itself is
    found again under the base URL by its file name.  Otherwise the base
    URL is the URL unchanged; this is so for a bare host, with either
    scheme. *)
Theorem base_url_round_trip (url : string) :
  (if (JsString.indexOf url "://" + 2 <? JsString.lastIndexOf url "/")%Z
   then exists seg,
          JsString.pop (JsString.split "/" url) = Some seg
          /\ url = Scanner.getBaseUrl url +:+ "/" +:+ seg
          /\ (JsString.truthy seg = true ->
              Scanner.getBaseUrl url +:+ "/" +:+ Installer.mainFilename url
              = url)
   else Scanner.getBaseUrl url = url)
  /\ (forall host,
        JsString.all_chars (Chars.except "/") host = true ->
        Scanner.getBaseUrl ("https://" +:+ host) = "https://" +:+ host
        /\ Scanner.getBaseUrl ("http://" +:+ host) = "http://" +:+ host).
Proof.
  split.
  - unfold Scanner.getBaseUrl. cbv zeta.
    pose proof (indexOf_from_ge 0 url "://" ltac:(lia)) as Hidx.
    fold (JsString.indexOf url "://") in Hidx.
    destruct (JsString.indexOf url "://" + 2 <? JsString.lastIndexOf url "/")%Z
      eqn:E; [|done].
    apply Z.ltb_lt in E. unfold JsString.lastIndexOf in *.
    destruct (lastIndexOf_from_split 0 url ltac:(lia))
      as [[Hr _]|(a & b & Hurl & Hr & Hfree)]; [lia|].
    subst url. exists b. rewrite Hr, Z.add_0_l, Nat2Z.id, take_app_exact.
    split; [by apply pop_split_tail|]. split; [done|].
    intros Hb. unfold Installer.mainFilename.
    rewrite (pop_split_tail a b Hfree).
    unfold JsString.or_default, JsString.or_else. by rewrite Hb.
  - intros host Hhost.
    assert (forall scheme i,
              JsString.indexOf (scheme +:+ "://" +:+ host) "://" = i ->
              Z.of_nat (String.length scheme) = i ->
              Scanner.getBaseUrl (scheme +:+ "://" +:+ host)
              = scheme +:+ "://" +:+ host) as Hbare.
    { intros scheme i Hi Hlen. unfold Scanner.getBaseUrl. cbv zeta.
      rewrite Hi. unfold JsString.lastIndexOf.
      destruct (lastIndexOf_from_split 0 (scheme +:+ "://" +:+ host)
                  ltac:(lia)) as [[Hr _]|(a & b & Hurl & Hr & Hfree)].
      - rewrite Hr. by destruct (i + 2 <? -1)%Z eqn:E;
          [apply Z.ltb_lt in E; lia|].
      - rewrite Hr.
        assert (String.length a = String.length (scheme +:+ ":/")) as Ha.
        { apply (last_slash_unique a (scheme +:+ ":/") b host Hfree Hhost).
          rewrite <- Hurl. by rewrite !app_assoc_str. }
        rewrite length_app_str in Ha. simpl in Ha.
        by destruct (i + 2 <? 0 + Z.of_nat (String.length a))%Z eqn:E;
          [apply Z.ltb_lt in E; lia|]. }
    split.
    + apply (Hbare "https" 5%Z); [|done]. by destruct host.
    + apply (Hbare "http" 4%Z); [|done]. by destruct host.
Qed.

(** ** Inputs that are rejected before any effect *)

Section BlankFacts.

Lemma trimStart_blank (s : string) :
  JsString.all_chars Chars.is_space s = true -> JsString.trimStart s = EmptyString.
Proof.
  induction s as [|c s IH]; [done|]. simpl. intros H.
  apply andb_true_iff in H as [Hc Hs]. rewrite Hc. by apply IH.
Qed.

(** Trimming a string of white space leaves nothing. *)
Lemma trim_blank (s : string) :
  JsString.all_chars Chars.is_space s = true -> JsString.trim s = EmptyString.
Proof. intros H. unfold JsString.trim. by rewrite trimStart_blank. Qed.

End BlankFacts.

(** X4. A URL that is missing or blank, or that starts with neither
    http:// nor https://, is refused at once: install_skill returns a
    failure with the usage text in the first case and the scheme text in
    the second, and the world is as it was: no request, no directory, not
    even the sets root. *)
Theorem install_rejects_bad_url
    (cwd : string) (net : list event -> string -> transport)
    (params : install_params) (w : world) :
  let url := JsString.or_default (JsString.trim <$> p_url params) EmptyString in
  JsString.startsWith url "http://" = false ->
  JsString.startsWith url "https://" = false ->
  Installer.install_skill cwd net params w
  = Ok (ToolResult
          (if JsString.truthy url
           then "URL must start with http:// or https://"
           else "Usage: install_skill(url: 'https://example.com/skill.md')")
          Failure) w.
Proof.
  intros url H1 H2. unfold Installer.install_skill. cbv zeta. fold url.
  destruct (JsString.truthy url); [|done]. by rewrite H1, H2.
Qed.

Lemma install_rejects_bad_url_witness :
  Installer.install_skill agent_cwd net_B
    (InstallParams (Some "  ftp://example.com/skill.md ") None) agent_world
  = Ok (ToolResult "URL must start with http:// or https://" Failure)
       agent_world.
Proof.
  apply (install_rejects_bad_url agent_cwd net_B
           (InstallParams (Some "  ftp://example.com/skill.md ") None)
           agent_world); reflexivity.
Defined.

(** X5. A name that is missing or made of white space only is refused at
    once: uninstall_skill returns the usage failure and the world is as
    it was. *)
Theorem uninstall_rejects_blank
    (cwd : string) (name : option string) (w : world) :
  (forall s, name = Some s -> JsString.all_chars Chars.is_space s = true) ->
  Installer.uninstall_skill cwd name w
  = Ok (ToolResult "Usage: uninstall_skill(name: 'skill-name')" Failure) w.
Proof.
  intros Hblank. unfold Installer.uninstall_skill. cbv zeta.
  assert (JsString.or_default (JsString.trim <$> name) EmptyString
          = EmptyString) as ->; [|done].
  destruct name as [s|]; [|done]. simpl.
  by rewrite (trim_blank s (Hblank s eq_refl)).
Qed.

Lemma uninstall_rejects_blank_witness :
  Installer.uninstall_skill agent_cwd (Some "   ") skill_world
  = Ok (ToolResult "Usage: uninstall_skill(name: 'skill-name')" Failure)
       skill_world.
Proof.
  apply (uninstall_rejects_blank agent_cwd (Some "   ") skill_world).
  intros s Hs. inversion Hs. reflexivity.
Defined.

(** ** What the report accounts for *)

Section AccountingFacts.
Variable cwd : string.
Variable net : list event -> string -> transport.
Variables baseUrl skillDir : string.

Local Abbreviation loop := (Installer.install_refs cwd net baseUrl skillDir).
Local Abbreviation safe := (Installer.isSafePath cwd skillDir).

(** The entry of the failed list for a reference: blocked by the guard,
    or refused by the server with a status. *)
Lemma loop_failed (refs fetched failed : list string) (w w' : world)
    (lists : list string * list string) :
  loop refs fetched failed w = Ok lists w' ->
  length lists.1 + length lists.2
  = length fetched + length failed + length refs
  /\ exists more,
       lists.2 = failed ++ more
       /\ (forall r, r ∈ refs -> safe r = false ->
             r +:+ " (blocked: path traversal)" ∈ more)
       /\ Forall (fun e =>
                    exists r, r ∈ refs
                      /\ ((safe r = false
                           /\ e = r +:+ " (blocked: path traversal)")
                          \/ (safe r = true
                              /\ exists st,
                                   e = r +:+ " (HTTP " +:+ JsString.of_N st
                                       +:+ ")"))) more.
Proof.
  revert fetched failed w.
  induction refs as [|ref rest IH]; intros fetched failed w Hrun.
  - inversion Hrun; subst. simpl. split; [lia|]. exists [].
    rewrite app_nil_r. split; [done|]. split; [|done].
    intros r Hr. by apply elem_of_nil in Hr.
  - assert (forall f fl w0 e,
              loop rest f fl w0 = Ok lists w' ->
              (length f + length fl = length fetched + length failed + 1)%nat ->
              (fl = failed ++ e ->
               (safe ref = false -> e = [ref +:+ " (blocked: path traversal)"]) ->
               Forall (fun e =>
                    exists r, r ∈ ref :: rest
                      /\ ((safe r = false
                           /\ e = r +:+ " (blocked: path traversal)")
                          \/ (safe r = true
                              /\ exists st,
                                   e = r +:+ " (HTTP " +:+ JsString.of_N st
                                       +:+ ")"))) e ->
               length lists.1 + length lists.2
               = length fetched + length failed + length (ref :: rest)
               /\ exists more,
                    lists.2 = failed ++ more
                    /\ (forall r, r ∈ ref :: rest -> safe r = false ->
                          r +:+ " (blocked: path traversal)" ∈ more)
                    /\ Forall (fun e =>
                         exists r, r ∈ ref :: rest
                           /\ ((safe r = false
                                /\ e = r +:+ " (blocked: path traversal)")
                               \/ (safe r = true
                                   /\ exists st,
                                        e = r +:+ " (HTTP " +:+ JsString.of_N st
                                            +:+ ")"))) more)) as Hstep.
    { intros f fl w0 e H0 Hlen Hfl Hblocked He.
      destruct (IH _ _ _ H0) as (Hcount & more & Hmore & Hall & Hform).
      split; [simpl; lia|]. exists (e ++ more).
      split; [by rewrite Hmore, Hfl, app_assoc|]. split.
      - intros r Hr Hs. apply elem_of_app. apply elem_of_cons in Hr as [->|Hr].
        + left. rewrite (Hblocked Hs). apply list_elem_of_here.
        + right. by apply Hall.
      - apply Forall_app. split; [done|].
        eapply Forall_impl; [apply Hform|].
        intros x (r & Hr & Hx). exists r. split; [by right|done]. }
    simpl in Hrun. destruct (safe ref) eqn:Hsafe; simpl in Hrun.
    + apply bind_Ok_inv in Hrun as (refResult & w1 & _ & Hrun).
      destruct (ok refResult).
      * apply bind_Ok_inv in Hrun as (present & w2 & _ & Hrun).
        apply bind_Ok_inv in Hrun as (? & w3 & _ & Hrun).
        apply bind_Ok_inv in Hrun as (? & w4 & _ & Hrun).
        apply (Hstep _ _ _ [] Hrun).
        -- rewrite length_app. simpl. lia.
        -- by rewrite app_nil_r.
        -- done.
        -- done.
      * apply (Hstep _ _ _
                 [ref +:+ " (HTTP " +:+ JsString.of_N (status refResult)
                  +:+ ")"] Hrun).
        -- rewrite length_app. simpl. lia.
        -- done.
        -- done.
        -- apply Forall_singleton. exists ref. split; [by left|].
           right. split; [done|]. by exists (status refResult).
    + apply (Hstep _ _ _ [ref +:+ " (blocked: path traversal)"] Hrun).
      * rewrite length_app. simpl. lia.
      * done.
      * done.
      * apply Forall_singleton. exists ref. split; [by left|]. by left.
Qed.

End AccountingFacts.



(** ** Joining paths, and the node a path names *)

Section JoinFacts.

Local Abbreviation normal := (fun seg => Path.is_normal_segment seg = true).

Lemma normal_Forall (S : list string) :
  forallb Path.is_normal_segment S = true -> Forall normal S.
Proof.
  intros HS. apply Forall_forall. intros seg Hseg.
  rewrite forallb_forall in HS. apply HS. by apply list_elem_of_In.
Qed.

Lemma normal_truthy (seg : string) : normal seg -> JsString.truthy seg = true.
Proof. by destruct seg. Qed.

Lemma join_truthy (R : list string) :
  Forall normal R -> R ≠ [] -> JsString.truthy (JsString.join "/" R) = true.
Proof.
  intros HR Hne. destruct R as [|r R]; [done|]. inversion HR; subst.
  destruct r as [|c r]; [done|]. by destruct R.
Qed.

Lemma normalize_segments_absolute (R : list string) :
  Forall normal R -> Path.normalize_segments false (Path.absolute_of R) = R.
Proof.
  intros HR. unfold Path.normalize_segments.
  by rewrite fold_norm_root, rev_involutive.
Qed.

Lemma normalize_segments_trailing (p : string) :
  Path.normalize_segments false (p +:+ String "/" EmptyString)
  = Path.normalize_segments false p.
Proof.
  unfold Path.normalize_segments. by rewrite split_app_sep, fold_norm_empty_last.
Qed.

(** An absolute path names the node of its normalized segments. *)
Lemma key_absolute (cwd p : string) :
  JsString.startsWith p "/" = true ->
  Fs.key cwd p = Path.normalize_segments false p.
Proof.
  intros Hp. unfold Fs.key. simpl.
  assert (JsString.truthy p = true) as -> by (by destruct p).
  rewrite Hp. simpl. apply normalize_segments_trailing.
Qed.

Lemma key_absolute_of (cwd : string) (R : list string) :
  Forall normal R -> Fs.key cwd (Path.absolute_of R) = R.
Proof.
  intros HR. rewrite key_absolute by apply absolute_of_absolute.
  by apply normalize_segments_absolute.
Qed.

Lemma normalize_segments_joined (S : list string) (rel : string) :
  Forall normal S ->
  Path.normalize_segments false (Path.absolute_of S +:+ String "/" rel)
  = joined_segments S rel.
Proof.
  intros HS. unfold Path.normalize_segments, joined_segments.
  by rewrite split_app_sep, fold_left_app, fold_norm_root.
Qed.

Lemma joined_segments_normal (S : list string) (rel : string) :
  Forall normal S -> Forall normal (joined_segments S rel).
Proof.
  intros HS. unfold joined_segments.
  apply Forall_rev, fold_norm_normal; [|apply split_sepfree_segments].
  by apply Forall_rev.
Qed.

(** Normalizing an absolute path. *)
Lemma normalize_absolute (p : string) :
  JsString.startsWith p "/" = true ->
  Path.normalize p
  = match Path.normalize_segments false p with
    | [] => "/"
    | R => Path.absolute_of R
           +:+ (if Path.ends_with_sep p then "/" else EmptyString)
    end.
Proof.
  intros Hp. unfold Path.normalize.
  assert (JsString.truthy p = true) as -> by (by destruct p).
  rewrite Hp. simpl negb. cbv iota. unfold Path.normalizeString, Path.sep.
  pose proof (normalize_segments_normal p) as HR.
  destruct (Path.normalize_segments false p) as [|r R] eqn:E; [done|].
  rewrite (join_truthy (r :: R)) by done. simpl negb. cbv iota.
  unfold Path.absolute_of. destruct (Path.ends_with_sep p); [|by rewrite app_empty_r].
  by rewrite app_assoc_str.
Qed.

Lemma absolute_of_app_absolute (S : list string) (rest : string) :
  JsString.startsWith (Path.absolute_of S +:+ rest) "/" = true.
Proof.
  unfold Path.absolute_of. rewrite app_assoc_str. apply (startsWith_app "/").
Qed.

(** Joining a relative or absolute string to a normalized absolute
    directory. *)
Lemma join_absolute_of (S : list string) (rel : string) :
  Forall normal S ->
  JsString.truthy rel = true ->
  Path.join [Path.absolute_of S; rel]
  = match joined_segments S rel with
    | [] => "/"
    | R => Path.absolute_of R
           +:+ (if Path.ends_with_sep (Path.absolute_of S +:+ String "/" rel)
                then "/" else EmptyString)
    end.
Proof.
  intros HS Hrel. unfold Path.join.
  assert (filter (fun a => JsString.truthy a = true) [Path.absolute_of S; rel]
          = [Path.absolute_of S; rel]) as ->.
  { rewrite filter_cons_True by done. by rewrite filter_cons_True, filter_nil. }
  change (JsString.join "/" [Path.absolute_of S; rel])
    with (Path.absolute_of S +:+ String "/" rel).
  rewrite normalize_absolute by apply absolute_of_app_absolute.
  by rewrite normalize_segments_joined.
Qed.

(** A normalized absolute path other than the top has no trailing
    separator. *)
Lemma ends_with_sep_absolute_of (S : list string) :
  Forall normal S -> S ≠ [] ->
  Path.ends_with_sep (Path.absolute_of S) = false.
Proof.
  intros HS Hne.
  unfold Path.ends_with_sep, JsString.pop, Path.absolute_of, Path.sep.
  change ("/" +:+ JsString.join "/" S)
    with (EmptyString +:+ String "/" (JsString.join "/" S)).
  rewrite split_app_sep, split_join
    by (eapply Forall_impl; [apply HS|apply normal_sepfree]).
  destruct (@exists_last _ S Hne) as (S0 & sl & Hl').
  assert (normal sl) as Hsl.
  { rewrite Hl' in HS. apply Forall_app in HS as [_ HS]. by inversion HS. }
  destruct S as [|s S]; [done|]. rewrite Hl', app_assoc, last_snoc.
  by destruct sl.
Qed.

Lemma join_absolute_of_empty (S : list string) :
  Forall normal S -> S ≠ [] ->
  Path.join [Path.absolute_of S; EmptyString] = Path.absolute_of S.
Proof.
  intros HS Hne. unfold Path.join.
  assert (filter (fun a => JsString.truthy a = true)
            [Path.absolute_of S; EmptyString] = [Path.absolute_of S]) as ->.
  { rewrite filter_cons_True by done. by rewrite filter_cons_False, filter_nil. }
  change (JsString.join "/" [Path.absolute_of S]) with (Path.absolute_of S).
  rewrite normalize_absolute by apply absolute_of_absolute.
  rewrite normalize_segments_absolute by done.
  rewrite ends_with_sep_absolute_of by done.
  destruct S as [|s S]; [done|]. by rewrite app_empty_r.
Qed.

(** The node named by a join. *)
Lemma key_join (cwd : string) (S : list string) (rel : string) :
  Forall normal S -> S ≠ [] ->
  Fs.key cwd (Path.join [Path.absolute_of S; rel]) = joined_segments S rel.
Proof.
  intros HS Hne. destruct (JsString.truthy rel) eqn:Hrel.
  - rewrite join_absolute_of by done.
    pose proof (joined_segments_normal S rel HS) as HR.
    destruct (joined_segments S rel) as [|r R] eqn:E; [done|].
    destruct (Path.ends_with_sep _).
    + rewrite key_absolute by apply absolute_of_app_absolute.
      rewrite normalize_segments_trailing.
      by apply normalize_segments_absolute.
    + rewrite app_empty_r. by apply key_absolute_of.
  - destruct rel; [|done]. rewrite join_absolute_of_empty by done.
    rewrite key_absolute_of by done.
    change (joined_segments S EmptyString) with (rev (rev S)).
    by rewrite rev_involutive.
Qed.

(** The sets root of a process whose working directory is normalized. *)
Lemma skillsDir_segments (C : list string) :
  Forall normal C ->
  Installer.skillsDir (Path.absolute_of C) = Path.absolute_of (C ++ ["skills"]).
Proof.
  intros HC. unfold Installer.skillsDir, Path.resolve. simpl rev.
  cbn [Path.resolve_loop]. change (JsString.truthy "skills") with true.
  change (JsString.startsWith "skills" "/") with false. cbv iota.
  assert (JsString.truthy (Path.absolute_of C) = true) as -> by done.
  rewrite absolute_of_absolute. simpl negb. cbv iota.
  unfold Path.absolute_of at 2, Path.normalizeString. f_equal. f_equal.
  change ("skills" +:+ "/" +:+ EmptyString) with "skills/".
  change (Path.absolute_of C +:+ "/" +:+ "skills/")
    with (Path.absolute_of C +:+ String "/" "skills/").
  rewrite normalize_segments_joined by done.
  change (joined_segments C "skills/") with (rev ("skills" :: rev C)).
  change (rev ("skills" :: rev C)) with (rev (rev C) ++ ["skills"]).
  by rewrite rev_involutive.
Qed.

End JoinFacts.

Lemma node_at_nonempty (fs : gmap (list string) node) (k : list string) :
  k ≠ [] -> Fs.node_at fs k = fs !! k.
Proof. by destruct k. Qed.

(** X7. Once uninstall_skill has returned for a name, whether it removed
    something or not, calling it again with that name reports not found
    and leaves the world as it is, provided the path of the name is not
    the top directory. *)
Theorem uninstall_twice (cwd name : string) (w w1 : world) (r1 : tool_result) :
  JsString.truthy (JsString.trim name) = true ->
  Fs.key cwd (Path.join [Installer.skillsDir cwd; JsString.trim name]) ≠ [] ->
  Installer.uninstall_skill cwd (Some name) w = Ok r1 w1 ->
  Installer.uninstall_skill cwd (Some name) w1
  = Ok (ToolResult
          ("Skill " +:+ quote +:+ JsString.trim name +:+ quote
           +:+ " not found in skills/")
          Failure) w1.
Proof.
  intros Hn Hkey Hrun. rewrite uninstall_run in Hrun by done.
  rewrite uninstall_run by done. cbv zeta in *.
  set (skillDir := Path.join [Installer.skillsDir cwd; JsString.trim name]) in *.
  destruct (Fs.lookup_path cwd (w_fs w) skillDir) eqn:E.
  - inversion Hrun; subst. cbn [w_fs].
    assert (Fs.lookup_path cwd
              (filter (fun kv => ¬ Fs.under (Fs.key cwd skillDir) kv.1) (w_fs w))
              skillDir = None) as ->; [|done].
    unfold Fs.lookup_path, Fs.node_at.
    destruct (Fs.key cwd skillDir) as [|seg k] eqn:Ek; [done|].
    rewrite lookup_remove_under. by rewrite decide_True.
  - inversion Hrun; subst. by rewrite E.
Qed.

Lemma uninstall_twice_witness :
  Installer.uninstall_skill agent_cwd (Some "foo")
    (World
       (filter (fun kv => ¬ Fs.under ["home"; "agent"; "skills"; "foo"] kv.1)
          (w_fs skill_world))
       [EvRm "/home/agent/skills/foo"])
  = Ok (ToolResult
          ("Skill " +:+ quote +:+ JsString.trim "foo" +:+ quote
           +:+ " not found in skills/")
          Failure)
       (World
          (filter (fun kv => ¬ Fs.under ["home"; "agent"; "skills"; "foo"] kv.1)
             (w_fs skill_world))
          [EvRm "/home/agent/skills/foo"]).
Proof.
  apply (uninstall_twice agent_cwd "foo" skill_world _
           (ToolResult ("Removed skill " +:+ quote +:+ "foo" +:+ quote)
              (Removed "foo"))).
  - reflexivity.
  - discriminate.
  - rewrite uninstall_run by reflexivity. reflexivity.
Defined.

(** X8. The name made of a single dot is not blank, and its path is the
    sets root itself: where the working directory is normalized and the
    sets root exists, uninstalling it removes the sets root with every
    skill in it, touches nothing else and reports success. *)
Theorem uninstall_dot_removes_root (C : list string) (w : world) :
  forallb Path.is_normal_segment C = true ->
  is_Some (w_fs w !! (C ++ ["skills"])) ->
  let cwd := Path.absolute_of C in
  Path.join [Installer.skillsDir cwd; "."] = Installer.skillsDir cwd
  /\ exists w',
       Installer.uninstall_skill cwd (Some ".") w
       = Ok (ToolResult ("Removed skill " +:+ quote +:+ "." +:+ quote)
               (Removed ".")) w'
       /\ w_trace w' = w_trace w ++ [EvRm (Installer.skillsDir cwd)]
       /\ forall k,
            w_fs w' !! k
            = if decide ((C ++ ["skills"]) `prefix_of` k) then None
              else w_fs w !! k.
Proof.
  intros HC [n Hn] cwd. apply normal_Forall in HC.
  assert (Forall (fun seg => Path.is_normal_segment seg = true)
            (C ++ ["skills"])) as HS.
  { apply Forall_app. split; [done|]. by apply Forall_singleton. }
  assert (C ++ ["skills"] ≠ []) as Hne by (by destruct C).
  assert (Path.join [Installer.skillsDir cwd; "."] = Installer.skillsDir cwd)
    as Hjoin.
  { subst cwd. rewrite skillsDir_segments by done.
    rewrite join_absolute_of by done.
    change (joined_segments (C ++ ["skills"]) ".")
      with (rev (rev (C ++ ["skills"]))).
    rewrite rev_involutive.
    assert (Path.ends_with_sep
              (Path.absolute_of (C ++ ["skills"]) +:+ String "/" ".")
            = false) as ->.
    { unfold Path.ends_with_sep, JsString.pop. rewrite split_app_sep.
      change (JsString.split "/" ".") with ["."]. by rewrite last_snoc. }
    destruct (C ++ ["skills"]) as [|s S'] eqn:E; [done|]. apply app_empty_r. }
  split; [done|].
  rewrite uninstall_run by reflexivity. cbv zeta.
  change (JsString.trim ".") with ".". rewrite Hjoin.
  assert (Fs.key cwd (Installer.skillsDir cwd) = C ++ ["skills"]) as Hkey.
  { subst cwd. rewrite skillsDir_segments by done. by apply key_absolute_of. }
  assert (Fs.lookup_path cwd (w_fs w) (Installer.skillsDir cwd) = Some n) as ->.
  { unfold Fs.lookup_path. rewrite Hkey, node_at_nonempty, Hn by done.
    subst cwd. rewrite skillsDir_segments by done.
    rewrite ends_with_sep_absolute_of by done. by destruct n. }
  eexists. split; [done|]. split; [done|]. intros k. cbn [w_fs].
  rewrite lookup_remove_under, Hkey. done.
Qed.

Lemma uninstall_dot_removes_root_witness :
  let cwd := Path.absolute_of ["home"; "agent"] in
  Path.join [Installer.skillsDir cwd; "."] = Installer.skillsDir cwd
  /\ exists w',
       Installer.uninstall_skill cwd (Some ".") skill_world
       = Ok (ToolResult ("Removed skill " +:+ quote +:+ "." +:+ quote)
               (Removed ".")) w'
       /\ w_trace w' = w_trace skill_world ++ [EvRm (Installer.skillsDir cwd)]
       /\ forall k,
            w_fs w' !! k
            = if decide ((["home"; "agent"] ++ ["skills"]) `prefix_of` k)
              then None
              else w_fs skill_world !! k.
Proof.
  apply (uninstall_dot_removes_root ["home"; "agent"] skill_world).
  - reflexivity.
  - exists Dir. vm_compute. reflexivity.
Defined.

(** X9. The guard is sound for relative references: when the directory of
    the skill is normalized and not the top, a reference that does not
    start with a separator and passes the guard is written at the path
    the guard checked (up to a trailing separator), and that path names
    the directory of the skill or a node below it. *)
Theorem relative_reference_stays_inside
    (cwd : string) (S : list string) (ref : string) :
  S ≠ [] ->
  forallb Path.is_normal_segment S = true ->
  JsString.startsWith ref "/" = false ->
  Installer.isSafePath cwd (Path.absolute_of S) ref = true ->
  let dest := Path.join [Path.absolute_of S; ref] in
  S `prefix_of` Fs.key cwd dest
  /\ Fs.key cwd dest = Fs.key cwd (Path.resolve cwd [Path.absolute_of S; ref])
  /\ (dest = Path.resolve cwd [Path.absolute_of S; ref]
      \/ dest = Path.resolve cwd [Path.absolute_of S; ref] +:+ "/").
Proof.
  intros Hne HS Hrel Hsafe dest. apply normal_Forall in HS.
  apply isSafePath_segments in Hsafe; [|done..].
  assert (Path.resolved_segments S ref = joined_segments S ref) as Hsame.
  { unfold Path.resolved_segments, joined_segments. by rewrite Hrel. }
  rewrite Hsame in Hsafe.
  assert (Fs.key cwd dest = joined_segments S ref) as Hkey
    by (by apply key_join).
  rewrite resolve_segments, Hsame by done.
  pose proof (joined_segments_normal S ref HS) as HR.
  split; [by rewrite Hkey|]. split; [by rewrite key_absolute_of|].
  subst dest. destruct (JsString.truthy ref) eqn:Ht.
  - rewrite join_absolute_of by done.
    destruct (joined_segments S ref) as [|r R] eqn:E.
    + destruct Hsafe as [k Hk]. by destruct S.
    + destruct (Path.ends_with_sep _); [by right|left]. by rewrite app_empty_r.
  - destruct ref; [|done]. left. rewrite join_absolute_of_empty by done.
    change (joined_segments S EmptyString) with (rev (rev S)).
    by rewrite rev_involutive.
Qed.

Lemma relative_reference_stays_inside_witness :
  let S := ["home"; "agent"; "skills"; "s"] in
  let dest := Path.join [Path.absolute_of S; "docs/../img/logo.png"] in
  S `prefix_of` Fs.key agent_cwd dest
  /\ Fs.key agent_cwd dest
     = Fs.key agent_cwd
         (Path.resolve agent_cwd [Path.absolute_of S; "docs/../img/logo.png"])
  /\ (dest = Path.resolve agent_cwd [Path.absolute_of S; "docs/../img/logo.png"]
      \/ dest
         = Path.resolve agent_cwd [Path.absolute_of S; "docs/../img/logo.png"]
           +:+ "/").
Proof.
  apply (relative_reference_stays_inside agent_cwd
           ["home"; "agent"; "skills"; "s"] "docs/../img/logo.png");
    (discriminate || reflexivity).
Defined.

(** X10. The guard and the write disagree on absolute references: the
    guard resolves the reference, so an absolute one starts again at the
    top, while the write joins it to the directory of the skill.  For a
    normalized directory whose first and last segments differ, the
    reference made of a separator, a double-dot segment and the path of a
    file inside the directory passes the guard, and the path it is
    written to names a node outside the directory. *)
Theorem absolute_reference_escapes
    (cwd : string) (S : list string) (x : string) :
  forallb Path.is_normal_segment S = true ->
  Path.is_normal_segment x = true ->
  head S ≠ last S ->
  let ref := "/../" +:+ JsString.join "/" (S ++ [x]) in
  Installer.isSafePath cwd (Path.absolute_of S) ref = true
  /\ Fs.key cwd (Path.join [Path.absolute_of S; ref])
     = removelast S ++ S ++ [x]
  /\ ¬ S `prefix_of` Fs.key cwd (Path.join [Path.absolute_of S; ref]).
Proof.
  intros HS Hx Hends ref. apply normal_Forall in HS.
  assert (S ≠ []) as Hne by (intros ->; done).
  assert (Forall (fun seg => Path.is_normal_segment seg = true) (S ++ [x]))
    as HSx.
  { apply Forall_app. split; [done|]. by apply Forall_singleton. }
  assert (JsString.split "/" ref = EmptyString :: ".." :: S ++ [x]) as Hsplit.
  { subst ref.
    change ("/../" +:+ JsString.join "/" (S ++ [x]))
      with (EmptyString
            +:+ String "/" (".." +:+ String "/" (JsString.join "/" (S ++ [x])))).
    rewrite !split_app_sep, split_join
      by (eapply Forall_impl; [apply HSx|apply normal_sepfree]).
    by destruct (S ++ [x]) eqn:E; [destruct S|]. }
  destruct (@exists_last _ S Hne) as (S0 & sl & HS0).
  assert (Path.is_normal_segment sl = true) as Hsl.
  { rewrite HS0 in HS. apply Forall_app in HS as [_ HS]. by inversion HS. }
  assert (Path.norm_step false (rev S) ".." = rev (removelast S)) as Hpop.
  { rewrite HS0, removelast_last, rev_unit. unfold Path.norm_step.
    change (String.eqb ".." EmptyString) with false.
    change (String.eqb ".." ".") with false.
    change (String.eqb ".." "..") with true. cbv iota.
    destruct (String.eqb sl "..") eqn:E; [|done].
    apply String.eqb_eq in E. subst sl. discriminate Hsl. }
  assert (joined_segments S ref = removelast S ++ S ++ [x]) as Hjoined.
  { unfold joined_segments. rewrite Hsplit.
    change (fold_left (Path.norm_step false) (EmptyString :: ".." :: S ++ [x])
              (rev S))
      with (fold_left (Path.norm_step false) (S ++ [x])
              (Path.norm_step false (rev S) "..")).
    rewrite fold_norm_push, Hpop by done.
    by rewrite rev_app_distr, !rev_involutive. }
  assert (¬ S `prefix_of` removelast S ++ S ++ [x]) as Hout.
  { intros Hpre. apply Hends. clear Hjoined Hpop Hsplit HSx HS.
    subst S. rewrite removelast_last in Hpre. rewrite last_snoc.
    apply prefix_app_inv in Hpre.
    destruct S0 as [|s0 S0']; [done|]. simpl in *.
    by apply prefix_cons_inv_1 in Hpre as ->. }
  split.
  - apply isSafePath_segments; [done..|].
    unfold Path.resolved_segments.
    assert (JsString.startsWith ref "/" = true) as ->.
    { subst ref. apply (startsWith_app "/"). }
    rewrite Hsplit.
    change (fold_left (Path.norm_step false) (EmptyString :: ".." :: S ++ [x]) [])
      with (fold_left (Path.norm_step false) (S ++ [x]) []).
    rewrite fold_norm_push, app_nil_r, rev_involutive by done.
    by apply prefix_app_r.
  - rewrite key_join by done. by rewrite Hjoined.
Qed.

Lemma absolute_reference_escapes_witness :
  let S := ["home"; "agent"; "skills"; "my-skill"] in
  let ref := "/../" +:+ JsString.join "/" (S ++ ["x.md"]) in
  Installer.isSafePath agent_cwd (Path.absolute_of S) ref = true
  /\ Fs.key agent_cwd (Path.join [Path.absolute_of S; ref])
     = removelast S ++ S ++ ["x.md"]
  /\ ¬ S `prefix_of` Fs.key agent_cwd (Path.join [Path.absolute_of S; ref]).
Proof.
  apply (absolute_reference_escapes agent_cwd
           ["home"; "agent"; "skills"; "my-skill"] "x.md");
    (discriminate || reflexivity).
Defined.

(** A run of the install on such a reference: the file is fetched and
    written below the sets root, outside the directory of the skill. *)
Example install_escaping_reference :
  exists w',
    Installer.install_skill agent_cwd net_escape
      (InstallParams (Some skill_url) None) agent_world
    = Ok (ToolResult
            (Installer.install_summary "my-skill"
               ["my-skill.md"; "/../home/agent/skills/my-skill/x.md"] [])
            (Installed "my-skill"
               ["my-skill.md"; "/../home/agent/skills/my-skill/x.md"] [])) w'
    /\ w_fs w' !! ["home"; "agent"; "skills";
                    "home"; "agent"; "skills"; "my-skill"; "x.md"]
       = Some (File "{}")
    /\ w_fs w' !! ["home"; "agent"; "skills"; "my-skill"; "x.md"] = None.
Proof. eexists. split; [vm_compute; reflexivity|]. by vm_compute. Qed.

(** ** What the file-system calls do when they return *)

Section FsRunFacts.
Variable cwd : string.

Lemma grows_refl (fs : gmap (list string) node) : grows fs fs.
Proof. by intros k. Qed.

Lemma grows_trans (fs1 fs2 fs3 : gmap (list string) node) :
  grows fs1 fs2 -> grows fs2 fs3 -> grows fs1 fs3.
Proof.
  intros H12 H23 k. destruct (H12 k) as [D12 F12], (H23 k) as [D23 F23].
  split; auto.
Qed.

Lemma existsSync_run (p : string) (w : world) :
  Fs.existsSync cwd p w
  = Ok (match Fs.lookup_path cwd (w_fs w) p with
        | Some _ => true
        | None => false
        end) w.
Proof. reflexivity. Qed.

Lemma mkdir_from_lookup (todo above : list string)
    (fs fs' : gmap (list string) node) :
  Fs.mkdir_from fs above todo = Some fs' ->
  forall k, fs' !! k = fs !! k \/ (fs !! k = None /\ fs' !! k = Some Dir).
Proof.
  revert above fs. induction todo as [|seg rest IH]; intros above fs Hrun k.
  - inversion Hrun. by left.
  - simpl in Hrun. destruct (fs !! (above ++ [seg])) as [[c|]|] eqn:Hk; [done|..].
    + by apply (IH _ _ Hrun).
    + destruct (IH _ _ Hrun k) as [Hsame|[Hnone Hdir]].
      * rewrite lookup_insert in Hsame. case_decide; [|by left].
        subst k. right. by rewrite Hk.
      * right. rewrite lookup_insert in Hnone. by case_decide.
Qed.

(** After a recursive creation the last directory of the way exists. *)
Lemma mkdir_from_last (todo above : list string)
    (fs fs' : gmap (list string) node) :
  Fs.mkdir_from fs above todo = Some fs' ->
  todo ≠ [] -> fs' !! (above ++ todo) = Some Dir.
Proof.
  revert above fs. induction todo as [|seg rest IH]; intros above fs Hrun Hne;
    [done|].
  simpl in Hrun.
  assert (above ++ seg :: rest = (above ++ [seg]) ++ rest) as Eq
    by (by rewrite <- app_assoc).
  destruct rest as [|seg' rest].
  - rewrite app_nil_r in Eq. simpl in Hrun.
    destruct (fs !! (above ++ [seg])) as [[c|]|] eqn:Hk; [done|..];
      inversion Hrun; subst; [done|]. by rewrite lookup_insert_eq.
  - rewrite Eq.
    destruct (fs !! (above ++ [seg])) as [[c|]|] eqn:Hk; [done|..];
      by apply (IH _ _ Hrun).
Qed.

Lemma mkdir_from_grows (todo above : list string)
    (fs fs' : gmap (list string) node) :
  Fs.mkdir_from fs above todo = Some fs' -> grows fs fs'.
Proof.
  intros Hrun k. unfold is_file.
  destruct (mkdir_from_lookup _ _ _ _ Hrun k) as [->|[Hn Hd]].
  - done.
  - split; [by rewrite Hn|]. intros [c Hc]. by rewrite Hn in Hc.
Qed.

Lemma mkdirSync_Ok (p : string) (w w' : world) :
  Fs.mkdirSync cwd p w = Ok tt w' ->
  exists fs',
    Fs.mkdir_from (w_fs w) [] (Fs.key cwd p) = Some fs'
    /\ w' = World fs' (w_trace w ++ [EvMkdir p]).
Proof.
  unfold Fs.mkdirSync, bind, log, get_fs, put_fs, throw. simpl.
  destruct (Fs.mkdir_from (w_fs w) [] (Fs.key cwd p)) as [fs'|]; [|done].
  intros H. inversion H. by exists fs'.
Qed.

(** A write that returns has stored the data at the node of the path. *)
Lemma writeFileSync_Ok (p data : string) (w w' : world) :
  Fs.writeFileSync cwd p data w = Ok tt w' ->
  Fs.key cwd p ≠ []
  /\ Fs.node_at (w_fs w) (removelast (Fs.key cwd p)) = Some Dir
  /\ w_fs w !! Fs.key cwd p ≠ Some Dir
  /\ w' = World (<[Fs.key cwd p := File data]> (w_fs w))
            (w_trace w ++ [EvWrite p data]).
Proof.
  unfold Fs.writeFileSync, bind, log, get_fs, put_fs, throw.
  cbv beta iota zeta. cbn [w_fs w_trace].
  destruct (Path.ends_with_sep p); [done|].
  destruct (Fs.key cwd p) as [|seg k] eqn:Ek; [done|].
  destruct (Fs.node_at (w_fs w) (removelast (seg :: k))) as [[c|]|] eqn:Hp;
    [done| |done].
  unfold Fs.node_at at 1.
  destruct (w_fs w !! (seg :: k)) as [[c|]|] eqn:Hk; [|done|];
    intros H; inversion H; repeat split; done.
Qed.

Lemma writeFileSync_run (p data : string) (w : world) :
  Path.ends_with_sep p = false ->
  Fs.key cwd p ≠ [] ->
  Fs.node_at (w_fs w) (removelast (Fs.key cwd p)) = Some Dir ->
  w_fs w !! Fs.key cwd p ≠ Some Dir ->
  Fs.writeFileSync cwd p data w
  = Ok tt (World (<[Fs.key cwd p := File data]> (w_fs w))
             (w_trace w ++ [EvWrite p data])).
Proof.
  intros Hsep Hkey Hparent Hnode.
  unfold Fs.writeFileSync, bind, log, get_fs, put_fs, throw.
  cbv beta iota zeta. cbn [w_fs w_trace].
  rewrite Hsep. destruct (Fs.key cwd p) as [|seg k] eqn:Ek; [done|].
  rewrite Hparent. unfold Fs.node_at.
  by destruct (w_fs w !! (seg :: k)) as [[c|]|] eqn:Hk.
Qed.

Lemma write_grows (fs : gmap (list string) node) (k : list string)
    (data : string) :
  fs !! k ≠ Some Dir -> grows fs (<[k := File data]> fs).
Proof.
  intros Hk k'. unfold is_file. rewrite lookup_insert. case_decide.
  - subst k'. split; [done|]. intros _. by eexists.
  - done.
Qed.

Lemma when_mkdir_Ok (b : bool) (p : string) (w w' : world) :
  when b (Fs.mkdirSync cwd p) tt w = Ok tt w' ->
  grows (w_fs w) (w_fs w')
  /\ (b = true -> Fs.key cwd p ≠ [] -> w_fs w' !! Fs.key cwd p = Some Dir)
  /\ (b = false -> w' = w).
Proof.
  destruct b; simpl.
  - intros H. apply mkdirSync_Ok in H as (fs' & Hrun & ->). simpl.
    split; [by apply (mkdir_from_grows _ _ _ _ Hrun)|]. split; [|done].
    intros _ Hne. by apply (mkdir_from_last _ [] _ _ Hrun).
  - intros H. inversion H. split; [apply grows_refl|]. done.
Qed.

End FsRunFacts.

(** ** What a successful install leaves behind *)

Section InstallFiles.
Variable cwd : string.
Variable net : list event -> string -> transport.

Lemma lookup_path_grows (fs fs' : gmap (list string) node) (p : string) :
  grows fs fs' ->
  is_Some (Fs.lookup_path cwd fs p) -> is_Some (Fs.lookup_path cwd fs' p).
Proof.
  intros Hg. unfold Fs.lookup_path, Fs.node_at.
  destruct (Fs.key cwd p) as [|seg k]; [done|].
  destruct (Hg (seg :: k)) as [HD HF].
  destruct (fs !! (seg :: k)) as [[c|]|] eqn:E.
  - destruct (HF ltac:(by exists c)) as [c' ->].
    by destruct (Path.ends_with_sep p).
  - by rewrite HD.
  - by intros [? ?].
Qed.

Lemma node_at_grows (fs fs' : gmap (list string) node) (k : list string) :
  grows fs fs' -> Fs.node_at fs k = Some Dir -> Fs.node_at fs' k = Some Dir.
Proof.
  intros Hg. destruct k as [|seg k]; [done|]. simpl. apply Hg.
Qed.

Lemma existsSync_present (p : string) (w : world) :
  is_Some (Fs.lookup_path cwd (w_fs w) p) ->
  Fs.existsSync cwd p w = Ok true w.
Proof. intros [n Hn]. rewrite existsSync_run. by rewrite Hn. Qed.

(** The idiom of lines 264-266 and 370-372: afterwards the path exists,
    and nothing happened if it existed before. *)
Lemma ensure_dir_Ok (p : string) (w w0 w1 : world) (present : bool) (u : unit) :
  Fs.existsSync cwd p w = Ok present w0 ->
  when (negb present) (Fs.mkdirSync cwd p) tt w0 = Ok u w1 ->
  grows (w_fs w) (w_fs w1)
  /\ is_Some (Fs.lookup_path cwd (w_fs w1) p).
Proof.
  rewrite existsSync_run. intros Hex Hmk. inversion Hex; subst w0.
  destruct u. destruct (when_mkdir_Ok cwd _ _ _ _ Hmk) as (Hg & Hnew & Hsame).
  split; [done|].
  destruct (Fs.lookup_path cwd (w_fs w) p) as [n|] eqn:E; subst present.
  - rewrite (Hsame eq_refl). by rewrite E.
  - unfold Fs.lookup_path, Fs.node_at in *.
    destruct (Fs.key cwd p) as [|seg k] eqn:Ek; [done|].
    by rewrite (Hnew eq_refl ltac:(done)).
Qed.

Lemma fetchText_fs (url : string) (w w' : world) (r : fetch_result) :
  Installer.fetchText net url w = Ok r w' -> w_fs w' = w_fs w.
Proof.
  intros H. destruct (fetchText_run net url w) as (r' & Hrun & _).
  rewrite H in Hrun. by inversion Hrun.
Qed.

(** The loop only adds nodes, and each reference it reports as fetched
    is afterwards a regular file at the path it was written to. *)
Lemma loop_files (baseUrl skillDir : string) (refs fetched failed : list string)
    (w w' : world) (lists : list string * list string) :
  Installer.install_refs cwd net baseUrl skillDir refs fetched failed w
  = Ok lists w' ->
  grows (w_fs w) (w_fs w')
  /\ exists extra,
       lists.1 = fetched ++ extra
       /\ Forall (fun ref =>
                    is_file (w_fs w') (Fs.key cwd (Path.join [skillDir; ref])))
            extra.
Proof.
  revert fetched failed w.
  induction refs as [|ref rest IH]; intros fetched failed w Hrun.
  - inversion Hrun; subst. split; [apply grows_refl|]. exists [].
    by rewrite app_nil_r.
  - simpl in Hrun.
    destruct (Installer.isSafePath cwd skillDir ref); simpl in Hrun; [|eauto].
    apply bind_Ok_inv in Hrun as (refResult & w1 & Hfetch & Hrun).
    apply fetchText_fs in Hfetch.
    destruct (ok refResult).
    2:{ destruct (IH _ _ _ Hrun) as (Hg & extra & E & F).
        rewrite Hfetch in Hg. eauto. }
    apply bind_Ok_inv in Hrun as (present & w2 & Hex & Hrun).
    apply bind_Ok_inv in Hrun as (u & w3 & Hmk & Hrun).
    apply bind_Ok_inv in Hrun as ([] & w4 & Hwr & Hrun).
    destruct (ensure_dir_Ok _ _ _ _ _ _ Hex Hmk) as (Hg13 & _).
    apply writeFileSync_Ok in Hwr as (Hkey & Hparent & Hnode & ->).
    destruct (IH _ _ _ Hrun) as (Hg & extra & E & F). cbn [w_fs] in Hg.
    split.
    + rewrite <- Hfetch. eapply grows_trans; [apply Hg13|].
      eapply grows_trans; [by apply write_grows|]. apply Hg.
    + exists (ref :: extra). rewrite E, <- app_assoc. split; [done|].
      constructor; [|done]. apply Hg. eexists. apply lookup_insert_eq.
Qed.

End InstallFiles.

(** X11. When install_skill returns, every entry of the fetched list of
    its report, the primary file name and each reference alike, is
    afterwards a regular file at the path it was written to, the join of
    the directory of the skill and the entry. *)
Theorem fetched_files_exist
    (cwd : string) (net : list event -> string -> transport)
    (params : install_params) (w w' : world) (r : tool_result) :
  Installer.install_skill cwd net params w = Ok r w' ->
  let url := JsString.or_default (JsString.trim <$> p_url params) EmptyString in
  let skillDir :=
    Path.join [Installer.skillsDir cwd;
               Installer.skillName (p_name params) url] in
  Forall (fun entry =>
            is_file (w_fs w') (Fs.key cwd (Path.join [skillDir; entry])))
    (fetched_of (result_details r)).
Proof.
  intros Hrun url skillDir. unfold Installer.install_skill in Hrun.
  cbv zeta in Hrun. fold url in Hrun. fold skillDir in Hrun.
  destruct (negb (JsString.truthy url)).
  { inversion Hrun; subst. constructor. }
  destruct (negb (JsString.startsWith url "http://")
            && negb (JsString.startsWith url "https://")).
  { inversion Hrun; subst. constructor. }
  apply bind_Ok_inv in Hrun as (? & w1 & _ & Hrun).
  apply bind_Ok_inv in Hrun as (mainResult & w2 & _ & Hrun).
  destruct (negb (ok mainResult)).
  { inversion Hrun; subst. constructor. }
  apply bind_Ok_inv in Hrun as (present & w3 & _ & Hrun).
  apply bind_Ok_inv in Hrun as (? & w4 & _ & Hrun).
  apply bind_Ok_inv in Hrun as ([] & w5 & Hwr & Hrun).
  apply bind_Ok_inv in Hrun as (lists & w6 & Hloop & Hrun).
  inversion Hrun; subst. cbn [result_details fetched_of].
  apply writeFileSync_Ok in Hwr as (Hkey & Hparent & Hnode & ->).
  destruct (loop_files _ _ _ _ _ _ _ _ _ _ Hloop) as (Hg & extra & -> & F).
  cbn [w_fs] in Hg. constructor; [|done].
  apply Hg. eexists. apply lookup_insert_eq.
Qed.

Lemma fetched_files_exist_witness :
  let url :=
    JsString.or_default
      (JsString.trim <$> p_url (InstallParams (Some skill_url) None))
      EmptyString in
  let skillDir :=
    Path.join [Installer.skillsDir agent_cwd; Installer.skillName None url] in
  Forall (fun entry =>
            is_file
              (<[ ["home"; "agent"; "skills"; "my-skill"; "config.json"]
                    := File "{}" ]>
                 (<[ ["home"; "agent"; "skills"; "my-skill"; "my-skill.md"]
                       := File scenario_B ]>
                    (<[ ["home"; "agent"; "skills"; "my-skill"] := Dir ]>
                       (<[ ["home"; "agent"; "skills"] := Dir ]> agent_fs))))
              (Fs.key agent_cwd (Path.join [skillDir; entry])))
    (fetched_of (Installed "my-skill" ["my-skill.md"; "config.json"] [])).
Proof.
  apply (fetched_files_exist agent_cwd net_B
           (InstallParams (Some skill_url) None) agent_world
           (World _
              [EvMkdir "/home/agent/skills";
               EvFetch "https://example.com/skills/my-skill.md";
               EvMkdir "/home/agent/skills/my-skill";
               EvWrite "/home/agent/skills/my-skill/my-skill.md" scenario_B;
               EvFetch "https://example.com/skills/config.json";
               EvWrite "/home/agent/skills/my-skill/config.json" "{}"])
           (ToolResult
              (Installer.install_summary "my-skill"
                 ["my-skill.md"; "config.json"] [])
              (Installed "my-skill" ["my-skill.md"; "config.json"] []))).
  vm_compute. reflexivity.
Defined.

Section InstallAgain.
Variable cwd : string.
Variable net : list event -> string -> transport.

Lemma ensureSkillsDir_Ok (w w1 : world) (u : unit) :
  Installer.ensureSkillsDir cwd w = Ok u w1 ->
  grows (w_fs w) (w_fs w1)
  /\ is_Some (Fs.lookup_path cwd (w_fs w1) (Installer.skillsDir cwd)).
Proof.
  intros H. unfold Installer.ensureSkillsDir in H.
  apply bind_Ok_inv in H as (present & w0 & Hex & Hmk).
  by apply (ensure_dir_Ok cwd _ _ _ _ _ _ Hex Hmk).
Qed.

Lemma ensureSkillsDir_present (w : world) :
  is_Some (Fs.lookup_path cwd (w_fs w) (Installer.skillsDir cwd)) ->
  Installer.ensureSkillsDir cwd w = Ok tt w.
Proof.
  intros H. unfold Installer.ensureSkillsDir, bind.
  by rewrite existsSync_present.
Qed.

Lemma fetchText_answer (url text : string) (st : N) (w : world) :
  (forall tr, net tr url = Responds true st (BodyText text)) ->
  Installer.fetchText net url w
  = Ok (FetchResult true text st)
       (World (w_fs w) (w_trace w ++ [EvFetch url])).
Proof.
  intros Hnet. destruct (fetchText_run net url w) as (r & Hrun & Hr).
  rewrite Hnet in Hr. by subst r.
Qed.

End InstallAgain.

(** X12. Let the network always serve, at the URL, the same document, in
    which the scanner finds no reference.  A successful install then
    reports exactly the primary file and no failure and has stored the
    document under that name; and installing again from the world it
    left gives the same report with two calls only, the request and the
    write, and leaves the file system exactly as it was. *)
Theorem install_again_changes_nothing
    (cwd : string) (net : list event -> string -> transport)
    (params : install_params) (st : N) (document : string)
    (w w' : world) (r : tool_result) :
  let url := JsString.or_default (JsString.trim <$> p_url params) EmptyString in
  (forall tr, net tr url = Responds true st (BodyText document)) ->
  Scanner.findReferencedFiles document = [] ->
  Installer.install_skill cwd net params w = Ok r w' ->
  success (result_details r) = true ->
  let name := Installer.skillName (p_name params) url in
  let dest :=
    Path.join [Path.join [Installer.skillsDir cwd; name];
               Installer.mainFilename url] in
  result_details r = Installed name [Installer.mainFilename url] []
  /\ w_fs w' !! Fs.key cwd dest = Some (File document)
  /\ Installer.install_skill cwd net params w'
     = Ok r (World (w_fs w')
               (w_trace w' ++ [EvFetch url; EvWrite dest document])).
Proof.
  intros url Hnet Hrefs Hrun Hs name dest.
  unfold Installer.install_skill in *. cbv zeta in *.
  fold url in Hrun |- *. fold name in Hrun |- *.
  set (skillDir := Path.join [Installer.skillsDir cwd; name]) in *.
  fold dest in Hrun |- *.
  destruct (negb (JsString.truthy url)) eqn:Hv1.
  { inversion Hrun; subst. done. }
  destruct (negb (JsString.startsWith url "http://")
            && negb (JsString.startsWith url "https://")) eqn:Hv2.
  { inversion Hrun; subst. done. }
  apply bind_Ok_inv in Hrun as (u & w1 & Hensure & Hrun).
  apply ensureSkillsDir_Ok in Hensure as (Hg1 & Hroot).
  unfold bind at 1 in Hrun. rewrite (fetchText_answer net _ _ _ _ Hnet) in Hrun.
  cbn [ok text negb] in Hrun. rewrite Hrefs in Hrun.
  apply bind_Ok_inv in Hrun as (present & w3 & Hex & Hrun).
  apply bind_Ok_inv in Hrun as (u' & w4 & Hmk & Hrun).
  destruct (ensure_dir_Ok cwd _ _ _ _ _ _ Hex Hmk) as (Hg2 & Hdir).
  cbn [w_fs] in Hg2.
  apply bind_Ok_inv in Hrun as ([] & w5 & Hwr & Hrun).
  pose proof Hwr as Hwr'.
  apply writeFileSync_Ok in Hwr' as (Hkey & Hparent & Hnode & ->).
  simpl in Hrun. inversion Hrun; subst r w'. clear Hrun. cbn [w_fs w_trace].
  split; [done|]. split; [apply lookup_insert_eq|].
  assert (grows (w_fs w4) (<[Fs.key cwd dest := File document]> (w_fs w4)))
    as Hg3 by (by apply write_grows).
  unfold bind at 1. rewrite ensureSkillsDir_present.
  2:{ cbn [w_fs]. eapply lookup_path_grows; [apply Hg3|].
      eapply lookup_path_grows; [apply Hg2|]. done. }
  unfold bind at 1. rewrite (fetchText_answer net _ _ _ _ Hnet).
  cbn [ok text negb w_fs w_trace]. rewrite Hrefs.
  unfold bind at 1. rewrite existsSync_present.
  2:{ cbn [w_fs]. eapply lookup_path_grows; [apply Hg3|]. done. }
  cbn [negb when]. unfold bind at 1. unfold ret at 1.
  unfold bind at 1. rewrite writeFileSync_run.
  - cbn [w_fs w_trace Installer.install_refs]. unfold bind, ret.
    cbn [fst snd]. rewrite insert_insert_eq. f_equal. f_equal.
    by rewrite <- !app_assoc.
  - unfold Fs.writeFileSync, bind, log, get_fs, throw in Hwr.
    cbv beta iota zeta in Hwr. by destruct (Path.ends_with_sep dest).
  - done.
  - cbn [w_fs]. by apply (node_at_grows _ _ _ Hg3).
  - cbn [w_fs]. by rewrite lookup_insert_eq.
Qed.

Lemma install_again_changes_nothing_witness :
  let params := InstallParams (Some skill_url) (Some "notes") in
  let url := JsString.or_default (JsString.trim <$> p_url params) EmptyString in
  let name := Installer.skillName (p_name params) url in
  let dest :=
    Path.join [Path.join [Installer.skillsDir agent_cwd; name];
               Installer.mainFilename url] in
  let r :=
    ToolResult (Installer.install_summary "notes" ["my-skill.md"] [])
      (Installed "notes" ["my-skill.md"] []) in
  let w' :=
    World
      (<[ ["home"; "agent"; "skills"; "notes"; "my-skill.md"]
            := File "no references here" ]>
         (<[ ["home"; "agent"; "skills"; "notes"] := Dir ]>
            (<[ ["home"; "agent"; "skills"] := Dir ]> agent_fs)))
      [EvMkdir "/home/agent/skills";
       EvFetch "https://example.com/skills/my-skill.md";
       EvMkdir "/home/agent/skills/notes";
       EvWrite "/home/agent/skills/notes/my-skill.md" "no references here"] in
  result_details r = Installed name [Installer.mainFilename url] []
  /\ w_fs w' !! Fs.key agent_cwd dest = Some (File "no references here")
  /\ Installer.install_skill agent_cwd
       (fun _ _ => Responds true 200 (BodyText "no references here")) params w'
     = Ok r (World (w_fs w')
               (w_trace w'
                ++ [EvFetch url; EvWrite dest "no references here"])).
Proof.
  apply (install_again_changes_nothing agent_cwd
           (fun _ _ => Responds true 200 (BodyText "no references here"))
           (InstallParams (Some skill_url) (Some "notes")) 200
           "no references here" agent_world).
  - intros tr. reflexivity.
  - reflexivity.
  - vm_compute. reflexivity.
  - reflexivity.
Defined.

(** ** What a match consumes *)

Section RegexFacts.

Lemma all_chars_app (p : ascii -> bool) (a b : string) :
  JsString.all_chars p (a +:+ b)
  = JsString.all_chars p a && JsString.all_chars p b.
Proof.
  induction a as [|c a IH]; [done|]. rewrite app_cons. simpl.
  by rewrite IH, andb_assoc.
Qed.

Lemma all_chars_impl (p q : ascii -> bool) (s : string) :
  (forall c, p c = true -> q c = true) ->
  JsString.all_chars p s = true -> JsString.all_chars q s = true.
Proof.
  intros Hpq. induction s as [|c s IH]; [done|]. simpl. intros H.
  apply andb_true_iff in H as [Hc Hs]. by rewrite (Hpq c Hc), IH.
Qed.

(** A greedy repetition consumes a run of characters of its class, at
    least as many as its lower bound. *)
Lemma rep_consumes {A} (p : ascii -> bool) (s : string) :
  forall (lo : nat) (hi : option nat) (pos : nat)
         (k : nat -> string -> option A) (x : A),
    Regex.rep p lo hi pos s k = Some x ->
    exists a b,
      s = a +:+ b /\ JsString.all_chars p a = true
      /\ lo <= String.length a
      /\ k (pos + String.length a) b = Some x.
Proof.
  assert (forall (lo pos : nat) (k : nat -> string -> option A) (x : A) s0,
            (if (lo =? 0)%nat then k pos s0 else None) = Some x ->
            exists a b,
              s0 = a +:+ b /\ JsString.all_chars p a = true
              /\ lo <= String.length a
              /\ k (pos + String.length a) b = Some x) as Hstop.
  { intros lo pos k x s0 H. destruct (Nat.eqb_spec lo 0) as [->|]; [|done].
    exists EmptyString, s0. simpl. by rewrite Nat.add_0_r. }
  induction s as [|c s IH]; intros lo hi pos k x H; simpl in H.
  - by apply Hstop.
  - destruct (p c && Regex.may_take hi) eqn:E; [|by apply Hstop].
    destruct (Regex.rep p (pred lo) (Regex.taken hi) (S pos) s k) as [y|] eqn:R;
      [|by apply Hstop].
    inversion H; subst y.
    destruct (IH _ _ _ _ _ R) as (a & b & -> & Ha & Hlo & Hk).
    exists (String c a), b. apply andb_true_iff in E as [Hc _].
    simpl. rewrite Hc, Ha. split; [done|]. split; [done|]. split; [lia|].
    by rewrite <- Nat.add_succ_comm.
Qed.

(** A match consumes characters of the alphabet of the pattern, at least
    its minimal length; it starts at index 0 when the pattern starts with
    the start anchor and ends the input when it ends with the end
    anchor. *)
Lemma run_consumes {A} (r : Regex.regex) :
  forall (pos : nat) (s : string) (caps : Regex.captures)
         (k : nat -> string -> Regex.captures -> option A) (x : A),
    Regex.run r pos s caps k = Some x ->
    exists a b caps',
      s = a +:+ b /\ JsString.all_chars (alphabet r) a = true
      /\ min_length r <= String.length a
      /\ (starts_at_bol r = true -> pos = 0)
      /\ (ends_at_eol r = true -> b = EmptyString)
      /\ k (pos + String.length a) b caps' = Some x.
Proof.
  induction r as [p|p lo hi|r1 IH1 r2 IH2|n r1 IH1| |];
    intros pos s caps k x H; simpl in H.
  - destruct s as [|c s]; [done|]. destruct (p c) eqn:Hc; [|done].
    exists (String c EmptyString), s, caps. simpl. rewrite Hc.
    repeat split; try done. by rewrite Nat.add_1_r.
  - apply rep_consumes in H as (a & b & -> & Ha & Hlo & Hk).
    exists a, b, caps. by repeat split.
  - apply IH1 in H as (a1 & s1 & caps1 & -> & Ha1 & Hl1 & Hb1 & _ & H).
    apply IH2 in H as (a2 & b & caps2 & -> & Ha2 & Hl2 & _ & He2 & H).
    assert (JsString.all_chars (alphabet (Regex.Seq r1 r2)) a1 = true) as Hx1.
    { eapply all_chars_impl; [|apply Ha1]. intros c Hc. simpl. by rewrite Hc. }
    assert (JsString.all_chars (alphabet (Regex.Seq r1 r2)) a2 = true) as Hx2.
    { eapply all_chars_impl; [|apply Ha2]. intros c Hc. simpl. rewrite Hc.
      apply orb_true_r. }
    exists (a1 +:+ a2), b, caps2.
    rewrite app_assoc_str, all_chars_app, Hx1, Hx2, length_app_str.
    cbn [min_length starts_at_bol ends_at_eol].
    repeat split; try done; [lia|]. by rewrite Nat.add_assoc.
  - apply IH1 in H as (a & b & caps1 & -> & Ha & Hl & Hb & He & H).
    exists a, b. eexists. repeat split; try done.
  - destruct (Nat.eqb_spec pos 0) as [->|]; [|done].
    exists EmptyString, s, caps. by repeat split.
  - destruct s as [|c s]; [|done].
    exists EmptyString, EmptyString, caps. simpl. rewrite Nat.add_0_r.
    by repeat split.
Qed.

(** A successful test has a match somewhere in the input. *)
Lemma test_from_sound (r : Regex.regex) (s : string) :
  forall pos,
    Regex.test_from r pos s = true ->
    exists pre a b,
      s = pre +:+ a +:+ b /\ JsString.all_chars (alphabet r) a = true
      /\ min_length r <= String.length a
      /\ (starts_at_bol r = true -> pos + String.length pre = 0)
      /\ (ends_at_eol r = true -> b = EmptyString).
Proof.
  induction s as [|c s IH]; intros pos H; simpl in H.
  - unfold Regex.match_here in H.
    destruct (Regex.run r pos EmptyString [] _) as [y|] eqn:R; [|done].
    apply run_consumes in R as (a & b & caps' & Hs & Ha & Hl & Hb & He & _).
    exists EmptyString, a, b. simpl. rewrite Nat.add_0_r. by repeat split.
  - unfold Regex.match_here in H.
    destruct (Regex.run r pos (String c s) [] _) as [y|] eqn:R.
    + apply run_consumes in R as (a & b & caps' & Hs & Ha & Hl & Hb & He & _).
      exists EmptyString, a, b. simpl. rewrite Nat.add_0_r. by repeat split.
    + apply IH in H as (pre & a & b & -> & Ha & Hl & Hb & He).
      exists (String c pre), a, b. repeat split; try done.
      intros Hbol. specialize (Hb Hbol). simpl. lia.
Qed.

(** The test on one anchored pattern: the whole input is made of
    characters of its alphabet. *)
Lemma test_anchored (r : Regex.regex) (s : string) :
  starts_at_bol r = true -> ends_at_eol r = true ->
  Regex.test r s = true ->
  JsString.all_chars (alphabet r) s = true
  /\ min_length r <= String.length s.
Proof.
  intros Hbol Heol H. unfold Regex.test in H.
  apply test_from_sound in H as (pre & a & b & -> & Ha & Hl & Hb & He).
  specialize (Hb Hbol). rewrite (He Heol), app_empty_r.
  destruct pre; [done|]. simpl in Hb. lia.
Qed.

End RegexFacts.

(** ** Segments are substrings *)

Section IncludesFacts.

Lemma includes_later (c : ascii) (s p : string) :
  JsString.includes s p = true -> JsString.includes (String c s) p = true.
Proof. intros H. simpl. rewrite H. apply orb_true_r. Qed.

Lemma includes_prefix (s p : string) :
  JsString.startsWith s p = true -> JsString.includes s p = true.
Proof. intros H. destruct s; simpl in *; by rewrite H. Qed.

Lemma split_first_prefix (s : string) :
  exists seg segs,
    JsString.split "/" s = seg :: segs /\ JsString.startsWith s seg = true.
Proof.
  induction s as [|c s (seg & segs & E & Hp)]; [by eexists _, _|].
  simpl. destruct (Ascii.eqb c "/"); [by eexists _, _|].
  rewrite E. eexists _, _. split; [done|]. simpl.
  by rewrite Ascii.eqb_refl.
Qed.

(** Every segment of a string occurs in it. *)
Lemma segment_included (s seg : string) :
  seg ∈ JsString.split "/" s -> JsString.includes s seg = true.
Proof.
  induction s as [|c s IH]; simpl; intros H.
  - apply list_elem_of_singleton in H. by subst seg.
  - destruct (Ascii.eqb c "/").
    + apply elem_of_cons in H as [->|H]; [done|].
      rewrite (IH H). apply orb_true_r.
    + destruct (split_first_prefix s) as (seg0 & segs & E & Hp).
      rewrite E in H, IH. apply elem_of_cons in H as [->|H].
      * simpl. by rewrite Ascii.eqb_refl, Hp.
      * rewrite IH by (by right). apply orb_true_r.
Qed.

(** Without double-dot segments nothing is removed from what is kept. *)
Lemma fold_norm_no_dotdot (segs kept : list string) :
  ".." ∉ segs ->
  exists more,
    fold_left (Path.norm_step false) segs kept = more ++ kept.
Proof.
  revert kept. induction segs as [|seg segs IH]; intros kept H.
  - by exists [].
  - apply not_elem_of_cons in H as [Hseg Hrest]. simpl.
    assert (Path.norm_step false kept seg = kept
            \/ Path.norm_step false kept seg = seg :: kept) as [-> | ->].
    { unfold Path.norm_step. destruct (String.eqb seg EmptyString); [by left|].
      destruct (String.eqb seg "."); [by left|].
      destruct (String.eqb_spec seg ".."); [done|by right]. }
    + by apply IH.
    + destruct (IH (seg :: kept) Hrest) as (more & ->).
      exists (more ++ [seg]). by rewrite <- app_assoc.
Qed.

End IncludesFacts.

(** X13. A string kept by the backtick rule is not empty, is made of
    word characters, hyphens, slashes and dots only, does not start with
    a dot and has no double-dot segment.  So, unless it starts with a
    slash, the guard of a normalized directory other than the top never
    blocks it, and it is written below that directory or at it. *)
Theorem backtick_reference_safe
    (cwd : string) (S : list string) (ref : string) :
  S ≠ [] ->
  forallb Path.is_normal_segment S = true ->
  Scanner.keeps_backtick ref = true ->
  JsString.truthy ref = true
  /\ JsString.all_chars Scanner.is_path_char ref = true
  /\ JsString.startsWith ref "." = false
  /\ (".." ∉ JsString.split "/" ref)
  /\ (JsString.startsWith ref "/" = false ->
      Installer.isSafePath cwd (Path.absolute_of S) ref = true
      /\ S `prefix_of` Fs.key cwd (Path.join [Path.absolute_of S; ref])).
Proof.
  intros Hne HS Hkeep. apply normal_Forall in HS.
  unfold Scanner.keeps_backtick in Hkeep.
  apply andb_true_iff in Hkeep as [Hkeep Hdd].
  apply andb_true_iff in Hkeep as [Htest Hdot].
  apply negb_true_iff in Hdd, Hdot.
  apply test_anchored in Htest as [Hchars Hlen]; [|done..].
  assert (".." ∉ JsString.split "/" ref) as Hsegs.
  { intros Hin. apply segment_included in Hin. congruence. }
  split; [apply truthy_length; simpl in Hlen; lia|].
  split.
  { eapply all_chars_impl; [|apply Hchars]. intros c Hc. simpl in Hc.
    by rewrite orb_false_r in Hc. }
  split; [done|]. split; [done|]. intros Hrel.
  assert (S `prefix_of` joined_segments S ref) as Hpre.
  { unfold joined_segments.
    destruct (fold_norm_no_dotdot (JsString.split "/" ref) (rev S) Hsegs)
      as (more & ->).
    rewrite rev_app_distr, rev_involutive. by apply prefix_app_r. }
  split.
  - apply isSafePath_segments; [done..|].
    unfold Path.resolved_segments. rewrite Hrel. exact Hpre.
  - by rewrite key_join.
Qed.

Lemma backtick_reference_safe_witness :
  JsString.truthy "assets/./img/logo.png" = true
  /\ JsString.all_chars Scanner.is_path_char "assets/./img/logo.png" = true
  /\ JsString.startsWith "assets/./img/logo.png" "." = false
  /\ (".." ∉ JsString.split "/" "assets/./img/logo.png")
  /\ (JsString.startsWith "assets/./img/logo.png" "/" = false ->
      Installer.isSafePath agent_cwd
        (Path.absolute_of ["home"; "agent"; "skills"; "s"])
        "assets/./img/logo.png" = true
      /\ ["home"; "agent"; "skills"; "s"]
         `prefix_of` Fs.key agent_cwd
                       (Path.join
                          [Path.absolute_of ["home"; "agent"; "skills"; "s"];
                           "assets/./img/logo.png"])).
Proof.
  apply (backtick_reference_safe agent_cwd ["home"; "agent"; "skills"; "s"]
           "assets/./img/logo.png"); (discriminate || reflexivity).
Defined.

(** ** The package sources that pass validation *)

Example valid_sources :
  map Packages.isValidSource
    ["npm:@scope/name"; "npm:name@1.2"; "npm:name@^1.2"; "git:github.com/u/r";
     "git:github.com/u/r@v1"; "git:github.com/u/r#main/x";
     "https://github.com/user/repo"; "http://github.com/user/repo.git";
     "https://github.com/user/repo/tree/main"]
  = [true; true; true; true; true; true; true; true; true].
Proof. reflexivity. Qed.

Example invalid_sources :
  map Packages.isValidSource
    [EmptyString; "name"; "npm:"; "npm:@scope/"; "npm:a b"; "npm:a@";
     "git:github.com/u"; "git:github.com/u/r@"; "https://github.com/user";
     "ftp://github.com/user/repo"; "see https://github.com/user/repo";
     "npm:name; ls"]
  = [false; false; false; false; false; false; false; false; false; false;
     false; false].
Proof. reflexivity. Qed.

Example install_command_runs :
  Packages.install_command (fun _ => Packages.ToolReturns (Some "0 ERRORS"))
    "  npm:@scope/name  "
  = [Packages.Notify "Installing npm:@scope/name..." "info";
     Packages.CallTool "bash" "pi install npm:@scope/name 2>&1";
     Packages.Notify "Install failed — check logs" "error"].
Proof. reflexivity. Qed.

Section PatternFacts.
Import Packages.

Lemma prun_consumes {A} (p : pattern) :
  forall (pos : nat) (s : string) (caps : Regex.captures)
         (k : nat -> string -> Regex.captures -> option A) (x : A),
    prun p pos s caps k = Some x ->
    exists a b caps',
      s = a +:+ b /\ JsString.all_chars (palphabet p) a = true
      /\ (pstarts_at_bol p = true -> pos = 0)
      /\ (pends_at_eol p = true -> b = EmptyString)
      /\ k (pos + String.length a) b caps' = Some x.
Proof.
  assert (forall (q : pattern) pos s caps
                 (k : nat -> string -> Regex.captures -> option A) x,
            pstarts_at_bol q = false -> pends_at_eol q = false ->
            k pos s caps = Some x ->
            exists a b caps',
              s = a +:+ b /\ JsString.all_chars (palphabet q) a = true
              /\ (pstarts_at_bol q = true -> pos = 0)
              /\ (pends_at_eol q = true -> b = EmptyString)
              /\ k (pos + String.length a) b caps' = Some x) as Hskip.
  { intros q pos s caps k x Hb He Hk. exists EmptyString, s, caps.
    rewrite Hb, He. simpl. rewrite Nat.add_0_r. by repeat split. }
  induction p as [r|p1 IH1 p2 IH2|p1 IH1|p1 IH1 p2 IH2];
    intros pos s caps k x H; simpl in H.
  - apply run_consumes in H as (a & b & caps' & -> & Ha & _ & Hb & He & Hk).
    exists a, b, caps'. by repeat split.
  - apply IH1 in H as (a1 & s1 & caps1 & -> & Ha1 & Hb1 & _ & H).
    apply IH2 in H as (a2 & b & caps2 & -> & Ha2 & _ & He2 & H).
    assert (JsString.all_chars (palphabet (PSeq p1 p2)) a1 = true) as Hx1.
    { eapply all_chars_impl; [|apply Ha1]. intros c Hc. simpl. by rewrite Hc. }
    assert (JsString.all_chars (palphabet (PSeq p1 p2)) a2 = true) as Hx2.
    { eapply all_chars_impl; [|apply Ha2]. intros c Hc. simpl. rewrite Hc.
      apply orb_true_r. }
    exists (a1 +:+ a2), b, caps2.
    rewrite app_assoc_str, all_chars_app, Hx1, Hx2, length_app_str.
    cbn [pstarts_at_bol pends_at_eol].
    repeat split; try done. by rewrite Nat.add_assoc.
  - destruct (prun p1 pos s caps k) as [y|] eqn:R.
    + inversion H; subst y.
      apply IH1 in R as (a & b & caps' & -> & Ha & _ & _ & Hk).
      exists a, b, caps'. by repeat split.
    + by apply (Hskip (POpt p1) pos s caps k x).
  - destruct (prun p1 pos s caps k) as [y|] eqn:R.
    + inversion H; subst y.
      apply IH1 in R as (a & b & caps' & -> & Ha & _ & _ & Hk).
      exists a, b, caps'. repeat split; try done.
      eapply all_chars_impl; [|apply Ha]. intros c Hc. simpl. by rewrite Hc.
    + apply IH2 in H as (a & b & caps' & -> & Ha & _ & _ & Hk).
      exists a, b, caps'. repeat split; try done.
      eapply all_chars_impl; [|apply Ha]. intros c Hc. simpl. rewrite Hc.
      apply orb_true_r.
Qed.

Lemma ptest_from_sound (p : pattern) (s : string) :
  forall pos,
    ptest_from p pos s = true ->
    exists pre a b,
      s = pre +:+ a +:+ b /\ JsString.all_chars (palphabet p) a = true
      /\ (pstarts_at_bol p = true -> pos + String.length pre = 0)
      /\ (pends_at_eol p = true -> b = EmptyString).
Proof.
  induction s as [|c s IH]; intros pos H; simpl in H.
  - unfold pmatch_here in H.
    destruct (prun p pos EmptyString [] _) as [y|] eqn:R; [|done].
    apply prun_consumes in R as (a & b & caps' & Hs & Ha & Hb & He & _).
    exists EmptyString, a, b. simpl. rewrite Nat.add_0_r. by repeat split.
  - unfold pmatch_here in H.
    destruct (prun p pos (String c s) [] _) as [y|] eqn:R.
    + apply prun_consumes in R as (a & b & caps' & Hs & Ha & Hb & He & _).
      exists EmptyString, a, b. simpl. rewrite Nat.add_0_r. by repeat split.
    + apply IH in H as (pre & a & b & -> & Ha & Hb & He).
      exists (String c pre), a, b. repeat split; try done.
      intros Hbol. specialize (Hb Hbol). simpl. lia.
Qed.

(** A test on a pattern anchored at both ends: the whole input is made
    of characters of the pattern. *)
Lemma ptest_anchored (p : pattern) (s : string) :
  pstarts_at_bol p = true -> pends_at_eol p = true ->
  ptest p s = true -> JsString.all_chars (palphabet p) s = true.
Proof.
  intros Hbol Heol H. unfold ptest in H.
  apply ptest_from_sound in H as (pre & a & b & -> & Ha & Hb & He).
  specialize (Hb Hbol). rewrite (He Heol), app_empty_r.
  destruct pre; [done|]. simpl in Hb. lia.
Qed.

Lemma npm_alphabet (c : ascii) :
  palphabet npmPattern c = true -> is_source_char c = true.
Proof. destruct c as [[] [] [] [] [] [] [] []]; by vm_compute. Qed.

Lemma git_alphabet (c : ascii) :
  palphabet gitPattern c = true -> is_source_char c = true.
Proof. destruct c as [[] [] [] [] [] [] [] []]; by vm_compute. Qed.

(** A valid source is in URL form or is made of source characters. *)
Lemma valid_source_chars (s : string) :
  isValidSource s = true ->
  ptest httpsPattern s = true
  \/ JsString.all_chars is_source_char s = true.
Proof.
  unfold isValidSource. intros H.
  destruct (ptest npmPattern s) eqn:Hnpm.
  { right. apply ptest_anchored in Hnpm; [|done..].
    eapply all_chars_impl; [apply npm_alphabet|done]. }
  destruct (ptest gitPattern s) eqn:Hgit.
  { right. apply ptest_anchored in Hgit; [|done..].
    eapply all_chars_impl; [apply git_alphabet|done]. }
  left. by destruct (ptest httpsPattern s).
Qed.

End PatternFacts.

(** X14. A package source that passes isValidSource either matches the
    URL pattern or consists only of word characters and the characters
    - . ^ ~ > = < * @ / : #; in that case it holds no white space, quote,
    semicolon, ampersand, bar, dollar sign, backtick or parenthesis. *)
Theorem valid_source_alphabet (s : string) :
  Packages.isValidSource s = true ->
  Packages.ptest Packages.httpsPattern s = true
  \/ (JsString.all_chars is_source_char s = true
      /\ forall c,
           In c (list_ascii_of_string " '`;&|$()\")
           \/ Chars.is_space c = true \/ Chars.code c = 34 ->
           JsString.includes s (String c EmptyString) = false).
Proof.
  intros H. destruct (valid_source_chars s H) as [Hurl|Hchars]; [by left|].
  right. split; [done|]. intros c Hc.
  assert (is_source_char c = false) as Hno.
  { destruct Hc as [Hc|[Hc|Hc]].
    - simpl in Hc. repeat (destruct Hc as [<-|Hc]; [done|]). done.
    - destruct c as [[] [] [] [] [] [] [] []]; by vm_compute in Hc |- *.
    - destruct c as [[] [] [] [] [] [] [] []]; by vm_compute in Hc |- *. }
  clear H. induction s as [|d s IH]; [done|].
  simpl in Hchars. apply andb_true_iff in Hchars as [Hd Hs].
  cbn [JsString.includes JsString.startsWith].
  rewrite (IH Hs), orb_false_r.
  destruct (Ascii.eqb_spec c d) as [->|]; [congruence|done].
Qed.

Lemma valid_source_alphabet_witness :
  Packages.ptest Packages.httpsPattern "npm:@scope/name@^1.2" = true
  \/ (JsString.all_chars is_source_char "npm:@scope/name@^1.2" = true
      /\ forall c,
           In c (list_ascii_of_string " '`;&|$()\")
           \/ Chars.is_space c = true \/ Chars.code c = 34 ->
           JsString.includes "npm:@scope/name@^1.2" (String c EmptyString)
           = false).
Proof.
  apply (valid_source_alphabet "npm:@scope/name@^1.2"). reflexivity.
Defined.

Section GreedyFacts.
Import Packages.
Context {A : Type}.

(** A greedy repetition takes a whole run of its class when the rest of
    the pattern matches after the run. *)
Lemma rep_greedy (p : ascii -> bool) (k : nat -> string -> option A)
    (x : A) (b : string) :
  match b with EmptyString => True | String c _ => p c = false end ->
  forall a lo pos,
    JsString.all_chars p a = true -> lo <= String.length a ->
    k (pos + String.length a) b = Some x ->
    Regex.rep p lo None pos (a +:+ b) k = Some x.
Proof.
  intros Hb a. induction a as [|d a IH]; intros lo pos Ha Hlo Hk.
  - simpl in Hlo. assert (lo = 0) as -> by lia.
    simpl in Hk. rewrite Nat.add_0_r in Hk.
    change (EmptyString +:+ b) with b.
    destruct b as [|c b]; [done|]. simpl. by rewrite Hb.
  - simpl in Ha. apply andb_true_iff in Ha as [Hd Ha].
    change (String d a +:+ b) with (String d (a +:+ b)).
    cbn [Regex.rep Regex.taken Regex.may_take]. rewrite Hd.
    cbn [andb]. rewrite (IH (pred lo) (S pos)); [done|done| |].
    + simpl in Hlo. lia.
    + simpl in Hk. by rewrite Nat.add_succ_r in Hk.
Qed.

(** A repetition without a lower bound matches when the rest of the
    pattern matches everywhere. *)
Lemma rep_star_always (p : ascii -> bool) (k : nat -> string -> option A)
    (x : A) :
  (forall pos s, k pos s = Some x) ->
  forall s pos, Regex.rep p 0 None pos s k = Some x.
Proof.
  intros Hk s. induction s as [|c s IH]; intros pos; [apply Hk|].
  cbn [Regex.rep Regex.taken Regex.may_take pred].
  destruct (p c); cbn [andb]; [by rewrite IH|apply Hk].
Qed.

Lemma rep_plus_always (p : ascii -> bool) (k : nat -> string -> option A)
    (x : A) (c : ascii) (s : string) (pos : nat) :
  (forall pos s, k pos s = Some x) -> p c = true ->
  Regex.rep p 1 None pos (String c s) k = Some x.
Proof.
  intros Hk Hc. cbn [Regex.rep Regex.taken Regex.may_take pred].
  rewrite Hc. cbn [andb]. by rewrite (rep_star_always p k x Hk).
Qed.

End GreedyFacts.

Section UrlFacts.
Import Packages.

Lemma optional_always (p : pattern) (pos : nat) (s : string)
    (caps : Regex.captures) :
  prun (POpt p) pos s caps (fun _ _ _ => Some tt) = Some tt.
Proof. simpl. by destruct (prun p pos s caps _) as [[]|]. Qed.

Lemma optional_taken {A} (p : pattern) (pos : nat) (s : string)
    (caps : Regex.captures) (k : nat -> string -> Regex.captures -> option A)
    (x : A) :
  prun p pos s caps k = Some x -> prun (POpt p) pos s caps k = Some x.
Proof. intros H. simpl. by rewrite H. Qed.

(** The part of the URL pattern after the scheme matches three names
    separated by slashes, whatever follows them. *)
Lemma url_tail_matches (host user repo rest : string) (pos : nat)
    (caps : Regex.captures) :
  is_name host -> is_name user -> is_name repo ->
  prun
    (PSeq (PRe (Regex.Lit ":" >> Regex.Lit "/" >> Regex.Lit "/" >>
                Regex.Plus is_pkg_char >> Regex.Lit "/" >>
                Regex.Plus is_pkg_char >> Regex.Lit "/" >>
                Regex.Plus is_pkg_char)%re)
       (POpt (PRe (Regex.Lit "." >> Regex.Lit "g" >> Regex.Lit "i" >>
                   Regex.Lit "t")%re)))
    pos
    ("://" +:+ host +:+ "/" +:+ user +:+ "/" +:+ repo +:+ rest)
    caps (fun _ _ _ => Some tt) = Some tt.
Proof.
  intros [Hh0 Hh] [Hu0 Hu] [Hr0 Hr].
  change ("://" +:+ ?x) with (String ":" (String "/" (String "/" x))).
  cbn [prun Regex.run Regex.Lit Regex.Plus].
  change (Chars.only ":" ":") with true.
  change (Chars.only "/" "/") with true. cbv iota.
  apply rep_greedy; [done|done|destruct host; [done|simpl; lia]|].
  change ("/" +:+ ?x) with (String "/" x).
  change (Chars.only "/" "/") with true. cbv iota.
  apply rep_greedy; [done|done|destruct user; [done|simpl; lia]|].
  change ("/" +:+ ?x) with (String "/" x).
  change (Chars.only "/" "/") with true. cbv iota.
  destruct repo as [|c repo]; [done|].
  simpl in Hr. apply andb_true_iff in Hr as [Hc _].
  change (String c repo +:+ rest) with (String c (repo +:+ rest)).
  apply rep_plus_always; [|done].
  intros pos' s'.
  apply (optional_always
           (PRe (Regex.Lit "." >> Regex.Lit "g" >> Regex.Lit "i" >>
                 Regex.Lit "t")%re) pos' s' caps).
Qed.

Lemma valid_of_url (s : string) :
  ptest httpsPattern s = true -> isValidSource s = true.
Proof.
  intros H. unfold isValidSource. rewrite H.
  by destruct (ptest npmPattern s), (ptest gitPattern s).
Qed.

End UrlFacts.

(** X15. The URL form is checked at its start only: a source made of
    http:// or https://, three names separated by slashes and any text
    at all after them passes isValidSource, and /install then runs
    pi install with that text in the shell command. *)
Theorem url_suffix_unchecked (bash : string -> Packages.tool_outcome)
    (scheme host user repo rest : string) :
  scheme = "http" \/ scheme = "https" ->
  is_name host -> is_name user -> is_name repo ->
  let source :=
    scheme +:+ "://" +:+ host +:+ "/" +:+ user +:+ "/" +:+ repo +:+ rest in
  Packages.isValidSource source = true
  /\ forall args,
       JsString.trim args = source ->
       In (Packages.CallTool "bash" ("pi install " +:+ source +:+ " 2>&1"))
          (Packages.install_command bash args).
Proof.
  intros Hscheme Hhost Huser Hrepo source.
  assert (Packages.isValidSource source = true) as Hvalid.
  { apply valid_of_url. unfold source, Packages.ptest.
    destruct Hscheme as [-> | ->].
    - assert (Packages.pmatch_here Packages.httpsPattern 0
                ("http" +:+ "://" +:+ host +:+ "/" +:+ user +:+ "/" +:+ repo
                 +:+ rest) = Some tt) as Hm
        by exact (url_tail_matches host user repo rest 4 [] Hhost Huser Hrepo).
      change ("http" +:+ ?x)
        with (String "h" (String "t" (String "t" (String "p" x)))) in Hm |- *.
      cbn [Packages.ptest_from]. by rewrite Hm.
    - assert (Packages.pmatch_here Packages.httpsPattern 0
                ("https" +:+ "://" +:+ host +:+ "/" +:+ user +:+ "/" +:+ repo
                 +:+ rest) = Some tt) as Hm.
      { unfold Packages.pmatch_here, Packages.httpsPattern.
        match goal with
        | |- Packages.prun
               (Packages.PSeq _ (Packages.PSeq (Packages.POpt ?b) ?c))
               _ _ _ ?k = _ =>
            change
              (Packages.prun (Packages.POpt b) 4
                 (String "s"
                    ("://" +:+ host +:+ "/" +:+ user +:+ "/" +:+ repo
                     +:+ rest)) []
                 (fun pos1 s1 caps1 => Packages.prun c pos1 s1 caps1 k)
               = Some tt)
        end.
        apply optional_taken.
        exact (url_tail_matches host user repo rest 5 [] Hhost Huser Hrepo). }
      change ("https" +:+ ?x)
        with (String "h" (String "t" (String "t" (String "p"
                (String "s" x))))) in Hm |- *.
      cbn [Packages.ptest_from]. by rewrite Hm. }
  split; [done|]. intros args Hargs.
  unfold Packages.install_command. cbv zeta. rewrite Hargs, Hvalid.
  assert (JsString.truthy source = true) as ->.
  { unfold source. by destruct Hscheme as [-> | ->]. }
  cbn [negb]. unfold Packages.run_and_report. right. left. reflexivity.
Qed.

Lemma url_suffix_unchecked_witness :
  Packages.isValidSource "https://a.io/u/r; rm -rf ~" = true
  /\ forall args,
       JsString.trim args = "https://a.io/u/r; rm -rf ~" ->
       In (Packages.CallTool "bash"
             "pi install https://a.io/u/r; rm -rf ~ 2>&1")
          (Packages.install_command
             (fun _ => Packages.ToolReturns None) args).
Proof.
  apply (url_suffix_unchecked (fun _ => Packages.ToolReturns None)
           "https" "a.io" "u" "r" "; rm -rf ~").
  - by right.
  - by split.
  - by split.
  - by split.
Defined.

(** X16. /install calls a tool at most once: it calls nothing when the
    trimmed argument is empty or fails isValidSource, and otherwise calls
    bash once with pi install, the trimmed argument and 2>&1; the argument
    it passes to the shell then matches the URL pattern or is made of
    source characters only. *)
Theorem install_command_calls (bash : string -> Packages.tool_outcome)
    (args : string) :
  let source := JsString.trim args in
  let calls := tool_calls (Packages.install_command bash args) in
  (calls = [] <->
   source = EmptyString \/ Packages.isValidSource source = false)
  /\ (calls <> [] ->
      calls = [("bash", "pi install " +:+ source +:+ " 2>&1")]
      /\ (Packages.ptest Packages.httpsPattern source = true
          \/ JsString.all_chars is_source_char source = true)).
Proof.
  intros source calls. unfold calls, Packages.install_command.
  cbv zeta. fold source.
  destruct source as [|c src] eqn:Hsrc.
  { cbn. split; [by split; [left|]|done]. }
  cbn [JsString.truthy negb].
  destruct (Packages.isValidSource (String c src)) eqn:Hvalid; cbn [negb].
  - unfold Packages.run_and_report.
    set (cmd := "pi install " +:+ String c src +:+ " 2>&1").
    assert (forall tl,
              (exists m l, tl = [Packages.Notify m l]) ->
              tool_calls
                (Packages.Notify ("Installing " +:+ String c src +:+ "...")
                   "info"
                 :: Packages.CallTool "bash" cmd :: tl)
              = [("bash", cmd)]) as Hcalls.
    { by intros tl (m & l & ->). }
    rewrite Hcalls.
    2:{ destruct (bash cmd) as [text|e]; [|by eexists _, _].
        destruct (JsString.includes _ _); by eexists _, _. }
    split.
    + split; [done|]. by intros [|].
    + intros _. split; [done|]. by apply valid_source_chars.
  - cbn. split; [by split; [right|]|done].
Qed.

Section ReportFacts.
Import Packages.

Lemma toLowerCase_app (a b : string) :
  toLowerCase (a +:+ b) = toLowerCase a +:+ toLowerCase b.
Proof.
  induction a as [|c a IH]; [done|].
  rewrite app_cons. simpl. by rewrite IH, app_cons.
Qed.

Lemma includes_inside (a w b : string) :
  JsString.includes (a +:+ w +:+ b) w = true.
Proof.
  induction a as [|c a IH].
  - change (EmptyString +:+ ?x) with x.
    apply includes_prefix, startsWith_app.
  - rewrite app_cons. by apply includes_later.
Qed.

(** An output that holds the word error in any letter case is reported
    as a failure. *)
Lemma report_error_word (bash : string -> tool_outcome)
    (command failed failure_prefix done_text pre w post : string) :
  toLowerCase w = "error" ->
  bash command = ToolReturns (Some (pre +:+ w +:+ post)) ->
  run_and_report bash command failed failure_prefix done_text
  = [CallTool "bash" command; Notify failed "error"].
Proof.
  intros Hw Hbash. unfold run_and_report. rewrite Hbash.
  assert (JsString.or_default (Some (pre +:+ w +:+ post)) EmptyString
          = pre +:+ w +:+ post) as ->.
  { unfold JsString.or_default, JsString.or_else.
    destruct (pre +:+ w +:+ post) eqn:E; [|done].
    destruct pre; [|by rewrite app_cons in E].
    change (EmptyString +:+ ?x) with x in E.
    destruct w; [done|]. by rewrite app_cons in E. }
  by rewrite !toLowerCase_app, Hw, includes_inside.
Qed.

End ReportFacts.

(** X17. The commands judge a run by its output alone: when the output
    of the shell command holds the word error in any letter case and at
    any place, /install with a valid source, /uninstall with a non-empty
    source and /update, with or without an argument, end with their
    failure notification. *)
Theorem error_word_reports_failure (bash : string -> Packages.tool_outcome)
    (args pre w post : string) :
  Packages.toLowerCase w = "error" ->
  (forall command,
     bash command = Packages.ToolReturns (Some (pre +:+ w +:+ post))) ->
  (Packages.isValidSource (JsString.trim args) = true ->
   last_event (Packages.install_command bash args)
   = Some (Packages.Notify "Install failed — check logs" "error"))
  /\ (JsString.trim args <> EmptyString ->
      last_event (Packages.uninstall_command bash args)
      = Some (Packages.Notify "Remove failed — check logs" "error"))
  /\ last_event (Packages.update_command bash args)
     = Some (Packages.Notify "Update failed — check logs" "error").
Proof.
  intros Hw Hbash.
  unfold Packages.install_command, Packages.uninstall_command,
    Packages.update_command. cbv zeta.
  destruct (JsString.trim args) as [|c src].
  - cbn [JsString.truthy negb]. repeat split; try done.
    by rewrite (report_error_word bash _ _ _ _ pre w post Hw (Hbash _)).
  - cbn [JsString.truthy negb]. repeat split.
    + intros ->. cbn [negb].
      by rewrite (report_error_word bash _ _ _ _ pre w post Hw (Hbash _)).
    + intros _.
      by rewrite (report_error_word bash _ _ _ _ pre w post Hw (Hbash _)).
    + by rewrite (report_error_word bash _ _ _ _ pre w post Hw (Hbash _)).
Qed.

Lemma error_word_reports_failure_witness :
  (Packages.isValidSource (JsString.trim " npm:error-utils ") = true ->
   last_event
     (Packages.install_command
        (fun _ => Packages.ToolReturns (Some "added ErRoR-utils, 0 failures"))
        " npm:error-utils ")
   = Some (Packages.Notify "Install failed — check logs" "error"))
  /\ (JsString.trim " npm:error-utils " <> EmptyString ->
      last_event
        (Packages.uninstall_command
           (fun _ =>
              Packages.ToolReturns (Some "added ErRoR-utils, 0 failures"))
           " npm:error-utils ")
      = Some (Packages.Notify "Remove failed — check logs" "error"))
  /\ last_event
       (Packages.update_command
          (fun _ =>
             Packages.ToolReturns (Some "added ErRoR-utils, 0 failures"))
          " npm:error-utils ")
     = Some (Packages.Notify "Update failed — check logs" "error").
Proof.
  apply (error_word_reports_failure
           (fun _ => Packages.ToolReturns (Some "added ErRoR-utils, 0 failures"))
           " npm:error-utils " "added " "ErRoR" "-utils, 0 failures").
  - reflexivity.
  - reflexivity.
Defined.

(** /update without an argument runs pi update, and an output with the
    word in it is reported as a failure there too. *)
Example error_word_plain_update :
  Packages.update_command
    (fun _ => Packages.ToolReturns (Some "updated, 0 ERRORS")) "  "
  = [Packages.Notify "Updating packages..." "info";
     Packages.CallTool "bash" "pi update 2>&1";
     Packages.Notify "Update failed — check logs" "error"].
Proof. reflexivity. Qed.

(** ** list_skills *)

Section ListingFacts.
Import Listing.

Lemma child_name_spec (k k' : list string) (n : string) :
  child_name k k' = Some n <-> k' = k ++ [n].
Proof.
  revert k'. induction k as [|s k IH]; intros k'.
  - destruct k' as [|m [|m' k']]; simpl; split; intros H; try done.
    + by inversion H.
    + by inversion H.
  - destruct k' as [|s' k']; simpl; [by split|].
    destruct (String.eqb_spec s s') as [->|Hne].
    + rewrite IH. split; [by intros ->|]. intros H. by inversion H.
    + split; [done|]. intros H. by inversion H.
Qed.

Lemma NoDup_omap_inj {A B} (f : A -> option B) (l : list A) :
  (forall x y z, x ∈ l -> y ∈ l -> f x = Some z -> f y = Some z -> x = y) ->
  NoDup l -> NoDup (omap f l).
Proof.
  induction l as [|x l IH]; intros Hinj Hnd; [constructor|].
  inversion Hnd as [|? ? Hx Hl]; subst.
  assert (NoDup (omap f l)) as Hrest.
  { apply IH; [|done]. intros a b z Ha Hb. apply Hinj; by constructor. }
  simpl. destruct (f x) as [z|] eqn:E; [|done].
  constructor; [|done]. intros Hin.
  apply list_elem_of_omap in Hin as (y & Hy & Hfy).
  assert (x = y) as ->; [|done].
  apply (Hinj x y z); [by constructor|by constructor|done..].
Qed.

(** An arrangement hands out every entry once. *)
Local Abbreviation permutes arrange :=
  (forall (k names : list string), arrange k names ≡ₚ names).

(** The entries of a directory are the names of the nodes directly in
    it, each once. *)
Lemma elem_of_entries (arrange : list string -> list string -> list string)
    (fs : gmap (list string) node) (k : list string) (n : string) :
  permutes arrange ->
  n ∈ entries arrange fs k <-> is_Some (fs !! (k ++ [n])).
Proof.
  intros arrange_perm. unfold entries. rewrite arrange_perm, list_elem_of_omap. split.
  - intros ([k' x] & Hin & Hc). apply elem_of_map_to_list in Hin.
    apply child_name_spec in Hc. simpl in Hc. subst k'. by exists x.
  - intros [x Hx]. exists (k ++ [n], x). split.
    + by apply elem_of_map_to_list.
    + by apply child_name_spec.
Qed.

Lemma NoDup_entries (arrange : list string -> list string -> list string)
    (fs : gmap (list string) node) (k : list string) :
  permutes arrange -> NoDup (entries arrange fs k).
Proof.
  intros arrange_perm. unfold entries. rewrite arrange_perm.
  apply NoDup_omap_inj; [|apply NoDup_map_to_list].
  intros [k1 x1] [k2 x2] n Hin1 Hin2 H1 H2. simpl in *.
  apply child_name_spec in H1, H2. subst k1 k2.
  f_equal. by apply (map_to_list_unique fs (k ++ [n])).
Qed.

End ListingFacts.

Section ListingRuns.
Import Listing.

Local Abbreviation permutes arrange :=
  (forall (k names : list string), arrange k names ≡ₚ names).
Local Abbreviation normal := (fun seg => Path.is_normal_segment seg = true).

Lemma well_named_lookup (fs : gmap (list string) node) (k : list string)
    (x : node) :
  well_named fs = true -> fs !! k = Some x -> Forall normal k.
Proof.
  unfold well_named. rewrite forallb_forall. intros Hall Hk.
  apply normal_Forall. apply (Hall (k, x)).
  by apply list_elem_of_In, elem_of_map_to_list.
Qed.

Lemma joined_segments_child (S : list string) (n : string) :
  normal n -> joined_segments S n = S ++ [n].
Proof.
  intros Hn. unfold joined_segments.
  rewrite (split_sepfree n (normal_sepfree n Hn)). simpl.
  rewrite norm_step_push by done. simpl. by rewrite rev_involutive.
Qed.

(** The directory of a skill with a plain name lies directly in the
    sets root. *)
Lemma key_skill_dir (C : list string) (n : string) :
  Forall normal C -> normal n ->
  Fs.key (Path.absolute_of C)
    (Path.join [Installer.skillsDir (Path.absolute_of C); n])
  = C ++ ["skills"; n].
Proof.
  intros HC Hn. rewrite skillsDir_segments by done.
  rewrite key_join.
  - rewrite joined_segments_child by done. by rewrite <- app_assoc.
  - apply Forall_app. split; [done|]. by repeat constructor.
  - by destruct C.
Qed.

Lemma key_skills_root (C : list string) :
  Forall normal C ->
  Fs.key (Path.absolute_of C) (Installer.skillsDir (Path.absolute_of C))
  = C ++ ["skills"].
Proof.
  intros HC. rewrite skillsDir_segments by done. apply key_absolute_of.
  apply Forall_app. split; [done|]. by repeat constructor.
Qed.

Lemma readdirSync_run (cwd : string)
    (arrange : list string -> list string -> list string) (p : string)
    (w : world) :
  readdirSync cwd arrange p w
  = match Fs.node_at (w_fs w) (Fs.key cwd p) with
    | Some Dir => Ok (entries arrange (w_fs w) (Fs.key cwd p)) w
    | Some (File _) => Throw (Fs.error "ENOTDIR") w
    | None => Throw (Fs.error "ENOENT") w
    end.
Proof.
  unfold readdirSync, bind, get_fs.
  by destruct (Fs.node_at (w_fs w) (Fs.key cwd p)) as [[]|].
Qed.

Lemma describe_run (C : list string)
    (arrange : list string -> list string -> list string)
    (dirs : list dirent) (w : world) :
  Forall normal C ->
  Forall (fun e => normal (d_name e)
                   /\ w_fs w !! (C ++ ["skills"; d_name e]) = Some Dir) dirs ->
  describe (Path.absolute_of C) arrange dirs w
  = Ok (map (fun e =>
               (d_name e,
                entries arrange (w_fs w) (C ++ ["skills"; d_name e])))
          dirs) w.
Proof.
  intros HC. induction 1 as [|e dirs [Hn He] _ IH]; [done|].
  cbn [describe]. unfold bind at 1. rewrite readdirSync_run.
  rewrite key_skill_dir by done.
  rewrite node_at_nonempty by (by destruct C).
  rewrite He. unfold bind. by rewrite IH.
Qed.

(** What list_skills returns when the sets root is a directory. *)
Lemma list_skills_run (C : list string)
    (arrange : list string -> list string -> list string) (w : world) :
  Forall normal C ->
  well_named (w_fs w) = true ->
  w_fs w !! (C ++ ["skills"]) = Some Dir ->
  list_skills (Path.absolute_of C) arrange w
  = Ok (report
          (map (fun n =>
                  (n, entries arrange (w_fs w) (C ++ ["skills"; n])))
             (List.filter
                (fun n =>
                   match w_fs w !! (C ++ ["skills"; n]) with
                   | Some Dir => true
                   | _ => false
                   end)
                (entries arrange (w_fs w) (C ++ ["skills"])))))
       w.
Proof.
  intros HC Hwf Hroot. unfold list_skills.
  unfold bind at 1. rewrite ensureSkillsDir_present.
  2:{ unfold Fs.lookup_path. rewrite key_skills_root by done.
      rewrite node_at_nonempty by (by destruct C). by rewrite Hroot. }
  unfold bind at 1. unfold readdirSync_types.
  unfold bind at 1. rewrite readdirSync_run, key_skills_root by done.
  rewrite node_at_nonempty by (by destruct C). rewrite Hroot.
  unfold bind at 1. cbn [get_fs ret].
  set (names := entries arrange (w_fs w) (C ++ ["skills"])).
  assert (forall l,
            List.filter isDirectory
              (map (fun n =>
                      Dirent n (match w_fs w !! ((C ++ ["skills"]) ++ [n]) with
                                | Some Dir => true
                                | _ => false
                                end)) l)
            = map (fun n => Dirent n true)
                (List.filter
                   (fun n =>
                      match w_fs w !! (C ++ ["skills"; n]) with
                      | Some Dir => true
                      | _ => false
                      end) l)) as Hfilter.
  { induction l as [|n l IH]; [done|]. simpl.
    rewrite <- (app_assoc C ["skills"] [n]). simpl.
    destruct (w_fs w !! (C ++ ["skills"; n])) as [[]|]; simpl;
      by rewrite IH. }
  rewrite Hfilter. unfold bind. rewrite describe_run; [|done|].
  - by rewrite map_map.
  - apply Forall_map, Forall_forall. intros n Hin. simpl.
    apply list_elem_of_In, filter_In in Hin as [_ Hdir].
    destruct (w_fs w !! (C ++ ["skills"; n])) as [[]|] eqn:E; try done.
    split; [|done].
    pose proof (well_named_lookup _ _ _ Hwf E) as Hk.
    apply Forall_app in Hk as [_ Hk]. inversion Hk as [|? ? _ Hk']; subst.
    by inversion Hk'.
Qed.

End ListingRuns.

Section ListingSpec.
Import Listing.

Lemma skills_of_report (skills : list (string * list string)) :
  l_skills (report skills) = skills.
Proof. by destruct skills. Qed.

Lemma text_of_report (skills : list (string * list string)) :
  l_text (report skills) = "No skills installed." <-> skills = [].
Proof. destruct skills; [done|]. split; [|done]. by intros [=]. Qed.

Lemma names_of_described {A} (h : string -> A) (names : list string) :
  (map (fun n => (n, h n)) names).*1 = names.
Proof.
  induction names as [|n names IH]; [done|].
  change (n :: (map (fun n => (n, h n)) names).*1 = n :: names).
  by rewrite IH.
Qed.

Lemma NoDup_list_filter {A} (f : A -> bool) (l : list A) :
  NoDup l -> NoDup (List.filter f l).
Proof.
  induction 1 as [|x l Hx Hl IH]; [constructor|].
  simpl. destruct (f x); [|done]. constructor; [|done].
  intros Hin. apply Hx.
  apply list_elem_of_In, filter_In in Hin as [Hin _].
  by apply list_elem_of_In.
Qed.

(** The skills of a report built from the directories among the
    entries of the sets root. *)
Lemma elem_of_listed (arrange : list string -> list string -> list string)
    (fs : gmap (list string) node) (root : list string)
    (n : string) (files : list string) :
  (forall k names, arrange k names ≡ₚ names) ->
  (n, files)
    ∈ map (fun n => (n, entries arrange fs (root ++ [n])))
        (List.filter
           (fun n =>
              match fs !! (root ++ [n]) with
              | Some Dir => true
              | _ => false
              end)
           (entries arrange fs root))
  <-> fs !! (root ++ [n]) = Some Dir
      /\ files = entries arrange fs (root ++ [n]).
Proof.
  intros Hperm. rewrite list_elem_of_In, in_map_iff. split.
  - intros (m & [= <- <-] & Hin). apply filter_In in Hin as [_ Hdir].
    by destruct (fs !! (root ++ [m])) as [[]|].
  - intros [Hdir ->]. exists n. split; [done|]. apply filter_In. split.
    + apply list_elem_of_In, (elem_of_entries arrange fs root n Hperm).
      by rewrite Hdir.
    + by rewrite Hdir.
Qed.

(** The same, with the paths written from the working directory. *)
Lemma elem_of_listed_root (C : list string)
    (arrange : list string -> list string -> list string)
    (fs : gmap (list string) node) (n : string) (files : list string) :
  (forall k names, arrange k names ≡ₚ names) ->
  (n, files)
    ∈ map (fun n => (n, entries arrange fs (C ++ ["skills"; n])))
        (List.filter
           (fun n =>
              match fs !! (C ++ ["skills"; n]) with
              | Some Dir => true
              | _ => false
              end)
           (entries arrange fs (C ++ ["skills"])))
  <-> fs !! ((C ++ ["skills"]) ++ [n]) = Some Dir
      /\ files = entries arrange fs ((C ++ ["skills"]) ++ [n]).
Proof.
  intros Hperm.
  rewrite <- (elem_of_listed arrange fs (C ++ ["skills"]) n files Hperm).
  rewrite (map_ext
             (fun n : string => (n, entries arrange fs (C ++ ["skills"; n])))
             (fun n : string =>
                (n, entries arrange fs ((C ++ ["skills"]) ++ [n]))))
    by (intros m; by rewrite <- (app_assoc C ["skills"] [m])).
  rewrite (List.filter_ext
             (fun n : string =>
                match fs !! (C ++ ["skills"; n]) with
                | Some Dir => true
                | _ => false
                end)
             (fun n : string =>
                match fs !! ((C ++ ["skills"]) ++ [n]) with
                | Some Dir => true
                | _ => false
                end))
    by (intros m; by rewrite <- (app_assoc C ["skills"] [m])).
  done.
Qed.

End ListingSpec.

(** X18. With a normalized working directory, a file system of
    normalized paths and an existing sets root, list_skills returns
    without changing anything, whatever the order in which the system
    hands out directory entries.  Its skills are exactly the directories
    directly in the sets root, each once, a regular file there is not
    listed; the files of a skill are the names of the nodes directly in
    its directory; the text is the one for no skill exactly when the
    sets root holds no directory. *)
Theorem list_skills_spec (C : list string)
    (arrange : list string -> list string -> list string) (w : world) :
  let cwd := Path.absolute_of C in
  let root := C ++ ["skills"] in
  (forall k names, arrange k names ≡ₚ names) ->
  forallb Path.is_normal_segment C = true ->
  well_named (w_fs w) = true ->
  w_fs w !! root = Some Dir ->
  exists r,
    Listing.list_skills cwd arrange w = Ok r w
    /\ NoDup (l_skills r).*1
    /\ (forall n files,
          (n, files) ∈ l_skills r
          <-> w_fs w !! (root ++ [n]) = Some Dir
              /\ files = Listing.entries arrange (w_fs w) (root ++ [n]))
    /\ (forall n f,
          f ∈ Listing.entries arrange (w_fs w) (root ++ [n])
          <-> is_Some (w_fs w !! (root ++ [n; f])))
    /\ (l_text r = "No skills installed."
        <-> forall n, w_fs w !! (root ++ [n]) ≠ Some Dir).
Proof.
  intros cwd root Hperm HC Hwf Hroot. apply normal_Forall in HC.
  eexists. split; [by apply list_skills_run|].
  rewrite skills_of_report, text_of_report.
  assert (forall n, C ++ ["skills"; n] = root ++ [n]) as Hkey.
  { intros n. unfold root. by rewrite <- app_assoc. }
  pose proof (fun n files =>
                elem_of_listed_root C arrange (w_fs w) n files Hperm)
    as Hlisted.
  fold root in Hlisted.
  split; [|split; [exact Hlisted|split]].
  - rewrite names_of_described. apply NoDup_list_filter. by apply NoDup_entries.
  - intros n f.
    rewrite (elem_of_entries arrange (w_fs w) (root ++ [n]) f Hperm).
    by rewrite <- app_assoc.
  - split.
    + intros Hnil n Hdir.
      assert ((n, Listing.entries arrange (w_fs w) (root ++ [n]))
                ∈ @nil (string * list string)) as Hin.
      { rewrite <- Hnil. by apply Hlisted. }
      by apply elem_of_nil in Hin.
    + intros Hnone.
      destruct (map _ _) as [|[n files] rest]; [done|].
      destruct (proj1 (Hlisted n files)) as [Hdir _]; [constructor|].
      by apply Hnone in Hdir.
Qed.

Lemma list_skills_spec_witness :
  exists r,
    Listing.list_skills (Path.absolute_of ["home"; "agent"]) in_map_order
      skill_world = Ok r skill_world
    /\ NoDup (l_skills r).*1
    /\ (forall n files,
          (n, files) ∈ l_skills r
          <-> w_fs skill_world !! ((["home"; "agent"] ++ ["skills"]) ++ [n])
              = Some Dir
              /\ files
                 = Listing.entries in_map_order (w_fs skill_world)
                     ((["home"; "agent"] ++ ["skills"]) ++ [n]))
    /\ (forall n f,
          f ∈ Listing.entries in_map_order (w_fs skill_world)
                ((["home"; "agent"] ++ ["skills"]) ++ [n])
          <-> is_Some (w_fs skill_world
                         !! ((["home"; "agent"] ++ ["skills"]) ++ [n; f])))
    /\ (l_text r = "No skills installed."
        <-> forall n,
              w_fs skill_world !! ((["home"; "agent"] ++ ["skills"]) ++ [n])
              ≠ Some Dir).
Proof.
  apply (list_skills_spec ["home"; "agent"] in_map_order skill_world).
  - intros k names. reflexivity.
  - reflexivity.
  - vm_compute. reflexivity.
  - vm_compute. reflexivity.
Defined.

Section NamedFacts.

Local Abbreviation normal := (fun seg => Path.is_normal_segment seg = true).

(** The paths of all nodes are made of normalized segments. *)
Local Abbreviation named fs :=
  (forall (k : list string) (x : node), fs !! k = Some x -> Forall normal k).

Lemma well_named_spec (fs : gmap (list string) node) :
  well_named fs = true <-> named fs.
Proof.
  split.
  - intros H k x. by apply well_named_lookup.
  - intros H. unfold well_named. apply forallb_forall. intros [k x] Hin.
    apply list_elem_of_In, elem_of_map_to_list in Hin. simpl.
    apply forallb_forall. intros seg Hseg.
    specialize (H k x Hin). rewrite Forall_forall in H.
    by apply H, list_elem_of_In.
Qed.

Lemma named_remove (fs : gmap (list string) node) (K : list string) :
  named fs -> named (filter (fun kv => ¬ Fs.under K kv.1) fs).
Proof.
  intros H k x. rewrite lookup_remove_under. case_decide; [done|]. apply H.
Qed.

Lemma under_child (root : list string) (n m : string) (rest : list string) :
  Fs.under (root ++ [n]) (root ++ m :: rest) <-> n = m.
Proof.
  unfold Fs.under. split.
  - intros [tail E]. rewrite <- app_assoc in E.
    apply app_inv_head in E. by inversion E.
  - intros ->. exists rest. by rewrite <- app_assoc.
Qed.

Lemma under_root (root : list string) (n : string) :
  ¬ Fs.under (root ++ [n]) root.
Proof.
  intros [tail E]. apply (f_equal length) in E.
  rewrite !length_app in E. simpl in E. lia.
Qed.

End NamedFacts.

(** X19. In a file system of normalized paths with an existing sets
    root, once uninstall_skill has returned for a name that is a single
    normalized segment, list_skills does not list that name any more, and
    it lists every other skill that was a directory of the sets root
    before, with the files the skill had. *)
Theorem uninstalled_not_listed (C : list string)
    (arrange : list string -> list string -> list string)
    (name : string) (w w1 : world) (r1 : tool_result) :
  let cwd := Path.absolute_of C in
  let root := C ++ ["skills"] in
  (forall k names, arrange k names ≡ₚ names) ->
  forallb Path.is_normal_segment C = true ->
  well_named (w_fs w) = true ->
  w_fs w !! root = Some Dir ->
  Path.is_normal_segment (JsString.trim name) = true ->
  Installer.uninstall_skill cwd (Some name) w = Ok r1 w1 ->
  exists r,
    Listing.list_skills cwd arrange w1 = Ok r w1
    /\ forall m files,
         (m, files) ∈ l_skills r
         <-> m <> JsString.trim name
             /\ w_fs w !! (root ++ [m]) = Some Dir
             /\ files = Listing.entries arrange (w_fs w1) (root ++ [m])
             /\ forall f, f ∈ files <-> is_Some (w_fs w !! (root ++ [m; f])).
Proof.
  intros cwd root Hperm HC Hwf Hroot Hname Hrun.
  pose proof (normal_Forall _ HC) as HC'.
  rewrite uninstall_run in Hrun by (by destruct (JsString.trim name)).
  cbv zeta in Hrun. fold cwd in Hrun.
  unfold Fs.lookup_path in Hrun.
  unfold cwd in Hrun. rewrite key_skill_dir in Hrun by done. fold cwd in Hrun.
  assert (C ++ ["skills"; JsString.trim name] = root ++ [JsString.trim name])
    as Hkey by (unfold root; by rewrite <- app_assoc).
  rewrite Hkey, node_at_nonempty in Hrun by (by destruct root).
  set (n := JsString.trim name) in *.
  assert (forall fs' : gmap (list string) node,
            well_named fs' = true -> fs' !! root = Some Dir ->
            (forall m, fs' !! (root ++ [m])
                       = if decide (m = n) then None
                         else w_fs w !! (root ++ [m])) ->
            (forall m f, m <> n ->
                         fs' !! (root ++ [m; f]) = w_fs w !! (root ++ [m; f])) ->
            exists r,
              Listing.list_skills cwd arrange (World fs' (w_trace w1))
              = Ok r (World fs' (w_trace w1))
              /\ forall m files,
                   (m, files) ∈ l_skills r
                   <-> m <> n
                       /\ w_fs w !! (root ++ [m]) = Some Dir
                       /\ files = Listing.entries arrange fs' (root ++ [m])
                       /\ forall f, f ∈ files
                                    <-> is_Some (w_fs w !! (root ++ [m; f])))
    as Hlist.
  { intros fs' Hwf' Hroot' Hkids Hfiles.
    eexists. split; [by apply list_skills_run|].
    rewrite skills_of_report. cbn [w_fs].
    pose proof (fun n f =>
                  elem_of_entries arrange fs' (root ++ [n]) f Hperm)
      as Hentries.
    intros m files. rewrite (elem_of_listed_root C arrange fs' m files Hperm).
    fold root. rewrite Hkids. case_decide as Hm.
    - split; [by intros [? _]|]. by intros [? _].
    - split.
      + intros [Hdir ->]. repeat split; try done.
        * intros Hin. apply Hentries in Hin.
          rewrite <- app_assoc in Hin. simpl in Hin.
          by rewrite Hfiles in Hin.
        * intros Hin. apply Hentries. rewrite <- app_assoc. simpl.
          by rewrite Hfiles.
      + by intros (_ & Hdir & -> & _). }
  destruct (w_fs w !! (root ++ [n])) as [x|] eqn:Hnode.
  - assert (Path.ends_with_sep (Path.join [Installer.skillsDir cwd; n])
            = false) as Hends.
    { unfold cwd. rewrite skillsDir_segments by done.
      rewrite join_absolute_of.
      2:{ apply Forall_app. split; [done|]. by repeat constructor. }
      2:{ by destruct n. }
      rewrite joined_segments_child by done.
      assert (Path.ends_with_sep
                (Path.absolute_of (C ++ ["skills"]) +:+ String "/" n) = false)
        as ->.
      { unfold Path.ends_with_sep.
        rewrite pop_split_tail by (by apply normal_sepfree).
        by destruct n. }
      destruct ((C ++ ["skills"]) ++ [n]) as [|s S] eqn:E.
      { by destruct C. }
      rewrite app_empty_r. rewrite <- E. apply ends_with_sep_absolute_of.
      - apply Forall_app. split; [|by repeat constructor].
        apply Forall_app. split; [done|]. by repeat constructor.
      - by rewrite E. }
    rewrite Hends in Hrun.
    assert (w_fs w1
            = filter (fun kv => ¬ Fs.under (root ++ [n]) kv.1) (w_fs w))
      as Hfs by (destruct x; by inversion Hrun).
    clear Hrun. destruct w1 as [fs1 tr1]. cbn [w_fs w_trace] in *. subst fs1.
    apply Hlist.
    + apply well_named_spec, named_remove. by apply well_named_spec.
    + rewrite lookup_remove_under. case_decide as Hu; [|done].
      by apply under_root in Hu.
    + intros m. rewrite lookup_remove_under.
      case_decide as Hu; case_decide as Hm; try done.
      * apply (under_child root n m []) in Hu. by subst.
      * subst m. exfalso. apply Hu. by apply (under_child root n n []).
    + intros m f Hm. rewrite lookup_remove_under.
      case_decide as Hu; [|done].
      apply (under_child root n m [f]) in Hu. by subst.
  - inversion Hrun; subst. destruct w1 as [fs tr]. cbn [w_fs w_trace] in *.
    apply Hlist; try done.
    intros m. case_decide as Hm; [by subst|done].
Qed.

Lemma uninstalled_not_listed_witness :
  exists r,
    Listing.list_skills (Path.absolute_of ["home"; "agent"]) in_map_order
      (world_of
         (Installer.uninstall_skill (Path.absolute_of ["home"; "agent"])
            (Some "foo") skill_world))
    = Ok r
        (world_of
           (Installer.uninstall_skill (Path.absolute_of ["home"; "agent"])
              (Some "foo") skill_world))
    /\ forall m files,
         (m, files) ∈ l_skills r
         <-> m <> JsString.trim "foo"
             /\ w_fs skill_world !! ((["home"; "agent"] ++ ["skills"]) ++ [m])
                = Some Dir
             /\ files
                = Listing.entries in_map_order
                    (w_fs
                       (world_of
                          (Installer.uninstall_skill
                             (Path.absolute_of ["home"; "agent"])
                             (Some "foo") skill_world)))
                    ((["home"; "agent"] ++ ["skills"]) ++ [m])
             /\ forall f,
                  f ∈ files
                  <-> is_Some
                        (w_fs skill_world
                           !! ((["home"; "agent"] ++ ["skills"]) ++ [m; f])).
Proof.
  apply (uninstalled_not_listed ["home"; "agent"] in_map_order "foo"
           skill_world _
           (ToolResult ("Removed skill " +:+ quote +:+ "foo" +:+ quote)
              (Removed "foo"))).
  - intros k names. reflexivity.
  - reflexivity.
  - vm_compute. reflexivity.
  - vm_compute. reflexivity.
  - vm_compute. reflexivity.
  - vm_compute. reflexivity.
Defined.

Section InstallNamed.
Variable cwd : string.
Variable net : list event -> string -> transport.

Local Abbreviation normal := (fun seg => Path.is_normal_segment seg = true).
Local Abbreviation named fs :=
  (forall (k : list string) (x : node), fs !! k = Some x -> Forall normal k).

Lemma key_normal (p : string) : Forall normal (Fs.key cwd p).
Proof. apply normalize_segments_normal. Qed.

Lemma mkdir_from_named (todo above : list string)
    (fs fs' : gmap (list string) node) :
  Fs.mkdir_from fs above todo = Some fs' ->
  Forall normal (above ++ todo) -> named fs -> named fs'.
Proof.
  revert above fs. induction todo as [|seg rest IH]; intros above fs Hrun Hn Hfs.
  - by inversion Hrun; subst.
  - simpl in Hrun.
    assert (Forall normal ((above ++ [seg]) ++ rest)) as Hn'
      by (by rewrite <- app_assoc).
    destruct (fs !! (above ++ [seg])) as [[c|]|] eqn:E; [done| |].
    + exact (IH _ _ Hrun Hn' Hfs).
    + refine (IH _ _ Hrun Hn' _). intros k x. rewrite lookup_insert.
      case_decide; [|apply Hfs]. subst k. intros _.
      by apply Forall_app in Hn' as [Hn' _].
Qed.

Lemma when_mkdir_named (b : bool) (p : string) (w w' : world) (u : unit) :
  when b (Fs.mkdirSync cwd p) tt w = Ok u w' ->
  named (w_fs w) -> named (w_fs w').
Proof.
  destruct u. destruct b; simpl.
  - intros H Hfs. apply mkdirSync_Ok in H as (fs' & Hrun & ->). simpl.
    exact (mkdir_from_named _ [] _ _ Hrun (key_normal p) Hfs).
  - intros H. by inversion H.
Qed.

Lemma write_named (fs : gmap (list string) node) (p data : string) :
  named fs -> named (<[Fs.key cwd p := File data]> fs).
Proof.
  intros Hfs k x. rewrite lookup_insert. case_decide; [|apply Hfs].
  subst k. intros _. apply key_normal.
Qed.

Lemma write_named_key (fs : gmap (list string) node) (k : list string)
    (data : string) :
  named fs -> Forall normal k -> named (<[k := File data]> fs).
Proof.
  intros Hfs Hk k' x. rewrite lookup_insert. case_decide; [|apply Hfs].
  by subst k'.
Qed.

Lemma loop_named (baseUrl skillDir : string) (refs fetched failed : list string)
    (w w' : world) (lists : list string * list string) :
  Installer.install_refs cwd net baseUrl skillDir refs fetched failed w
  = Ok lists w' ->
  named (w_fs w) -> named (w_fs w').
Proof.
  revert fetched failed w.
  induction refs as [|ref rest IH]; intros fetched failed w Hrun Hfs.
  - by inversion Hrun; subst.
  - simpl in Hrun.
    destruct (Installer.isSafePath cwd skillDir ref); simpl in Hrun; [|eauto].
    apply bind_Ok_inv in Hrun as (refResult & w1 & Hfetch & Hrun).
    apply fetchText_fs in Hfetch.
    destruct (ok refResult).
    2:{ refine (IH _ _ _ Hrun _). by rewrite Hfetch. }
    apply bind_Ok_inv in Hrun as (present & w2 & Hex & Hrun).
    apply bind_Ok_inv in Hrun as (u & w3 & Hmk & Hrun).
    apply bind_Ok_inv in Hrun as ([] & w4 & Hwr & Hrun).
    rewrite existsSync_run in Hex. inversion Hex; subst w2.
    pose proof (when_mkdir_named _ _ _ _ _ Hmk) as Hn3.
    rewrite Hfetch in Hn3. specialize (Hn3 Hfs).
    apply writeFileSync_Ok in Hwr as (_ & _ & _ & ->).
    refine (IH _ _ _ Hrun _). cbn [w_fs]. by apply write_named.
Qed.

(** A directory that is made sure of is a directory afterwards, unless
    a regular file has its path. *)
Lemma ensure_dir_kind (p : string) (w w0 w1 : world) (present : bool)
    (u : unit) :
  Fs.existsSync cwd p w = Ok present w0 ->
  when (negb present) (Fs.mkdirSync cwd p) tt w0 = Ok u w1 ->
  Fs.key cwd p ≠ [] ->
  (forall c, w_fs w !! Fs.key cwd p ≠ Some (File c)) ->
  w_fs w1 !! Fs.key cwd p = Some Dir.
Proof.
  rewrite existsSync_run. intros Hex Hmk Hkey Hfile.
  inversion Hex; subst. clear Hex. destruct u.
  apply when_mkdir_Ok in Hmk as (_ & Hnew & Hsame).
  unfold Fs.lookup_path in Hnew, Hsame.
  rewrite node_at_nonempty in Hnew, Hsame by done.
  destruct (w_fs w0 !! Fs.key cwd p) as [[c|]|] eqn:E.
  - by destruct (Hfile c).
  - by rewrite (Hsame eq_refl).
  - by apply Hnew.
Qed.

End InstallNamed.

Section InstallListed.

Local Abbreviation normal := (fun seg => Path.is_normal_segment seg = true).

Lemma join_child (S : list string) (n : string) :
  Forall normal S -> normal n ->
  Path.join [Path.absolute_of S; n] = Path.absolute_of (S ++ [n]).
Proof.
  intros HS Hn. rewrite join_absolute_of by (done || by destruct n).
  rewrite joined_segments_child by done.
  assert (Path.ends_with_sep (Path.absolute_of S +:+ String "/" n) = false)
    as ->.
  { unfold Path.ends_with_sep.
    rewrite pop_split_tail by (by apply normal_sepfree). by destruct n. }
  destruct (S ++ [n]) as [|s S'] eqn:E; [by destruct S|].
  by rewrite app_empty_r.
Qed.

Lemma key_child (cwd : string) (S : list string) (n : string) :
  Forall normal S -> S ≠ [] -> normal n ->
  Fs.key cwd (Path.join [Path.absolute_of S; n]) = S ++ [n].
Proof.
  intros HS Hne Hn. rewrite key_join by done.
  by apply joined_segments_child.
Qed.

(** What a successful install leaves in the sets root. *)
Lemma install_Ok_nodes (C : list string)
    (net : list event -> string -> transport) (params : install_params)
    (w w' : world) (r : tool_result) (name : string)
    (fetched failed : list string) :
  let cwd := Path.absolute_of C in
  let root := C ++ ["skills"] in
  let url := JsString.or_default (JsString.trim <$> p_url params) EmptyString in
  Forall normal C ->
  well_named (w_fs w) = true ->
  (forall c, w_fs w !! root ≠ Some (File c)) ->
  Installer.install_skill cwd net params w = Ok r w' ->
  result_details r = Installed name fetched failed ->
  name <> EmptyString ->
  normal (Installer.mainFilename url) ->
  well_named (w_fs w') = true
  /\ w_fs w' !! root = Some Dir
  /\ w_fs w' !! (root ++ [name]) = Some Dir
  /\ is_file (w_fs w') (root ++ [name; Installer.mainFilename url])
  /\ forall entry,
       entry ∈ fetched -> normal entry ->
       is_file (w_fs w') (root ++ [name; entry]).
Proof.
  intros cwd root url HC Hwf Hfile Hrun Hdetails Hname Hmain.
  assert (Forall normal root) as Hroot_normal.
  { apply Forall_app. split; [done|]. by repeat constructor. }
  assert (root ≠ []) as Hroot_ne by (by destruct C).
  pose proof (proj1 (well_named_spec _) Hwf) as Hwf0. clear Hwf.
  unfold Installer.install_skill in Hrun. cbv zeta in Hrun. fold url in Hrun.
  destruct (negb (JsString.truthy url)).
  { inversion Hrun; subst. by cbn in Hdetails. }
  destruct (negb (JsString.startsWith url "http://")
            && negb (JsString.startsWith url "https://")).
  { inversion Hrun; subst. by cbn in Hdetails. }
  apply bind_Ok_inv in Hrun as (u1 & w1 & Hens & Hrun).
  apply bind_Ok_inv in Hrun as (mainResult & w2 & Hfetch & Hrun).
  destruct (negb (ok mainResult)).
  { inversion Hrun; subst. by cbn in Hdetails. }
  apply bind_Ok_inv in Hrun as (present & w3 & Hex & Hrun).
  apply bind_Ok_inv in Hrun as (u4 & w4 & Hmk & Hrun).
  apply bind_Ok_inv in Hrun as ([] & w5 & Hwr & Hrun).
  apply bind_Ok_inv in Hrun as (lists & w6 & Hloop & Hrun).
  inversion Hrun; subst r w'. cbn in Hdetails.
  inversion Hdetails as [[Hn Hf Hfl]]. clear Hdetails Hrun.
  assert (normal name) as Hname_normal.
  { rewrite <- Hn. apply name_chars_normal; [apply skillName_chars|].
    rewrite Hn. by destruct name. }
  rewrite Hn in *.
  (* the sets root *)
  unfold Installer.ensureSkillsDir in Hens.
  apply bind_Ok_inv in Hens as (present0 & w0 & Hex0 & Hmk0).
  pose proof (ensure_dir_kind cwd _ _ _ _ _ _ Hex0 Hmk0) as Hroot1.
  unfold cwd in Hroot1. rewrite key_skills_root in Hroot1 by done.
  specialize (Hroot1 Hroot_ne Hfile).
  rewrite existsSync_run in Hex0. inversion Hex0; subst w0. clear Hex0.
  pose proof (when_mkdir_named cwd _ _ _ _ _ Hmk0 Hwf0) as Hwf1.
  apply fetchText_fs in Hfetch.
  (* the directory of the skill *)
  destruct (ensure_dir_Ok cwd _ _ _ _ _ _ Hex Hmk) as (Hg24 & _).
  rewrite existsSync_run in Hex. inversion Hex; subst w3. clear Hex.
  pose proof (when_mkdir_named cwd _ _ _ _ _ Hmk) as Hwf4.
  rewrite Hfetch in Hwf4, Hg24. specialize (Hwf4 Hwf1).
  (* the primary file *)
  assert (Path.join [Installer.skillsDir cwd; name]
          = Path.absolute_of (root ++ [name])) as HskillDir.
  { unfold cwd. rewrite skillsDir_segments by done. by apply join_child. }
  rewrite HskillDir in Hwr, Hloop.
  assert (Forall normal (root ++ [name])) as Hdir_normal.
  { apply Forall_app. split; [done|]. by repeat constructor. }
  assert (forall entry,
            normal entry ->
            Fs.key cwd (Path.join [Path.absolute_of (root ++ [name]); entry])
            = root ++ [name; entry]) as Hkey.
  { intros entry He. rewrite key_child; [|done|by destruct root|done].
    by rewrite <- app_assoc. }
  apply writeFileSync_Ok in Hwr as (_ & Hparent & Hnode & ->).
  rewrite (Hkey _ Hmain) in Hparent, Hnode, Hloop.
  assert (removelast (root ++ [name; Installer.mainFilename url])
          = root ++ [name]) as Hrm.
  { replace (root ++ [name; Installer.mainFilename url])
      with ((root ++ [name]) ++ [Installer.mainFilename url])
      by (by rewrite <- app_assoc).
    apply removelast_last. }
  rewrite Hrm, node_at_nonempty in Hparent by (by destruct root).
  pose proof (write_grows _ _ (text mainResult) Hnode) as Hg45.
  destruct (loop_files cwd net _ _ _ _ _ _ _ _ Hloop) as (Hg56 & extra & E & F).
  cbn [w_fs] in Hg56.
  pose proof (loop_named cwd net _ _ _ _ _ _ _ _ Hloop) as Hwf6.
  cbn [w_fs] in Hwf6.
  assert (Forall normal (root ++ [name; Installer.mainFilename url]))
    as Hmain_normal.
  { apply Forall_app. split; [done|]. by repeat constructor. }
  specialize (Hwf6 (write_named_key _ _ _ Hwf4 Hmain_normal)).
  split; [exact (proj2 (well_named_spec _) Hwf6)|].
  split; [apply Hg56, Hg45, Hg24, Hroot1|].
  split; [apply Hg56, Hg45, Hparent|].
  split; [apply Hg56; eexists; apply lookup_insert_eq|].
  intros entry Hin He. rewrite E in Hin.
  apply elem_of_cons in Hin as [->|Hin].
  - apply Hg56. eexists. apply lookup_insert_eq.
  - rewrite Forall_forall in F. specialize (F entry Hin).
    by rewrite (Hkey _ He) in F.
Qed.

End InstallListed.

(** X20. In a file system of normalized paths where no regular file
    stands at the sets root, a successful install_skill with a non-empty
    skill name, whose primary file name is neither dot segment, is seen
    by list_skills: the skill is listed under its name, and its files
    include the primary file and every fetched entry that is a single
    segment. *)
Theorem installed_is_listed (C : list string)
    (net : list event -> string -> transport)
    (arrange : list string -> list string -> list string)
    (params : install_params) (w w' : world) (r : tool_result)
    (name : string) (fetched failed : list string) :
  let cwd := Path.absolute_of C in
  let url := JsString.or_default (JsString.trim <$> p_url params) EmptyString in
  (forall k names, arrange k names ≡ₚ names) ->
  forallb Path.is_normal_segment C = true ->
  well_named (w_fs w) = true ->
  (forall c, w_fs w !! (C ++ ["skills"]) ≠ Some (File c)) ->
  Installer.install_skill cwd net params w = Ok r w' ->
  result_details r = Installed name fetched failed ->
  name <> EmptyString ->
  Path.is_normal_segment (Installer.mainFilename url) = true ->
  exists lr files,
    Listing.list_skills cwd arrange w' = Ok lr w'
    /\ (name, files) ∈ l_skills lr
    /\ Installer.mainFilename url ∈ files
    /\ forall entry,
         entry ∈ fetched -> Path.is_normal_segment entry = true ->
         entry ∈ files.
Proof.
  intros cwd url Hperm HC Hwf Hfile Hrun Hdetails Hname Hmain.
  apply normal_Forall in HC.
  destruct (install_Ok_nodes C net params w w' r name fetched failed
              HC Hwf Hfile Hrun Hdetails Hname Hmain)
    as (Hwf' & Hroot & Hdir & Hmainfile & Hfiles).
  exists (Listing.report
            (map (fun n =>
                    (n, Listing.entries arrange (w_fs w')
                          (C ++ ["skills"; n])))
               (List.filter
                  (fun n =>
                     match w_fs w' !! (C ++ ["skills"; n]) with
                     | Some Dir => true
                     | _ => false
                     end)
                  (Listing.entries arrange (w_fs w') (C ++ ["skills"]))))),
    (Listing.entries arrange (w_fs w') ((C ++ ["skills"]) ++ [name])).
  split; [by apply list_skills_run|].
  rewrite skills_of_report.
  split; [by apply elem_of_listed_root|].
  assert (forall entry,
            is_file (w_fs w') ((C ++ ["skills"]) ++ [name; entry]) ->
            entry ∈ Listing.entries arrange (w_fs w')
                      ((C ++ ["skills"]) ++ [name])) as Hentry.
  { intros entry [c Hc]. apply (elem_of_entries arrange _ _ _ Hperm).
    rewrite <- app_assoc. simpl. by rewrite Hc. }
  split; [by apply Hentry|].
  intros entry Hin He. by apply Hentry, Hfiles.
Qed.

Lemma installed_is_listed_witness :
  exists lr files,
    Listing.list_skills (Path.absolute_of ["home"; "agent"]) in_map_order
      (world_of
         (Installer.install_skill (Path.absolute_of ["home"; "agent"]) net_B
            (InstallParams (Some skill_url) None) agent_world))
    = Ok lr
        (world_of
           (Installer.install_skill (Path.absolute_of ["home"; "agent"]) net_B
              (InstallParams (Some skill_url) None) agent_world))
    /\ ("my-skill", files) ∈ l_skills lr
    /\ Installer.mainFilename
         (JsString.or_default
            (JsString.trim <$> p_url (InstallParams (Some skill_url) None))
            EmptyString) ∈ files
    /\ forall entry,
         entry ∈ ["my-skill.md"; "config.json"] ->
         Path.is_normal_segment entry = true ->
         entry ∈ files.
Proof.
  apply (installed_is_listed ["home"; "agent"] net_B in_map_order
           (InstallParams (Some skill_url) None) agent_world _
           (ToolResult
              (Installer.install_summary "my-skill"
                 ["my-skill.md"; "config.json"] [])
              (Installed "my-skill" ["my-skill.md"; "config.json"] []))
           "my-skill" ["my-skill.md"; "config.json"] []).
  - intros k names. reflexivity.
  - reflexivity.
  - vm_compute. reflexivity.
  - intros c. vm_compute. discriminate.
  - vm_compute. reflexivity.
  - reflexivity.
  - discriminate.
  - vm_compute. reflexivity.
Defined.

Section ListingEdges.
Import Listing.

Local Abbreviation normal := (fun seg => Path.is_normal_segment seg = true).

Lemma filter_none {A} (f : A -> bool) (l : list A) :
  (forall x, f x = false) -> List.filter f l = [].
Proof.
  intros H. induction l as [|x l IH]; [done|]. simpl. by rewrite H.
Qed.

(** list_skills after ensureSkillsDir has made sure of the sets root. *)
Lemma list_skills_after_ensure (cwd : string)
    (arrange : list string -> list string -> list string) (w w1 : world) :
  Installer.ensureSkillsDir cwd w = Ok tt w1 ->
  list_skills cwd arrange w = list_skills cwd arrange w1.
Proof.
  intros Hens.
  destruct (ensureSkillsDir_Ok cwd _ _ _ Hens) as (_ & Hpresent).
  unfold list_skills. unfold bind at 1. rewrite Hens.
  unfold bind at 3. by rewrite (ensureSkillsDir_present cwd w1 Hpresent).
Qed.

End ListingEdges.



(** X22. When a regular file stands at the sets root, with a
    normalized working directory, list_skills does not return: the
    reading of the directory throws ENOTDIR, and the world is left as it
    was. *)
Theorem list_skills_root_file (C : list string)
    (arrange : list string -> list string -> list string) (w : world)
    (c : string) :
  let cwd := Path.absolute_of C in
  forallb Path.is_normal_segment C = true ->
  w_fs w !! (C ++ ["skills"]) = Some (File c) ->
  Listing.list_skills cwd arrange w = Throw (Fs.error "ENOTDIR") w.
Proof.
  intros cwd HC Hroot. apply normal_Forall in HC.
  assert (Fs.key cwd (Installer.skillsDir cwd) = C ++ ["skills"]) as Hkey
    by (by apply key_skills_root).
  unfold Listing.list_skills. unfold bind at 1.
  rewrite ensureSkillsDir_present.
  2:{ unfold Fs.lookup_path. rewrite Hkey.
      rewrite node_at_nonempty by (by destruct C). rewrite Hroot.
      unfold cwd. rewrite skillsDir_segments by done.
      rewrite ends_with_sep_absolute_of; [done| |by destruct C].
      apply Forall_app. split; [done|]. by repeat constructor. }
  unfold Listing.readdirSync_types. unfold bind at 1. unfold bind at 1.
  rewrite readdirSync_run, Hkey.
  rewrite node_at_nonempty by (by destruct C). by rewrite Hroot.
Qed.

Lemma list_skills_root_file_witness :
  Listing.list_skills (Path.absolute_of ["home"; "agent"]) in_map_order
    (World (<[ ["home"; "agent"; "skills"] := File "notes" ]> agent_fs) [])
  = Throw (Fs.error "ENOTDIR")
      (World (<[ ["home"; "agent"; "skills"] := File "notes" ]> agent_fs) []).
Proof.
  apply (list_skills_root_file ["home"; "agent"] in_map_order
           (World (<[ ["home"; "agent"; "skills"] := File "notes" ]> agent_fs)
              []) "notes").
  - reflexivity.
  - reflexivity.
Defined.

(** * A failed primary fetch, the guard and the secret *)

Section FailedFetch.

Local Abbreviation normal := (fun seg => Path.is_normal_segment seg = true).

(** ensureSkillsDir, by cases on the sets root. *)
Lemma ensureSkillsDir_cases (cwd : string) (w : world) :
  (forall k c, k `prefix_of` Fs.key cwd (Installer.skillsDir cwd) ->
               w_fs w !! k ≠ Some (File c)) ->
  (is_Some (Fs.lookup_path cwd (w_fs w) (Installer.skillsDir cwd))
   /\ Installer.ensureSkillsDir cwd w = Ok tt w)
  \/ (Fs.lookup_path cwd (w_fs w) (Installer.skillsDir cwd) = None
      /\ exists fs1,
           Fs.mkdir_from (w_fs w) [] (Fs.key cwd (Installer.skillsDir cwd))
           = Some fs1
           /\ Installer.ensureSkillsDir cwd w
              = Ok tt (World fs1
                         (w_trace w ++ [EvMkdir (Installer.skillsDir cwd)]))
           /\ forall k,
                fs1 !! k = w_fs w !! k
                \/ (w_fs w !! k = None /\ fs1 !! k = Some Dir
                    /\ k `prefix_of` Fs.key cwd (Installer.skillsDir cwd))).
Proof.
  intros Hfree.
  destruct (Fs.lookup_path cwd (w_fs w) (Installer.skillsDir cwd)) as [x|] eqn:E.
  - left. split; [done|]. apply ensureSkillsDir_present. by rewrite E.
  - right. split; [done|].
    destruct (mkdir_from_ok (Fs.key cwd (Installer.skillsDir cwd)) []
                (w_fs w) Hfree) as (fs1 & Hmk & Hfs1).
    exists fs1. split; [done|]. split; [|done].
    unfold Installer.ensureSkillsDir, bind. rewrite existsSync_run, E.
    cbn [negb when].
    unfold Fs.mkdirSync, bind, log, get_fs, put_fs. cbn [w_fs w_trace].
    by rewrite Hmk.
Qed.

(** A path that exists and is not a regular file is a directory. *)
Lemma lookup_path_dir (cwd : string) (fs : gmap (list string) node)
    (p : string) :
  is_Some (Fs.lookup_path cwd fs p) ->
  (forall c, fs !! Fs.key cwd p ≠ Some (File c)) ->
  Fs.node_at fs (Fs.key cwd p) = Some Dir.
Proof.
  unfold Fs.lookup_path. intros [x Hx] Hfile.
  destruct (Fs.key cwd p) as [|seg k] eqn:Ek; [done|].
  unfold Fs.node_at in *.
  destruct (fs !! (seg :: k)) as [[c|]|] eqn:E; [|done|done].
  by destruct (Hfile c).
Qed.

End FailedFetch.



(** With the URL https://x.com/.md the name of the skill is empty and
    the directory of the skill is the sets root: a failed install on a
    fresh working directory then has created the directory of the
    skill. *)
Example install_failure_dot_file :
  let skillDir :=
    Path.join [Installer.skillsDir agent_cwd;
               Installer.skillName None dot_file_url] in
  exists message w',
    Installer.install_skill agent_cwd net_404
      (InstallParams (Some dot_file_url) None) agent_world
    = Ok (ToolResult message Failure) w'
    /\ Fs.key agent_cwd skillDir = ["home"; "agent"; "skills"]
    /\ w_fs agent_world !! Fs.key agent_cwd skillDir = None
    /\ w_fs w' !! Fs.key agent_cwd skillDir = Some Dir.
Proof. eexists _, _. split; [vm_compute; reflexivity|]. by vm_compute. Qed.

Section GuardContract.

Local Abbreviation normal := (fun seg => Path.is_normal_segment seg = true).
Local Abbreviation sepfree := (JsString.all_chars (Chars.except "/")).

(** Node's normalization and the resolution of the specification agree
    on a stack that holds no double dot. *)
Lemma collapse_norm (segs kept : list string) :
  ".." ∉ kept ->
  rev (fold_left (Path.norm_step false) segs kept) = collapse kept segs.
Proof.
  revert kept. induction segs as [|seg segs IH]; intros kept Hk; [done|].
  simpl. unfold Path.norm_step at 2.
  destruct (String.eqb_spec seg EmptyString) as [->|H1]; [by apply IH|].
  destruct (String.eqb_spec seg ".") as [->|H2]; [by apply IH|].
  cbn [orb].
  destruct (String.eqb_spec seg "..") as [->|H3].
  - destruct kept as [|top below]; [by apply IH|].
    destruct (String.eqb_spec top "..") as [->|H4].
    + exfalso. apply Hk. constructor.
    + apply IH. intros Hin. apply Hk. by constructor.
  - apply IH. intros Hin. apply elem_of_cons in Hin as [Hin|Hin]; [|done].
    by subst.
Qed.

Lemma normal_no_dotdot (S : list string) : Forall normal S -> ".." ∉ rev S.
Proof.
  intros HS Hin. apply list_elem_of_In, in_rev, list_elem_of_In in Hin.
  rewrite Forall_forall in HS. by specialize (HS _ Hin).
Qed.

Lemma resolved_segments_spec (S : list string) (cand : string) :
  Forall normal S -> Path.resolved_segments S cand = spec_resolved S cand.
Proof.
  intros HS. unfold Path.resolved_segments, spec_resolved.
  apply collapse_norm.
  destruct (JsString.startsWith cand "/"); [apply not_elem_of_nil|].
  by apply normal_no_dotdot.
Qed.

Lemma prefix_cases (S R : list string) :
  S `prefix_of` R <-> R = S \/ exists x rest, R = S ++ x :: rest.
Proof.
  split.
  - intros [k ->]. destruct k as [|x rest]; [left|right].
    + by rewrite app_nil_r.
    + by exists x, rest.
  - intros [->|(x & rest & ->)]; [done|]. by exists (x :: rest).
Qed.

(** A path of plain segments does not start with the separator. *)
Lemma join_relative (segs : list string) :
  Forall normal segs -> JsString.startsWith (JsString.join "/" segs) "/" = false.
Proof.
  intros H. destruct segs as [|seg segs]; [done|].
  inversion H as [|? ? Hseg _]; subst.
  destruct seg as [|c seg]; [done|].
  unfold Path.is_normal_segment in Hseg.
  apply andb_true_iff in Hseg as [_ Hseg]. simpl in Hseg.
  apply andb_true_iff in Hseg as [Hc _]. unfold Chars.except in Hc.
  apply negb_true_iff in Hc. rewrite Ascii.eqb_sym in Hc.
  destruct segs as [|seg' segs].
  - change (JsString.join "/" [String c seg]) with (String c seg).
    by rewrite startsWith_sep.
  - change (JsString.join "/" (String c seg :: seg' :: segs))
      with (String c (seg +:+ "/" +:+ JsString.join "/" (seg' :: segs))).
    by rewrite startsWith_sep.
Qed.

Lemma resolved_plain (S segs : list string) :
  Forall normal S -> Forall normal segs ->
  Path.resolved_segments S (JsString.join "/" segs) = S ++ segs.
Proof.
  intros HS Hsegs. unfold Path.resolved_segments.
  rewrite join_relative by done.
  rewrite split_join
    by (eapply Forall_impl; [apply Hsegs|apply normal_sepfree]).
  destruct segs as [|seg segs].
  - simpl. change (Path.norm_step false (rev S) EmptyString) with (rev S).
    by rewrite rev_involutive, app_nil_r.
  - rewrite fold_norm_push by done.
    by rewrite rev_app_distr, !rev_involutive.
Qed.

(** Going up one segment and down into a sibling. *)
Lemma resolved_sibling (S0 : list string) (l x : string) :
  Forall normal (S0 ++ [l]) -> normal x ->
  Path.resolved_segments (S0 ++ [l]) ("../" +:+ x) = S0 ++ [x].
Proof.
  intros HS Hx. unfold Path.resolved_segments.
  change ("../" +:+ x) with (".." +:+ String "/" x).
  assert (JsString.startsWith (".." +:+ String "/" x) "/" = false) as ->
    by done.
  rewrite split_app_sep, (split_sepfree x (normal_sepfree x Hx)).
  rewrite rev_app_distr. simpl.
  apply Forall_app in HS as [_ Hl]. inversion Hl as [|? ? Hl' _]; subst.
  unfold Path.norm_step at 2. simpl.
  assert (String.eqb l ".." = false) as ->.
  { apply String.eqb_neq. intros ->. discriminate Hl'. }
  rewrite norm_step_push by done. simpl. by rewrite rev_involutive.
Qed.

End GuardContract.




Section SecretFacts.
Import Scanner.

Local Abbreviation normal := (fun seg => Path.is_normal_segment seg = true).

(** The backtick pattern at a token config.json, whatever follows. *)
Lemma match_config_token (pos : nat) (post : string) :
  Regex.match_here backtickRegex pos ("`config.json`" +:+ post)
  = Some (13 + pos, post, [(1, "config.json")]).
Proof.
  change ("`config.json`" +:+ post)
    with (String "`" (String "c" (String "o" (String "n" (String "f"
           (String "i" (String "g" (String "." (String "j" (String "s"
           (String "o" (String "n" (String "`" post))))))))))))).
  unfold Regex.match_here, backtickRegex.
  cbv -[Nat.sub JsString.take].
  match goal with
  | |- context [JsString.take ?n _] => replace n with 11 by lia
  end.
  reflexivity.
Qed.

(** The pattern does not match where no backtick stands. *)
Lemma match_no_backtick (pos : nat) (c : ascii) (s : string) :
  Chars.except "`" c = true ->
  Regex.match_here backtickRegex pos (String c s) = None.
Proof.
  intros Hc. unfold Regex.match_here, backtickRegex. cbn [Regex.run Regex.Lit].
  unfold Chars.except in Hc. apply negb_true_iff in Hc.
  unfold Chars.only. by rewrite Hc.
Qed.

Lemma exec_loop_no_backtick (pre rest : string) (pos : nat) :
  JsString.all_chars (Chars.except "`") pre = true ->
  Regex.exec_loop backtickRegex pos (pre +:+ rest) 0
  = Regex.exec_loop backtickRegex (pos + String.length pre) rest 0.
Proof.
  revert pos. induction pre as [|c pre IH]; intros pos Hpre.
  - simpl. by rewrite Nat.add_0_r.
  - simpl in Hpre. apply andb_true_iff in Hpre as [Hc Hpre].
    rewrite app_cons. cbn [Regex.exec_loop].
    rewrite match_no_backtick by done. rewrite IH by done.
    simpl. by rewrite Nat.add_succ_r.
Qed.

(** A token config.json with no backtick before it is a reference. *)
Lemma config_token_found (pre post : string) :
  JsString.all_chars (Chars.except "`") pre = true ->
  "config.json" ∈ findReferencedFiles (pre +:+ "`config.json`" +:+ post).
Proof.
  intros Hpre. unfold findReferencedFiles.
  apply elem_of_fold_add_if. right. split; [|reflexivity].
  unfold backtick_tokens, Regex.exec_all.
  rewrite exec_loop_no_backtick by done.
  change ("`config.json`" +:+ post)
    with (String "`" ("config.json`" +:+ post)).
  cbn [Regex.exec_loop].
  change (String "`" ("config.json`" +:+ post))
    with ("`config.json`" +:+ post).
  rewrite match_config_token. simpl. apply list_elem_of_here.
Qed.

(** The backtick rule never yields the path to the secret: it can be a
    reference only as the target of a link. *)
Lemma secret_only_by_link (content : string) :
  "../secret" ∈ findReferencedFiles content ->
  "../secret" ∈ link_targets content.
Proof.
  unfold findReferencedFiles. intros H.
  apply elem_of_fold_add_if in H as [H|[_ H]]; [|discriminate H].
  by apply link_refs_spec in H as [H _].
Qed.

End SecretFacts.

Section SecretGuard.

Local Abbreviation normal := (fun seg => Path.is_normal_segment seg = true).

(** The directory of a skill, for a normalized working directory: the
    sets root itself when the name is empty. *)
Lemma skill_dir_form (C : list string) (n : string) :
  Forall normal C ->
  JsString.all_chars Scanner.is_name_char n = true ->
  Path.join [Installer.skillsDir (Path.absolute_of C); n]
  = Path.absolute_of
      (C ++ "skills" :: (if JsString.truthy n then [n] else [])).
Proof.
  intros HC Hn. rewrite skillsDir_segments by done.
  assert (Forall normal (C ++ ["skills"])) as Hroot.
  { apply Forall_app. split; [done|]. by repeat constructor. }
  destruct (JsString.truthy n) eqn:Hne.
  - rewrite join_child; [|done|by apply name_chars_normal].
    by rewrite <- app_assoc.
  - destruct n; [|done]. apply join_absolute_of_empty; [done|by destruct C].
Qed.

(** The guard of a directory blocks the sibling secret, unless the
    directory is itself named secret. *)
Lemma guard_blocks_sibling (cwd : string) (S0 : list string) (l x : string) :
  Forall normal (S0 ++ [l]) -> normal x -> l <> x ->
  Installer.isSafePath cwd (Path.absolute_of (S0 ++ [l])) ("../" +:+ x)
  = false.
Proof.
  intros HS Hx Hne.
  destruct (Installer.isSafePath cwd (Path.absolute_of (S0 ++ [l]))
              ("../" +:+ x)) eqn:E; [|done].
  apply isSafePath_segments in E; [|by destruct S0|done].
  rewrite resolved_sibling in E by done.
  destruct E as [k Hk]. rewrite <- app_assoc in Hk.
  apply app_inv_head in Hk. by inversion Hk.
Qed.

Lemma skill_guard_blocks_secret (C : list string) (n : string) :
  Forall normal C ->
  JsString.all_chars Scanner.is_name_char n = true ->
  n <> "secret" ->
  Installer.isSafePath (Path.absolute_of C)
    (Path.join [Installer.skillsDir (Path.absolute_of C); n]) "../secret"
  = false.
Proof.
  intros HC Hn Hne. rewrite skill_dir_form by done.
  destruct (JsString.truthy n) eqn:Ht.
  - replace (C ++ ["skills"; n]) with ((C ++ ["skills"]) ++ [n])
      by (by rewrite <- app_assoc).
    apply (guard_blocks_sibling _ (C ++ ["skills"]) n "secret");
      [|done|done].
    apply Forall_app. split.
    + apply Forall_app. split; [done|]. by repeat constructor.
    + constructor; [by apply name_chars_normal|constructor].
  - apply (guard_blocks_sibling _ C "skills" "secret"); [|done|done].
    apply Forall_app. split; [done|]. by repeat constructor.
Qed.

End SecretGuard.



(** The same install of the document with the link, under the name
    notes: the link target is a reference, the guard blocks it, the
    report lists it as blocked, and config.json is saved. *)
Example secret_link_blocked_run :
  exists w',
    Installer.install_skill agent_cwd net_secret
      (InstallParams (Some skill_url) (Some "notes")) agent_world
    = Ok (ToolResult
            (Installer.install_summary "notes" ["my-skill.md"; "config.json"]
               ["../secret (blocked: path traversal)"])
            (Installed "notes" ["my-skill.md"; "config.json"]
               ["../secret (blocked: path traversal)"])) w'
    /\ Scanner.findReferencedFiles secret_link_document
       = ["../secret"; "config.json"]
    /\ w_trace w'
       = [EvMkdir "/home/agent/skills";
          EvFetch skill_url;
          EvMkdir "/home/agent/skills/notes";
          EvWrite "/home/agent/skills/notes/my-skill.md" secret_link_document;
          EvFetch "https://example.com/skills/config.json";
          EvWrite "/home/agent/skills/notes/config.json" "{}"].
Proof. eexists. split; [vm_compute; reflexivity|]. by vm_compute. Qed.

